(** * Kibron FilmWareX remote-server client ([mtx_client.py])

    A shallow embedding of the command/response client ([Trough]) and of
    the background poller ([PollData]), together with the part of the
    Python runtime the client relies on (text primitives, [int], [float],
    [str], indexing, exceptions).

    - A function that can raise returns a [result]; [try]/[except] is
      [try_except].
    - The connection is the list of what the successive [recv] calls
      return, threaded through the operations, with a log of what was
      sent.
    - A callback is known by the calls made to it, kept in the poller.
    - The poller thread is a small machine ([run_step]); the properties
      and methods other threads use are moves of their own
      ([control_step]), interleaved with it. *)

From Stdlib Require Import ZArith QArith String Ascii List Bool Lia.
From Stdlib Require Import DecimalString DecimalZ SpecFloat.
From Stdlib Require Import Qpower Qround Qabs Lqa.
From stdpp Require Import base option list strings gmap.

Local Open Scope string_scope.
Local Open Scope Z_scope.

(** ** The Python runtime, as far as the client uses it *)

Module Py.

(** Text is ASCII: the wire protocol is plain ASCII lines, and
    [bytes.decode] is the identity on them.  A [bytes] object and a [str]
    object are both a [string] here, and what is said about a character
    is meant for the codes below 128. *)

(** *** Field values

    What [str_to_number] can return: an [int], a [float], a [bool] or the
    [str] it was given.  A [float] is an IEEE binary64 number, kept as its
    sign, mantissa and binary exponent. *)

Definition float := spec_float.

Inductive value :=
| VInt (z : Z)
| VReal (f : float)
| VBool (b : bool)
| VStr (s : string).

(** What [Trough.call] can return: [None], one field, or a tuple. *)
Inductive call_result :=
| RNone
| RScalar (v : value)
| RTuple (vs : list value).

(** *** Exceptions *)

Inductive exn :=
| ValueError
| KeyError
| IndexError
| TypeError
| AttributeError
| ConnectionError
| TroughError (msg : string)
| PollDataError (msg : string) (data : list call_result).

Inductive result (A : Type) :=
| Ok (a : A)
| Raise (e : exn).
Arguments Ok {A} a.
Arguments Raise {A} e.

Definition bind {A B} (r : result A) (k : A -> result B) : result B :=
  match r with
  | Ok a => k a
  | Raise e => Raise e
  end.

Notation "x <- e ;; k" := (bind e (fun x => k))
  (at level 100, e at next level, right associativity).

(** [try r except h]: the handler sees the exception and either handles
    it or lets it through. *)
Definition try_except {A} (r : result A) (h : exn -> option (result A)) : result A :=
  match r with
  | Ok a => Ok a
  | Raise e => match h e with Some r' => r' | None => Raise e end
  end.

(** *** Characters and text *)

Definition code (c : ascii) : Z := Z.of_N (N_of_ascii c).

(** [str.isspace] on ASCII: TAB, LF, VT, FF, CR, the four separators
    FS, GS, RS, US, and the blank. *)
Definition isspace (c : ascii) : bool :=
  ((9 <=? code c) && (code c <=? 13)) || ((28 <=? code c) && (code c <=? 32)).

Definition isdigit (c : ascii) : bool := (48 <=? code c) && (code c <=? 57).

Definition lower_char (c : ascii) : ascii :=
  if (65 <=? code c) && (code c <=? 90)
  then ascii_of_N (Z.to_N (code c + 32)) else c.

(** [s.lower()] *)
Fixpoint lower (s : string) : string :=
  match s with
  | EmptyString => EmptyString
  | String c r => String (lower_char c) (lower r)
  end.

(** [c in s] for a one-character [c] *)
Fixpoint contains (c : ascii) (s : string) : bool :=
  match s with
  | EmptyString => false
  | String d r => Ascii.eqb c d || contains c r
  end.

(** [s.startswith(p)] *)
Definition startswith (p s : string) : bool := String.prefix p s.

(** [s.endswith(p)] *)
Definition endswith (p s : string) : bool :=
  let n := String.length s in
  let k := String.length p in
  (k <=? n)%nat && String.eqb (String.substring (n - k) k s) p.

(** [s.split(sep, 1)] for a one-character separator: the text before the
    first [sep] and the text after it, or [None] when [sep] does not
    occur (the list then has one element). *)
Fixpoint split1 (sep : ascii) (s : string) : option (string * string) :=
  match s with
  | EmptyString => None
  | String c r =>
      if Ascii.eqb c sep then Some (EmptyString, r)
      else match split1 sep r with
           | Some (a, b) => Some (String c a, b)
           | None => None
           end
  end.

(** [s.split(None)]: maximal runs of non-blank characters, in order.
    [cur] is the token being read, if any. *)
Fixpoint split_go (cur : option string) (s : string) : list string :=
  match s with
  | EmptyString =>
      match cur with Some w => [w] | None => [] end
  | String c r =>
      if isspace c then
        match cur with
        | Some w => w :: split_go None r
        | None => split_go None r
        end
      else
        match cur with
        | Some w => split_go (Some (w ++ String c EmptyString)) r
        | None => split_go (Some (String c EmptyString)) r
        end
  end.

Definition split (s : string) : list string := split_go None s.

(** [sep.join(l)] *)
Fixpoint join (sep : string) (l : list string) : string :=
  match l with
  | [] => EmptyString
  | [x] => x
  | x :: r => x ++ sep ++ join sep r
  end.

(** The blanks that [int] and [float] skip around an ASCII text: TAB,
    LF, VT, FF, CR and the blank (the four separators are not skipped). *)
Definition isblank (c : ascii) : bool :=
  ((9 <=? code c) && (code c <=? 13)) || (code c =? 32).

Fixpoint lstrip (s : string) : string :=
  match s with
  | String c r => if isblank c then lstrip r else s
  | EmptyString => EmptyString
  end.

(** The text without the blanks before and after it. *)
Definition strip (s : string) : string :=
  String.rev (lstrip (String.rev (lstrip s))).

(** *** [int(s)]

    Blanks around the text are ignored; an optional sign; then decimal
    digits, where single underscores may separate digits.  (The limit some
    interpreters put on the number of digits is a setting of the
    interpreter and is left out.) *)

(** [digitpart ::= digit (["_"] digit)*]: its value and how many digits
    it has. *)
Fixpoint digitpart_go (s : string) (acc n : Z) (after_digit : bool) : option (Z * Z) :=
  match s with
  | EmptyString => if after_digit then Some (acc, n) else None
  | String c r =>
      if isdigit c then digitpart_go r (10 * acc + (code c - 48)) (n + 1) true
      else if Ascii.eqb c "_" && after_digit then digitpart_go r acc n false
      else None
  end.

Definition digitpart (s : string) : option (Z * Z) := digitpart_go s 0 0 false.

(** An optional leading sign: whether it is a minus, and the rest. *)
Definition sign_part (s : string) : bool * string :=
  match s with
  | String c r =>
      if Ascii.eqb c "-" then (true, r)
      else if Ascii.eqb c "+" then (false, r)
      else (false, s)
  | EmptyString => (false, s)
  end.

Definition int (s : string) : result Z :=
  let (neg, r) := sign_part (strip s) in
  match digitpart r with
  | Some (v, _) => Ok (if neg then - v else v)
  | None => Raise ValueError
  end.

(** *** [float(s)] *)

Definition prec : Z := 53.
Definition emax : Z := 1024.

(** The binary64 number nearest to [p / q] (ties to even), for [0 <= p]
    and [0 < q]. *)
Definition of_ratio (neg : bool) (p q : Z) : float :=
  if p =? 0 then S754_zero neg
  else
    let '(m, e, l) := SFdiv_core_binary prec emax p 0 q 0 in
    binary_round_aux prec emax neg m e l.

(** The binary64 number nearest to [m * 10 ^ e]. *)
Definition of_decimal (neg : bool) (m e : Z) : float :=
  if 0 <=? e then of_ratio neg (m * 10 ^ e) 1
  else of_ratio neg m (10 ^ (- e)).

(** The text before the first [e] or [E], and the text after it. *)
Fixpoint split_exponent (s : string) : string * option string :=
  match s with
  | EmptyString => (EmptyString, None)
  | String c r =>
      if Ascii.eqb (lower_char c) "e" then (EmptyString, Some r)
      else let (a, b) := split_exponent r in (String c a, b)
  end.

(** [number ::= [digitpart] "." digitpart | digitpart ["."]]: the digits
    read as one integer, and how many of them follow the point. *)
Definition number (s : string) : option (Z * Z) :=
  match split1 "." s with
  | None =>
      match digitpart s with
      | Some (v, _) => Some (v, 0)
      | None => None
      end
  | Some (ip, fp) =>
      match ip, fp with
      | EmptyString, EmptyString => None
      | _, EmptyString =>
          match digitpart ip with
          | Some (v, _) => Some (v, 0)
          | None => None
          end
      | EmptyString, _ => digitpart fp
      | _, _ =>
          match digitpart ip, digitpart fp with
          | Some (v, _), Some (w, k) => Some (v * 10 ^ k + w, k)
          | _, _ => None
          end
      end
  end.

(** [exponent ::= ("e" | "E") ["+" | "-"] digitpart], after the letter. *)
Definition exponent (s : string) : option Z :=
  let (neg, r) := sign_part s in
  match digitpart r with
  | Some (v, _) => Some (if neg then - v else v)
  | None => None
  end.

Definition float_of_string (s : string) : result float :=
  let (neg, r) := sign_part (strip s) in
  let l := lower r in
  if String.eqb l "inf" || String.eqb l "infinity" then Ok (S754_infinity neg)
  else if String.eqb l "nan" then Ok S754_nan
  else
    let (mant, ex) := split_exponent r in
    match number mant, ex with
    | Some (m, k), None => Ok (of_decimal neg m (- k))
    | Some (m, k), Some x =>
        match exponent x with
        | Some e => Ok (of_decimal neg m (e - k))
        | None => Raise ValueError
        end
    | None, _ => Raise ValueError
    end.

(** *** [str(x)] *)

(** Decimal digits of a non-negative integer. *)
Definition digits (z : Z) : string := NilEmpty.string_of_int (Z.to_int z).

Definition str_int (z : Z) : string := NilEmpty.string_of_int (Z.to_int z).

Definition str_bool (b : bool) : string := if b then "True" else "False".

Fixpoint lstrip_zeros (s : string) : string :=
  match s with
  | String c r => if Ascii.eqb c "0" then lstrip_zeros r else s
  | EmptyString => EmptyString
  end.

Definition rstrip_zeros (s : string) : string :=
  String.rev (lstrip_zeros (String.rev s)).

Fixpoint zeros (n : nat) : string :=
  match n with
  | O => EmptyString
  | S k => String "0" (zeros k)
  end.

Definition same_float (x y : float) : bool :=
  match x, y with
  | S754_zero a, S754_zero b => Bool.eqb a b
  | S754_infinity a, S754_infinity b => Bool.eqb a b
  | S754_nan, S754_nan => true
  | S754_finite a m e, S754_finite b n f =>
      Bool.eqb a b && Pos.eqb m n && Z.eqb e f
  | _, _ => false
  end.

(** [p / q < 10 ^ k] *)
Definition below_pow10 (p q k : Z) : bool :=
  if 0 <=? k then p <? q * 10 ^ k else p * 10 ^ (- k) <? q.

(** The least [k] from the start value on with [p / q < 10 ^ k]: the
    position of the decimal point of [p / q]. *)
Fixpoint find_decpt (fuel : nat) (p q k : Z) : Z :=
  match fuel with
  | O => k
  | S f => if below_pow10 p q k then k else find_decpt f p q (k + 1)
  end.

(** The [n]-digit decimals next to [p / q] that read back as [x], the
    nearer one first (on a tie the even one). *)
Definition candidates (x : float) (p q k n : Z) : list Z :=
  let s := n - k in
  let num := if 0 <=? s then p * 10 ^ s else p in
  let den := if 0 <=? s then q else q * 10 ^ (- s) in
  let lo := num / den in
  let r := num mod den in
  let hi := lo + 1 in
  let ordered :=
    match 2 * r ?= den with
    | Lt => [lo; hi]
    | Gt => [hi; lo]
    | Eq => if Z.even lo then [lo; hi] else [hi; lo]
    end in
  List.filter (fun c => same_float (of_decimal false c (k - n)) x) ordered.

(** The shortest decimal that reads back as [x]: its digits as an integer
    and the power of ten it is scaled by.  Seventeen digits always do. *)
Fixpoint shortest (fuel : nat) (x : float) (p q k n : Z) : Z * Z :=
  match fuel with
  | O => ((if 0 <=? 17 - k then p * 10 ^ (17 - k) / q
           else p / (q * 10 ^ (k - 17))), k - 17)
  | S f =>
      match candidates x p q k n with
      | c :: _ => (c, k - n)
      | [] => shortest f x p q k (n + 1)
      end
  end.

(** [repr] of a positive finite number [m * 2 ^ e]: the shortest digits
    that read back as the number, in positional form when the decimal
    point falls within [-3 .. 16], otherwise in exponent form. *)
Definition repr_finite (m : positive) (e : Z) : string :=
  let x := S754_finite false m e in
  let p := if 0 <=? e then Z.pos m * 2 ^ e else Z.pos m in
  let q := if 0 <=? e then 1 else 2 ^ (- e) in
  let k := find_decpt 640 p q (-330) in
  let (c, sc) := shortest 17 x p q k 1 in
  let all := digits c in
  let decpt := Z.of_nat (String.length all) + sc in
  let ds := rstrip_zeros all in
  let nd := Z.of_nat (String.length ds) in
  if (decpt <=? -4) || (16 <? decpt) then
    let ex := decpt - 1 in
    let exs := digits (Z.abs ex) in
    let frac := String.substring 1 (String.length ds - 1) ds in
    String.substring 0 1 ds
      ++ (if String.eqb frac "" then "" else "." ++ frac)
      ++ "e" ++ (if ex <? 0 then "-" else "+")
      ++ (if Z.abs ex <? 10 then "0" else "") ++ exs
  else if decpt <=? 0 then
    "0." ++ zeros (Z.to_nat (- decpt)) ++ ds
  else if nd <=? decpt then
    ds ++ zeros (Z.to_nat (decpt - nd)) ++ ".0"
  else
    String.substring 0 (Z.to_nat decpt) ds ++ "."
      ++ String.substring (Z.to_nat decpt) (Z.to_nat (nd - decpt)) ds.

Definition str_float (x : float) : string :=
  match x with
  | S754_zero s => if s then "-0.0" else "0.0"
  | S754_infinity s => if s then "-inf" else "inf"
  | S754_nan => "nan"
  | S754_finite s m e => (if s then "-" else "") ++ repr_finite m e
  end.

Definition str (v : value) : string :=
  match v with
  | VInt z => str_int z
  | VReal f => str_float f
  | VBool b => str_bool b
  | VStr s => s
  end.

(** [repr(s)] of ASCII text: quoted, with the quote, the backslash and the
    control characters escaped. *)
Definition hex_digit (n : Z) : ascii :=
  if n <? 10 then ascii_of_N (Z.to_N (48 + n)) else ascii_of_N (Z.to_N (87 + n)).

Definition repr_char (quote c : ascii) : string :=
  if Ascii.eqb c quote || Ascii.eqb c "\" then String "\" (String c "")
  else if code c =? 9 then "\t"
  else if code c =? 10 then "\n"
  else if code c =? 13 then "\r"
  else if (code c <? 32) || (127 <=? code c) then
    "\x" ++ String (hex_digit (code c / 16)) (String (hex_digit (code c mod 16)) "")
  else String c "".

Fixpoint repr_chars (quote : ascii) (s : string) : string :=
  match s with
  | EmptyString => EmptyString
  | String c r => repr_char quote c ++ repr_chars quote r
  end.

Definition repr_str (s : string) : string :=
  let quote : ascii :=
    if contains "'" s && negb (contains "034" s) then "034"%char else "'"%char in
  String quote (repr_chars quote s) ++ String quote "".

Definition repr (v : value) : string :=
  match v with
  | VStr s => repr_str s
  | _ => str v
  end.

(** [str(t)] of a tuple *)
Definition str_tuple (t : list value) : string :=
  match t with
  | [v] => "(" ++ repr v ++ ",)"
  | _ => "(" ++ join ", " (map repr t) ++ ")"
  end.

(** *** Sequences *)

(** [l[i]]: a negative index counts from the end; outside the sequence
    the access raises [IndexError]. *)
Definition getitem {A} (l : list A) (i : Z) : result A :=
  let n := Z.of_nat (length l) in
  let j := if i <? 0 then i + n else i in
  if (0 <=? j) && (j <? n) then
    match l !! Z.to_nat j with
    | Some x => Ok x
    | None => Raise IndexError
    end
  else Raise IndexError.

(** [tuple(map(f, l))], where [f] may raise. *)
Fixpoint map_result {A B} (f : A -> result B) (l : list A) : result (list B) :=
  match l with
  | [] => Ok []
  | x :: r => y <- f x ;; ys <- map_result f r ;; Ok (y :: ys)
  end.

(** [x == 0] for a field value: numbers compare by value, and [False]
    is the number 0. *)
Definition eq_zero (v : value) : bool :=
  match v with
  | VInt z => z =? 0
  | VReal (S754_zero _) => true
  | VReal _ => false
  | VBool b => negb b
  | VStr _ => false
  end.

(** [r[i]] for what [call] returned: a tuple or a text can be indexed,
    [None] and numbers cannot. *)
Definition subscript (r : call_result) (i : Z) : result value :=
  match r with
  | RTuple vs => getitem vs i
  | RScalar (VStr s) =>
      c <- getitem (list_ascii_of_string s) i ;; Ok (VStr (String c ""))
  | RScalar _ => Raise TypeError
  | RNone => Raise TypeError
  end.

(** [Exception.__init__(x)], called on the class: [x] is taken as the
    instance being initialised, and only an exception object will do. *)
Inductive object :=
| OStr (s : string)
| OExc (e : exn).

Definition Exception_init (self : object) : result unit :=
  match self with
  | OExc _ => Ok tt
  | OStr _ => Raise TypeError
  end.

(** [a < b] for interval values: a number is its exact rational value,
    [None] does not compare. *)
Definition less (a b : option Q) : result bool :=
  match a, b with
  | Some x, Some y => Ok (negb (Qle_bool y x))
  | _, _ => Raise TypeError
  end.

End Py.

(** ** The client module *)

Module Mtx.
Import Py.

(** Device status codes, the value at index 20 of a [GetData] result *)
Definition DstIdle : Z := 0.
Definition DstTensiometer : Z := 1.
Definition DstCompressionIsotherm : Z := 2.
Definition DstConstantArea : Z := 3.
Definition DstConstantPressure : Z := 4.
Definition DstManual : Z := 5.
Definition DstTargetReached : Z := 6.
Definition DstBarrierInit : Z := 7.
Definition DstBarrierInitDone : Z := 8.

Definition dst_strs : list string :=
  [ "Idle"; "Tensiometer"; "CompressionIsotherm"; "ConstantArea";
    "ConstantPressure"; "Manual"; "TargetReached"; "BarrierInit";
    "BarrierInitDone" ].

(** Convert device status value to string *)
Definition dst_to_str (i : Z) : result string :=
  try_except (getitem dst_strs i)
    (fun e =>
       match e with
       | IndexError => Some (Ok ("Invalid device status value: " ++ str_int i))
       | _ => None
       end).

(** *** The connection

    [rx] holds what the successive [recv] calls will return, in order;
    once it is used up the peer has closed the connection and [recv]
    returns the empty byte string.  [tx] holds what was sent, oldest
    first.

    This is a connection that works until the peer closes it: [send]
    and [recv] do not fail, and what arrives is ASCII, so [decode] does
    not fail either.  The errors of the operating system (reset,
    timeout, refused connection) and of decoding are outside the
    model. *)
Record socket := { rx : list string; tx : list string }.

Definition send (data : string) (sock : socket) : socket :=
  {| rx := rx sock; tx := (tx sock ++ [data])%list |}.

Definition line_end : string := String "010" EmptyString.

(** *** class Trough *)

(** Read a line of text from the socket.  Each [recv] takes the next
    element of [rx]; with none left, or an empty one, the connection is
    closed and the result is Python's [None]. *)
Fixpoint _readline_go (chunks : list string) (s : string) : option string * list string :=
  match chunks with
  | [] => (None, [])
  | rdata :: rest =>
      if (String.length rdata =? 0)%nat then (None, rest)
      else
        let s := s ++ rdata in
        if endswith line_end s then (Some s, rest) else _readline_go rest s
  end.

Definition _readline (sock : socket) : option string * socket :=
  let (r, rest) := _readline_go (rx sock) EmptyString in
  (r, {| rx := rest; tx := tx sock |}).

(** Parse response to trough command.  [None] has no [split] attribute. *)
Definition _parse_response (response : option string) : result (list string) :=
  match response with
  | None => Raise AttributeError
  | Some response =>
      match split1 ":" response with
      | None => Raise (TroughError response)
      | Some (ok, body) =>
          if negb (startswith "OK" ok) then Raise (TroughError response)
          else Ok (split body)
      end
  end.

Definition bools : gmap string bool := <["true" := true]> (<["false" := false]> ∅).

Definition str_to_number (s : string) : result value :=
  try_except
    (if contains "." s
     then f <- float_of_string s ;; Ok (VReal f)
     else z <- int s ;; Ok (VInt z))
    (fun e =>
       match e with
       | ValueError =>
           Some (try_except
                   (match bools !! lower s with
                    | Some b => Ok (VBool b)
                    | None => Raise KeyError
                    end)
                   (fun e' =>
                      match e' with
                      | KeyError => Some (Ok (VStr s))
                      | _ => None
                      end))
       | _ => None
       end).

Definition _map_str_to_number (str_vals : list string) : result (list value) :=
  map_result str_to_number str_vals.

(** The part of [call] after the fields are coerced. *)
Definition shape (method : string) (result : list value) : call_result :=
  if String.eqb method "GetData" then RTuple result
  else if String.eqb method "DeviceIdentification" then RTuple result
  else
    match result with
    | [] => RNone
    | [v] => RScalar v
    | [_; v] => RScalar v
    | _ :: rest => RTuple rest
    end.

(** Call a trough method, with parameters *)
Definition call (method : string) (args : list value) (sock : socket)
  : result call_result * socket :=
  let cmd := join " " (method :: map str args) in
  let sock := send ("call : " ++ cmd ++ line_end) sock in
  let (response, sock) := _readline sock in
  (result <- _parse_response response ;;
   result <- _map_str_to_number result ;;
   Ok (shape method result),
   sock).

Definition unexpected (prop : string) (result : list value) : string :=
  "Property '" ++ prop ++ "' returned unexpected results:" ++ line_end
    ++ str_tuple result.

(** Get a trough property *)
Definition get (prop : string) (sock : socket) : result value * socket :=
  let sock := send ("get : " ++ prop ++ line_end) sock in
  let (response, sock) := _readline sock in
  (result <- _parse_response response ;;
   result <- _map_str_to_number result ;;
   if negb (length result =? 1)%nat
   then Raise (TroughError (unexpected prop result))
   else getitem result 0,
   sock).

(** Set a trough property *)
Definition set (prop : string) (value : value) (sock : socket)
  : result (list Py.value) * socket :=
  let cmd := "set : " ++ prop ++ " " ++ str value ++ line_end in
  let sock := send cmd sock in
  let (response, sock) := _readline sock in
  (result <- _parse_response response ;;
   result <- _map_str_to_number result ;;
   if negb (length result =? 0)%nat
   then Raise (TroughError (unexpected prop result))
   else Ok result,
   sock).

(** Update a 'control' value in the server *)
Definition ctrl (ctrl : string) (value : value) (sock : socket)
  : result (list Py.value) * socket :=
  let cmd := "ctrl : " ++ ctrl ++ " " ++ str value ++ line_end in
  let sock := send cmd sock in
  let (response, sock) := _readline sock in
  (result <- _parse_response response ;;
   result <- _map_str_to_number result ;;
   Ok result,
   sock).

(** *** class PollDataError *)

(** [__init__(self, msg, data)]: [Exception.__init__(msg)] comes first,
    then [self.data = data]. *)
Definition PollDataError_init (msg : string) (data : list call_result) : result exn :=
  _ <- Exception_init (OStr msg) ;; Ok (PollDataError msg data).

(** *** class PollData

    A callback is a [bool]: whether one was given.  Calling it appends
    the call to [called]. *)
Inductive callback_call :=
| DataCb (data : list call_result)
| ErrCb (msg : string) (data : list call_result).

Record PollData := {
  trough : socket;
  _interval : option Q;
  datacb : bool;
  errcb : bool;
  _event : bool;
  _error : bool;
  _quit : bool;
  called : list callback_call
}.

(** [PollData(trough, interval, datacb, errcb)] *)
Definition PollData_init (trough : socket) (interval : option Q) (datacb errcb : bool) : PollData :=
  {| trough := trough; _interval := interval; datacb := datacb; errcb := errcb;
     _event := false; _error := false; _quit := false; called := [] |}.

Definition with_trough (s : socket) (p : PollData) : PollData :=
  {| trough := s; _interval := _interval p; datacb := datacb p; errcb := errcb p;
     _event := _event p; _error := _error p; _quit := _quit p; called := called p |}.

Definition with_event (b : bool) (p : PollData) : PollData :=
  {| trough := trough p; _interval := _interval p; datacb := datacb p; errcb := errcb p;
     _event := b; _error := _error p; _quit := _quit p; called := called p |}.

Definition with_error (b : bool) (p : PollData) : PollData :=
  {| trough := trough p; _interval := _interval p; datacb := datacb p; errcb := errcb p;
     _event := _event p; _error := b; _quit := _quit p; called := called p |}.

Definition with_quit (b : bool) (p : PollData) : PollData :=
  {| trough := trough p; _interval := _interval p; datacb := datacb p; errcb := errcb p;
     _event := _event p; _error := _error p; _quit := b; called := called p |}.

Definition call_back (c : callback_call) (p : PollData) : PollData :=
  {| trough := trough p; _interval := _interval p; datacb := datacb p; errcb := errcb p;
     _event := _event p; _error := _error p; _quit := _quit p; called := (called p ++ [c])%list |}.

(** The [except TroughError as err] clause of [get_data]. *)
Definition get_data_except (data : list call_result) (e : exn)
  : result (list call_result) :=
  try_except (Raise e)
    (fun e =>
       match e with
       | TroughError msg =>
           Some (err <- PollDataError_init msg data ;; Raise err)
       | _ => None
       end).

(** [get_data]: one turn of the [while True] loop per unit of fuel. *)
Fixpoint get_data_go (fuel : nat) (data : list call_result) (sock : socket)
  : option (result (list call_result) * socket) :=
  match fuel with
  | O => None
  | S fuel =>
      let (r, sock) := call "GetData" [] sock in
      match r with
      | Raise e => Some (get_data_except data e, sock)
      | Ok vals =>
          let data := (data ++ [vals])%list in
          match subscript vals 0 with
          | Raise e => Some (get_data_except data e, sock)
          | Ok count =>
              if eq_zero count then Some (Ok data, sock)
              else get_data_go fuel data sock
          end
      end
  end.

(** Every turn but the last takes at least one [recv] result, so one turn
    more than there are results is enough. *)
Definition get_data (sock : socket) : option (result (list call_result) * socket) :=
  get_data_go (S (length (rx sock))) [] sock.

(** The attribute [errorcb], which no [PollData] object has. *)
Definition errorcb (p : PollData) : result bool := Raise AttributeError.

(** The first statement of the loop body of [run]: the poll cycle. *)
Definition poll (p : PollData) : option (result unit * PollData) :=
  if negb (_error p) then
    match get_data (trough p) with
    | None => None
    | Some (Ok data, sock) =>
        let p := with_trough sock p in
        Some (Ok tt, if datacb p then call_back (DataCb data) p else p)
    | Some (Raise (PollDataError msg data), sock) =>
        let p := with_error true (with_trough sock p) in
        if errcb p then
          match errorcb p with
          | Ok _ => Some (Ok tt, call_back (ErrCb msg data) p)
          | Raise e => Some (Raise e, p)
          end
        else Some (Ok tt, p)
    | Some (Raise e, sock) => Some (Raise e, with_trough sock p)
    end
  else Some (Ok tt, p).

(** [interval] property *)
Definition interval (p : PollData) : option Q := _interval p.

(** [interval] setter *)
Definition interval_setter (interval : option Q) (p : PollData) : result PollData :=
  shorter <- less interval (_interval p) ;;
  Ok (if shorter then with_event true p else p).

(** [error] property *)
Definition error (p : PollData) : bool := _error p.

(** [error] setter *)
Definition error_setter (value : bool) (p : PollData) : PollData :=
  with_event true (with_error value p).

(** [quit], up to its [join]: that one only holds the caller back until
    [run] has ended. *)
Definition quit (p : PollData) : PollData :=
  with_event true (with_quit true p).

(** *** The thread

    Where [run] stands: before the poll cycle, inside [_event.wait],
    after the [break], or ended by an exception nobody caught. *)
Inductive place :=
| AtPoll
| AtWait
| Returned
| Uncaught (e : exn).

Record thread := { self : PollData; at_ : place }.

(** How long [_event.wait(self.interval)] holds the thread when nothing
    else sets the event meanwhile. *)
Inductive waiting :=
| NoWait
| For (t : Q)
| Forever.

Definition wait (p : PollData) : waiting :=
  if _event p then NoWait
  else match interval p with
       | Some t => For t
       | None => Forever
       end.

(** One move of [run]: the poll cycle, or the return from the wait
    followed by the test of [_quit]. *)
Definition run_step (t : thread) : option thread :=
  match at_ t with
  | AtPoll =>
      match poll (self t) with
      | Some (Ok _, p) => Some {| self := p; at_ := AtWait |}
      | Some (Raise e, p) => Some {| self := p; at_ := Uncaught e |}
      | None => None
      end
  | AtWait =>
      match wait (self t) with
      | Forever => None
      | _ => Some {| self := self t; at_ := if _quit (self t) then Returned else AtPoll |}
      end
  | Returned => None
  | Uncaught _ => None
  end.

(** [run] on its own, with no other thread touching the object. *)
Fixpoint run (fuel : nat) (t : thread) : thread :=
  match fuel with
  | O => t
  | S fuel =>
      match run_step t with
      | Some t' => run fuel t'
      | None => t
      end
  end.

(** What the other threads can do to the object. *)
Inductive control :=
| SetInterval (interval : option Q)
| SetError (value : bool)
| Quit.

Definition control_step (c : control) (p : PollData) : PollData :=
  match c with
  | SetInterval v =>
      match interval_setter v p with
      | Ok p' => p'
      | Raise _ => p
      end
  | SetError v => error_setter v p
  | Quit => quit p
  end.

(** The object and its thread move by a move of [run] or by a control
    from another thread. *)
Inductive step : thread -> thread -> Prop :=
| step_run t t' :
    run_step t = Some t' -> step t t'
| step_control c t :
    step t {| self := control_step c (self t); at_ := at_ t |}.

Inductive steps : thread -> thread -> Prop :=
| steps_refl t : steps t t
| steps_step t t' t'' : step t t' -> steps t' t'' -> steps t t''.

(** *** The rest of the module *)

(** Indices to fields in the measurement data returned by 'GetData' *)
Definition uTStatus : Z := 0.
Definition uTVoltage : Z := 1.
Definition uTPressure : Z := 2.
Definition uTTension : Z := 3.
Definition uTArea : Z := 4.
Definition uTAreaPerChains : Z := 5.
Definition uTTemperature1 : Z := 6.
Definition uTTemperature2 : Z := 7.
Definition uTPotential : Z := 8.
Definition uTRadioactivity : Z := 9.
Definition uTAux1 : Z := 10.
Definition uTAux2 : Z := 11.
Definition uTAux3 : Z := 12.
Definition uTPosition : Z := 13.
Definition uTSpeed : Z := 14.
Definition uTCompressionRate : Z := 15.
Definition uTTime : Z := 16.
Definition uTDipPosition : Z := 17.
Definition uTDipSpeed : Z := 18.
Definition uTSteppingStatus : Z := 19.
Definition uTDeviceStatus : Z := 20.
Definition uTLastError : Z := 21.

(** [sock.recv(1024)]: the next element of [rx], or the empty byte
    string once the peer has closed. *)
Definition recv (sock : socket) : string * socket :=
  match rx sock with
  | [] => (EmptyString, sock)
  | rdata :: rest => (rdata, {| rx := rest; tx := tx sock |})
  end.

(** [connect(host, port)], from the connection [create_connection] has
    opened: one [recv] for the prologue, which is printed, and the
    connection is returned.  The result is the text printed and the
    connection. *)
Definition connect (sock : socket) : string * socket :=
  let (prologue, sock) := recv sock in
  (prologue, sock).

End Mtx.

(** ** The sample script ([sample_script.py]) *)

Module Script.
Import Py Mtx.

(** [int_ge_0(s)], the type of the port argument: the integer returned,
    the [ArgumentTypeError] raised with its message, or another
    exception let through. *)
Inductive port_arg :=
| Port (i : Z)
| ArgumentTypeError (msg : string)
| Propagated (e : exn).

Definition int_ge_0 (s : string) : port_arg :=
  match (i <- int s ;; if i <? 0 then Raise ValueError else Ok i) with
  | Ok i => Port i
  | Raise ValueError => ArgumentTypeError "Must be a non-negative integer"
  | Raise e => Propagated e
  end.

(** *** class TroughDataHelper

    [rows] is what [writer.writerow] was given, oldest first. *)
Record TroughDataHelper := {
  rows : list call_result;
  curr_data : option call_result;
  _time_offset : value
}.

Definition with_row (m : call_result) (h : TroughDataHelper) : TroughDataHelper :=
  {| rows := (rows h ++ [m])%list; curr_data := curr_data h;
     _time_offset := _time_offset h |}.

Definition with_curr_data (m : call_result) (h : TroughDataHelper) : TroughDataHelper :=
  {| rows := rows h; curr_data := Some m; _time_offset := _time_offset h |}.

(** [m[i] = v]: none of the objects [call] returns (a tuple, a text, a
    number, [None]) supports item assignment. *)
Definition setitem (m : call_result) (i : Z) (v : value) : result call_result :=
  Raise TypeError.

(** [count > 0] for a field value; a text does not compare with a
    number. *)
Definition gt_zero (v : value) : result bool :=
  match v with
  | VInt z => Ok (0 <? z)
  | VReal f => Ok (SFltb (S754_zero false) f)
  | VBool b => Ok b
  | VStr _ => Raise TypeError
  end.

Section NewData.

(** Python's [+] on two field values, whatever it returns or raises. *)
Variable add : value -> value -> result value.

(** [m[i] += x]: the item is read, the sum is made, the item is
    stored. *)
Definition iadd_item (m : call_result) (i : Z) (x : value) : result call_result :=
  v <- subscript m i ;; w <- add v x ;; setitem m i w.

(** The [for measurement in data] loop of [new_data]: the measurements
    as the loop leaves them, and the helper. *)
Fixpoint new_data_loop (h : TroughDataHelper) (data : list call_result)
  : result (list call_result) * TroughDataHelper :=
  match data with
  | [] => (Ok [], h)
  | measurement :: rest =>
      match iadd_item measurement uTTime (_time_offset h) with
      | Raise e => (Raise e, h)
      | Ok measurement =>
          match (count <- subscript measurement 0 ;; gt_zero count) with
          | Raise e => (Raise e, h)
          | Ok positive =>
              let h := if positive then with_row measurement h else h in
              match new_data_loop h rest with
              | (Ok rest, h) => (Ok (measurement :: rest), h)
              | (Raise e, h) => (Raise e, h)
              end
          end
      end
  end.

(** Callback from the PollData thread *)
Definition new_data (h : TroughDataHelper) (data : list call_result)
  : result unit * TroughDataHelper :=
  match new_data_loop h data with
  | (Raise e, h) => (Raise e, h)
  | (Ok data, h) =>
      match getitem data (-1) with
      | Ok last => (Ok tt, with_curr_data last h)
      | Raise e => (Raise e, h)
      end
  end.

End NewData.

End Script.

(** ** Vocabulary of the specification *)

Module Spec.
Import Py Mtx.

(** The pieces of a text between its blanks, empty ones included. *)
Fixpoint pieces (s : string) : list string :=
  match s with
  | EmptyString => [EmptyString]
  | String c r =>
      if isspace c then EmptyString :: pieces r
      else match pieces r with
           | w :: ws => String c w :: ws
           | [] => [String c EmptyString]
           end
  end.

(** Split on whitespace, empty tokens discarded. *)
Definition tokens (s : string) : list string :=
  List.filter (fun w => negb (String.eqb w EmptyString)) (pieces s).

(** The peer closes the connection before a line terminator is seen:
    [s] is what has been read so far, the list is what [recv] will
    return from now on. *)
Inductive closed_early : string -> list string -> Prop :=
| closed_at_end s :
    closed_early s []
| closed_by_empty_read s rest :
    closed_early s (EmptyString :: rest)
| closed_after_chunk s rdata rest :
    rdata <> EmptyString ->
    endswith line_end (s ++ rdata) = false ->
    closed_early (s ++ rdata) rest ->
    closed_early s (rdata :: rest).

(** The drains of a poll cycle that are followed by another one: each
    returns a sample whose field 0 is not 0.  From the first socket
    state they yield the samples, oldest first, and the last state. *)
Inductive backlog : socket -> list call_result -> socket -> Prop :=
| backlog_done sock :
    backlog sock [] sock
| backlog_more sock vals count sock1 batch sock2 :
    call "GetData" [] sock = (Ok vals, sock1) ->
    subscript vals 0 = Ok count ->
    eq_zero count = false ->
    backlog sock1 batch sock2 ->
    backlog sock (vals :: batch) sock2.

(** The controls that set the wake event on the object as it is. *)
Definition sets_event (c : control) (p : PollData) : Prop :=
  match c with
  | SetInterval v => less v (_interval p) = Ok true
  | SetError _ => True
  | Quit => True
  end.

(** Coercion in the order the specification gives: integer if the text
    parses as an integer, else real if it parses as a floating-point
    number, else boolean if it is "true" or "false" in any case, else
    the text. *)
Definition coerce (field : string) : value :=
  match int field with
  | Ok z => VInt z
  | Raise _ =>
      match float_of_string field with
      | Ok f => VReal f
      | Raise _ =>
          if String.eqb (lower field) "true" then VBool true
          else if String.eqb (lower field) "false" then VBool false
          else VStr field
      end
  end.

Definition upper_char (c : ascii) : ascii :=
  if (97 <=? code c) && (code c <=? 122)
  then ascii_of_N (Z.to_N (code c - 32)) else c.

(** The spellings of a text in every mix of upper and lower case. *)
Fixpoint casings (s : string) : list string :=
  match s with
  | EmptyString => [EmptyString]
  | String c r =>
      flat_map (fun w => [String c w; String (upper_char c) w]) (casings r)
  end.

(** What is left once the text is no number: a boolean if it is "true"
    or "false" in any case, else the text. *)
Definition after_ValueError (s : string) : value :=
  if String.eqb (lower s) "true" then VBool true
  else if String.eqb (lower s) "false" then VBool false
  else VStr s.

(** The value of a run of decimal digits read after [acc]. *)
Fixpoint uint_value (d : Decimal.uint) (acc : Z) : Z :=
  match d with
  | Decimal.Nil => acc
  | Decimal.D0 r => uint_value r (10 * acc + 0)
  | Decimal.D1 r => uint_value r (10 * acc + 1)
  | Decimal.D2 r => uint_value r (10 * acc + 2)
  | Decimal.D3 r => uint_value r (10 * acc + 3)
  | Decimal.D4 r => uint_value r (10 * acc + 4)
  | Decimal.D5 r => uint_value r (10 * acc + 5)
  | Decimal.D6 r => uint_value r (10 * acc + 6)
  | Decimal.D7 r => uint_value r (10 * acc + 7)
  | Decimal.D8 r => uint_value r (10 * acc + 8)
  | Decimal.D9 r => uint_value r (10 * acc + 9)
  end.

(** A text without blanks. *)
Definition no_blank (a : string) : Prop :=
  forall c, isblank c = true -> contains c a = false.

(** A token: a text that is not empty and has no blank in it. *)
Definition token (w : string) : Prop :=
  w <> EmptyString /\ forall c, isspace c = true -> contains c w = false.

(** The texts of a list, one after the other. *)
Fixpoint joined (l : list string) : string :=
  match l with
  | [] => EmptyString
  | x :: r => x ++ joined r
  end.

(** The line each operation sends. *)
Definition call_line (method : string) (args : list value) : string :=
  "call : " ++ join " " (method :: map str args) ++ line_end.

Definition get_line (prop : string) : string := "get : " ++ prop ++ line_end.

Definition set_line (prop : string) (v : value) : string :=
  "set : " ++ prop ++ " " ++ str v ++ line_end.

Definition ctrl_line (name : string) (v : value) : string :=
  "ctrl : " ++ name ++ " " ++ str v ++ line_end.

(** [token], as a test. *)
Definition is_token (w : string) : bool :=
  negb (String.eqb w EmptyString)
  && forallb (fun c => negb (isspace c)) (list_ascii_of_string w).

(** A response that is not a success: no colon in it, or a text before
    the first colon that does not start with OK. *)
Definition not_OK (line : string) : Prop :=
  contains ":" line = false
  \/ exists ok body,
       line = ok ++ ":" ++ body /\ contains ":" ok = false
       /\ forall r, ok <> "OK" ++ r.

(** A [recv] result that is a whole line: not empty, and ending with the
    line terminator. *)
Definition whole_line (l : string) : Prop :=
  l <> EmptyString /\ endswith line_end l = true.

(** Several [call]s one after the other: their outcomes in order, and
    the connection after the last. *)
Fixpoint call_each (requests : list (string * list value)) (sock : socket)
  : list (result call_result) * socket :=
  match requests with
  | [] => ([], sock)
  | (method, args) :: rest =>
      let (r, sock) := call method args sock in
      let (rs, sock) := call_each rest sock in
      (r :: rs, sock)
  end.

(** What [call] makes of a response line. *)
Definition answer (method : string) (line : string) : result call_result :=
  raw <- _parse_response (Some line) ;;
  fields <- _map_str_to_number raw ;;
  Ok (shape method fields).

(** *** Rounding to binary64, over the rationals

    What [float] and [repr] compute is stated over [Q]: the fraction
    [p / q], the decimal [c * 10 ^ sc], the binade a positive number lies
    in, and the binary64 number nearest to it. *)

(** The integer nearest to [n / d], the even one on a tie. *)
Definition nearest_even (n d : Z) : Z :=
  let a := n / d in
  match 2 * (n mod d) ?= d with
  | Lt => a
  | Eq => if Z.even a then a else a + 1
  | Gt => a + 1
  end.

(** A mantissa and an exponent as a number: zero, finite, or infinite
    once the exponent is out of range. *)
Definition pack (neg : bool) (m e : Z) : float :=
  match m with
  | Z0 => S754_zero neg
  | Zpos m => if e <=? emax - prec then S754_finite neg m e else S754_infinity neg
  | Zneg _ => S754_nan
  end.

Definition ratio (p q : Z) : Q := (inject_Z p / inject_Z q)%Q.

Definition rnd (y : Q) : Z := nearest_even (Qnum y) (Z.pos (Qden y)).

(** [2 ^ (g - 1) <= y < 2 ^ g] *)
Definition binade (y : Q) (g : Z) : Prop := (2 ^ (g - 1) <= y < 2 ^ g)%Q.

(** [y] rounded to a multiple of [2 ^ e]; a mantissa that reaches
    [2 ^ 53] moves to the next exponent. *)
Definition round_at (neg : bool) (y : Q) (e : Z) : float :=
  let m := rnd (y / 2 ^ e) in
  if m =? 2 ^ prec then pack neg (2 ^ (prec - 1)) (e + 1) else pack neg m e.

(** The shift record of [n / d]: its integer part, whether the rest is
    at least a half, and whether something is left besides. *)
Definition rec_of (n d : Z) : shr_record :=
  {| shr_m := n / d;
     shr_r := d <=? 2 * (n mod d);
     shr_s := negb (n mod d =? 0) && negb (2 * (n mod d) =? d) |}.

Definition decimal (c sc : Z) : Q := (inject_Z c * 10 ^ sc)%Q.

(** *** Digit strings and rendered numbers *)

Fixpoint forall_chars (f : ascii -> bool) (s : string) : bool :=
  match s with
  | EmptyString => true
  | String c r => f c && forall_chars f r
  end.

Definition all_digits (s : string) : bool := forall_chars isdigit s.

(** The value of a run of digits read after [acc]. *)
Fixpoint dval_go (s : string) (acc : Z) : Z :=
  match s with
  | EmptyString => acc
  | String c r => dval_go r (10 * acc + (code c - 48))
  end.

Definition dval (s : string) : Z := dval_go s 0.

Definition sign_text (neg : bool) : string := if neg then "-" else "".

(** How [repr_finite] lays out the decimal [c * 10 ^ sc] it has found. *)
Definition render (c sc : Z) : string :=
  let all := digits c in
  let decpt := Z.of_nat (String.length all) + sc in
  let ds := rstrip_zeros all in
  let nd := Z.of_nat (String.length ds) in
  if (decpt <=? -4) || (16 <? decpt) then
    let ex := decpt - 1 in
    let exs := digits (Z.abs ex) in
    let frac := String.substring 1 (String.length ds - 1) ds in
    String.substring 0 1 ds
      ++ (if String.eqb frac "" then "" else "." ++ frac)
      ++ "e" ++ (if ex <? 0 then "-" else "+")
      ++ (if Z.abs ex <? 10 then "0" else "") ++ exs
  else if decpt <=? 0 then
    "0." ++ zeros (Z.to_nat (- decpt)) ++ ds
  else if nd <=? decpt then
    ds ++ zeros (Z.to_nat (decpt - nd)) ++ ".0"
  else
    String.substring 0 (Z.to_nat decpt) ds ++ "."
      ++ String.substring (Z.to_nat decpt) (Z.to_nat (nd - decpt)) ds.

(** The characters of a mantissa, and of a rendered number. *)
Definition mantchar (c : ascii) : bool := isdigit c || Ascii.eqb c ".".

Definition numchar (c : ascii) : bool :=
  mantchar c || Ascii.eqb c "e" || Ascii.eqb c "+" || Ascii.eqb c "-".

Definition starts_digit (s : string) : bool :=
  match s with
  | String d _ => isdigit d
  | EmptyString => false
  end.

End Spec.

Import Py Mtx Spec.

(** Closed goals are settled by evaluation. *)
Ltac evaluate := vm_compute; reflexivity.

Ltac push_inject H :=
  repeat (rewrite inject_Z_plus in H || rewrite inject_Z_mult in H
          || rewrite inject_Z_opp in H).

(** Goes through the characters a hypothesis lists. *)
Ltac each_char H :=
  simpl in H;
  repeat (destruct H as [H|H]; [subst; try reflexivity; try discriminate|]);
  try contradiction.

(** ** Indexing *)

Section Getitem.
Context {A : Type}.
Implicit Types (l : list A) (i : Z).

Lemma getitem_front l i :
  0 <= i < Z.of_nat (length l) ->
  exists x, getitem l i = Ok x /\ l !! Z.to_nat i = Some x.
Proof.
  intros Hi. unfold getitem.
  destruct (Z.ltb_spec i 0) as [Hn|_]; [lia|].
  destruct (Z.leb_spec 0 i) as [_|Hn]; [|lia].
  destruct (Z.ltb_spec i (Z.of_nat (length l))) as [_|Hn]; [|lia].
  simpl. destruct (l !! Z.to_nat i) as [x|] eqn:Hx; [eauto|].
  apply lookup_ge_None in Hx. lia.
Qed.

Lemma getitem_back l i :
  - Z.of_nat (length l) <= i < 0 ->
  getitem l i = getitem l (i + Z.of_nat (length l)).
Proof.
  intros Hi. unfold getitem.
  destruct (Z.ltb_spec i 0) as [_|Hn]; [|lia].
  destruct (Z.ltb_spec (i + Z.of_nat (length l)) 0) as [Hn|_]; [lia|].
  reflexivity.
Qed.

Lemma getitem_outside l i :
  Z.of_nat (length l) <= i \/ i < - Z.of_nat (length l) ->
  getitem l i = Raise IndexError.
Proof.
  intros Hi. unfold getitem.
  destruct (Z.ltb_spec i 0) as [Hn|Hn].
  - destruct (Z.leb_spec 0 (i + Z.of_nat (length l))) as [Hp|_]; [lia|reflexivity].
  - destruct (Z.ltb_spec i (Z.of_nat (length l))) as [Hp|_]; [lia|].
    now rewrite andb_false_r.
Qed.
End Getitem.

(** ** [dst_to_str] *)

Lemma dst_to_str_outside (i : Z) :
  9 <= i \/ i <= -10 ->
  dst_to_str i = Ok ("Invalid device status value: " ++ str_int i).
Proof.
  intros Hi. unfold dst_to_str.
  rewrite getitem_outside by (simpl; lia). reflexivity.
Qed.

Lemma dst_to_str_inside (i : Z) :
  -9 <= i <= 8 ->
  exists s, dst_to_str i = Ok s /\ s ∈ dst_strs
            /\ s <> "Invalid device status value: " ++ str_int i.
Proof.
  intros Hi.
  assert (i = -9 \/ i = -8 \/ i = -7 \/ i = -6 \/ i = -5 \/ i = -4 \/ i = -3
          \/ i = -2 \/ i = -1 \/ i = 0 \/ i = 1 \/ i = 2 \/ i = 3 \/ i = 4
          \/ i = 5 \/ i = 6 \/ i = 7 \/ i = 8) as Hc by lia.
  clear Hi.
  repeat (destruct Hc as [->|Hc]); try subst i;
    (eexists; split; [evaluate|];
     split; [unfold dst_strs; set_solver | vm_compute; discriminate]).
Qed.

(** C10.  [dst_to_str i] is the diagnostic text exactly when [9 <= i] or
    [i <= -10]; for [-9 <= i <= -1] it is one of the nine status names,
    the one counted from the end of the list. *)
Theorem dst_to_str_fallback (i : Z) :
  (dst_to_str i = Ok ("Invalid device status value: " ++ str_int i)
   <-> 9 <= i \/ i <= -10)
  /\ (-9 <= i <= -1 ->
      exists s, dst_to_str i = Ok s /\ s ∈ dst_strs
                /\ dst_strs !! Z.to_nat (i + 9) = Some s).
Proof.
  split.
  - split; [|apply dst_to_str_outside].
    intros Hf. destruct (Z_le_gt_dec 9 i); [lia|].
    destruct (Z_le_gt_dec i (-10)); [lia|].
    destruct (dst_to_str_inside i) as (s & Hs & _ & Hne); [lia|].
    congruence.
  - intros Hi.
    destruct (dst_to_str_inside i) as (s & Hs & Hin & _); [lia|].
    exists s. split; [assumption|]. split; [assumption|].
    unfold dst_to_str in Hs. rewrite getitem_back in Hs by (simpl; lia).
    destruct (getitem_front dst_strs (i + 9)) as (x & Hx & Hl); [simpl; lia|].
    simpl length in Hs. change (Z.of_nat 9) with 9 in Hs.
    rewrite Hx in Hs. simpl in Hs. congruence.
Qed.

Lemma dst_to_str_fallback_witness :
  -9 <= -1 <= -1
  /\ exists s, dst_to_str (-1) = Ok s /\ s ∈ dst_strs
               /\ dst_strs !! Z.to_nat (-1 + 9) = Some s.
Proof.
  split; [lia|]. apply (proj2 (dst_to_str_fallback (-1))). lia.
Defined.

(** ** Text primitives *)

Lemma split1_None (c : ascii) (s : string) :
  split1 c s = None <-> contains c s = false.
Proof.
  induction s as [|d r IH]; simpl; [tauto|].
  rewrite (Ascii.eqb_sym c d).
  destruct (Ascii.eqb d c); simpl; [split; discriminate|].
  destruct (split1 c r) as [[a b]|].
  - split; [discriminate|]. intros H. apply IH in H. discriminate.
  - split; [|reflexivity]. intros _. now apply IH.
Qed.

Lemma split1_Some (c : ascii) (s a b : string) :
  split1 c s = Some (a, b) <-> s = a ++ String c b /\ contains c a = false.
Proof.
  revert a. induction s as [|d r IH]; intros a; simpl.
  - split; [discriminate|]. intros [H _]. destruct a; discriminate.
  - destruct (Ascii.eqb_spec d c) as [->|Hne].
    + split.
      * intros [= <- <-]. now split.
      * intros [H Hc]. destruct a as [|x a]; simpl in *.
        -- now injection H as ->.
        -- injection H as <- _. rewrite Ascii.eqb_refl in Hc. discriminate.
    + destruct (split1 c r) as [[a' b']|].
      * split.
        -- intros [= <- <-]. destruct (proj1 (IH a') eq_refl) as [-> Hc]. simpl.
           split; [reflexivity|].
           destruct (Ascii.eqb_spec c d); [congruence|assumption].
        -- intros [H Hc]. destruct a as [|x a]; simpl in *.
           ++ injection H as -> _. congruence.
           ++ injection H as <- H. apply orb_false_iff in Hc as [_ Hc].
              pose proof (proj2 (IH a) (conj H Hc)) as Hs'. congruence.
      * split; [discriminate|].
        intros [H Hc]. destruct a as [|x a]; simpl in *.
        -- injection H as -> _. congruence.
        -- injection H as <- H. apply orb_false_iff in Hc as [_ Hc].
           pose proof (proj2 (IH a) (conj H Hc)) as Hs'. discriminate.
Qed.

Lemma startswith_OK (s : string) :
  startswith "OK" s = true <-> exists r, s = "OK" ++ r.
Proof.
  unfold startswith. rewrite prefix_correct. split.
  - destruct s as [|a [|b r]]; simpl; try discriminate.
    intros H. injection H as -> -> _. now exists r.
  - intros [r ->]. simpl. now destruct r.
Qed.

Lemma pieces_nonempty (s : string) : pieces s <> [].
Proof.
  induction s as [|c r IH]; simpl; [discriminate|].
  destruct (isspace c); [discriminate|].
  destruct (pieces r); [discriminate|discriminate].
Qed.

Lemma append_cons (c : ascii) (a b : string) : String c a ++ b = String c (a ++ b).
Proof. reflexivity. Qed.

Lemma append_empty_l (s : string) : "" ++ s = s.
Proof. reflexivity. Qed.

Lemma append_empty_r (s : string) : s ++ "" = s.
Proof. induction s as [|c s IH]; [reflexivity|]. now rewrite append_cons, IH. Qed.

Lemma append_assoc (a b c : string) : (a ++ b) ++ c = a ++ (b ++ c).
Proof.
  induction a as [|x a IH]; [reflexivity|]. now rewrite !append_cons, IH.
Qed.

Lemma length_append (a b : string) :
  String.length (a ++ b) = (String.length a + String.length b)%nat.
Proof.
  induction a as [|x a IH]; [reflexivity|].
  rewrite append_cons. simpl. now rewrite IH.
Qed.

Lemma substring_all (p : string) : String.substring 0 (String.length p) p = p.
Proof. induction p as [|x p IH]; simpl; congruence. Qed.

Lemma substring_skip (a p : string) :
  String.substring (String.length a) (String.length p) (a ++ p) = p.
Proof.
  induction a as [|x a IH]; [apply substring_all|].
  rewrite append_cons. simpl. exact IH.
Qed.

Lemma split_go_pieces (s : string) :
  split_go None s = tokens s
  /\ forall w, split_go (Some w) s =
       match pieces s with
       | p :: ps =>
           (w ++ p) :: List.filter (fun w => negb (String.eqb w "")) ps
       | [] => []
       end.
Proof.
  unfold tokens. induction s as [|c r [IHn IHs]]; simpl.
  - split; [reflexivity|]. intros w. now rewrite append_empty_r.
  - destruct (isspace c); simpl.
    + split; [assumption|]. intros w. now rewrite append_empty_r, IHn.
    + pose proof (pieces_nonempty r) as Hne.
      destruct (pieces r) as [|p ps]; [congruence|]. simpl. split.
      * now rewrite IHs.
      * intros w. now rewrite IHs, append_assoc.
Qed.

(** [str.split(None)] gives the non-empty pieces between blanks. *)
Lemma split_tokens (s : string) : split s = tokens s.
Proof. apply split_go_pieces. Qed.

(** ** [_parse_response] *)

(** C5.  A line with no colon, or whose text before the first colon does
    not start with OK, fails with [TroughError] carrying the line itself;
    every other line gives the whitespace-separated tokens of the text
    after the first colon, in order. *)
Theorem parse_response_spec (line : string) :
  (contains ":" line = false ->
   _parse_response (Some line) = Raise (TroughError line))
  /\ (forall ok body,
        line = ok ++ ":" ++ body -> contains ":" ok = false ->
        ((exists r, ok = "OK" ++ r) ->
         _parse_response (Some line) = Ok (tokens body))
        /\ ((forall r, ok <> "OK" ++ r) ->
            _parse_response (Some line) = Raise (TroughError line)))
  /\ (contains ":" line = false
      \/ exists ok body, line = ok ++ ":" ++ body /\ contains ":" ok = false).
Proof.
  split; [|split].
  - intros Hc. unfold _parse_response.
    apply split1_None in Hc. now rewrite Hc.
  - intros ok body Hl Hc.
    assert (split1 ":" line = Some (ok, body)) as Hs by (apply split1_Some; now split).
    unfold _parse_response. rewrite Hs. split.
    + intros Hok. apply startswith_OK in Hok. rewrite Hok. simpl.
      now rewrite split_tokens.
    + intros Hno. destruct (startswith "OK" ok) eqn:Hok; [|reflexivity].
      apply startswith_OK in Hok as [r ->]. now destruct (Hno r).
  - destruct (split1 ":" line) as [[ok body]|] eqn:Hs.
    + right. exists ok, body. now apply split1_Some.
    + left. now apply split1_None.
Qed.

Lemma parse_response_spec_witness :
  (exists r, "OK" = "OK" ++ r)
  /\ _parse_response (Some "OK: 2  1 ") = Ok (tokens " 2  1 ").
Proof.
  split; [now exists ""|].
  apply (proj1 (proj2 (parse_response_spec "OK: 2  1 ")) "OK" " 2  1 ");
    [reflexivity|reflexivity|now exists ""].
Defined.

(** ** [_readline] *)

Lemma readline_after_send (data : string) (sock : socket) :
  fst (_readline (send data sock)) = fst (_readline sock).
Proof.
  unfold _readline, send. simpl. now destruct (_readline_go (rx sock) "").
Qed.

Lemma readline_go_closed (s : string) (chunks : list string) :
  closed_early s chunks -> fst (_readline_go chunks s) = None.
Proof.
  induction 1 as [s|s rest|s rdata rest Hne Hend _ IH]; simpl; try reflexivity.
  destruct rdata as [|c r]; [congruence|]. simpl.
  now rewrite Hend.
Qed.

Lemma readline_go_None (s : string) (chunks : list string) :
  fst (_readline_go chunks s) = None -> closed_early s chunks.
Proof.
  revert s. induction chunks as [|rdata rest IH]; intros s; simpl.
  - constructor.
  - destruct rdata as [|c r]; [constructor|]. simpl.
    destruct (endswith line_end (s ++ String c r)) eqn:Hend; [discriminate|].
    intros H. apply closed_after_chunk; [discriminate|assumption|now apply IH].
Qed.

(** [_readline] returns [None] exactly when the peer closes the
    connection before a line terminator is seen. *)
Lemma readline_None_iff (sock : socket) :
  fst (_readline sock) = None <-> closed_early "" (rx sock).
Proof.
  unfold _readline.
  destruct (_readline_go (rx sock) "") as [r rest] eqn:Hr. simpl.
  split.
  - intros ->. apply readline_go_None. now rewrite Hr.
  - intros H. apply readline_go_closed in H. now rewrite Hr in H.
Qed.

(** ** [call], [get], [set], [ctrl] *)

(** C7 as stated does not hold: after an empty read the caller gets an
    [AttributeError], not a [ConnectionError]. *)
Lemma empty_read_not_ConnectionError :
  ~ (forall method args sock,
       fst (_readline sock) = None ->
       fst (call method args sock) = Raise ConnectionError).
Proof.
  intros H.
  specialize (H "GetData" [] {| rx := []; tx := [] |} eq_refl).
  assert (fst (call "GetData" [] {| rx := []; tx := [] |}) = Raise AttributeError)
    as H1 by evaluate.
  rewrite H1 in H. discriminate H.
Qed.

(** C7, amended.  When the peer closes the connection before a line
    terminator is seen, [_readline] returns [None], and each of the four
    operations hands it to [_parse_response], where it ends in an
    [AttributeError] that goes to the caller of the operation. *)
Theorem empty_read_AttributeError (sock : socket) :
  closed_early "" (rx sock) ->
  fst (_readline sock) = None
  /\ (forall method args, fst (call method args sock) = Raise AttributeError)
  /\ (forall prop, fst (get prop sock) = Raise AttributeError)
  /\ (forall prop value, fst (set prop value sock) = Raise AttributeError)
  /\ (forall name value, fst (ctrl name value sock) = Raise AttributeError).
Proof.
  intros Hc. apply readline_None_iff in Hc.
  split; [assumption|].
  repeat split; intros; unfold call, get, set, ctrl;
    match goal with
    | |- context [_readline (send ?d sock)] =>
        pose proof (readline_after_send d sock) as Hs;
        destruct (_readline (send d sock)) as [r s'];
        simpl in Hs; rewrite Hc in Hs; subst r; reflexivity
    end.
Qed.

Lemma empty_read_AttributeError_witness :
  closed_early "" ["OK: 1 2"; ""]
  /\ fst (call "GetData" [] {| rx := ["OK: 1 2"; ""]; tx := [] |})
     = Raise AttributeError.
Proof.
  assert (closed_early "" ["OK: 1 2"; ""]) as Hc.
  { apply closed_after_chunk; [discriminate|reflexivity|constructor]. }
  split; [exact Hc|].
  apply (proj1 (proj2 (empty_read_AttributeError
                         {| rx := ["OK: 1 2"; ""]; tx := [] |} Hc))).
Defined.

(** [_map_str_to_number] never raises: [str_to_number] handles what
    [int] and [float] and the dictionary can raise. *)
Lemma str_to_number_total (s : string) : exists v, str_to_number s = Ok v.
Proof.
  unfold str_to_number.
  destruct (contains "." s).
  - destruct (float_of_string s) as [f|e] eqn:Hf; simpl; [eauto|].
    assert (e = ValueError) as ->.
    { unfold float_of_string in Hf.
      destruct (sign_part (strip s)) as [neg r].
      repeat match type of Hf with
             | (if ?c then _ else _) = _ => destruct c; try discriminate
             | (let (_, _) := ?x in _) = _ => destruct x
             | match ?x with _ => _ end = _ => destruct x; try discriminate
             end; congruence. }
    simpl. destruct (bools !! lower s); simpl; eauto.
  - destruct (int s) as [z|e] eqn:Hz; simpl; [eauto|].
    assert (e = ValueError) as ->.
    { unfold int in Hz. destruct (sign_part (strip s)) as [neg r].
      destruct (digitpart r) as [[v k]|]; congruence. }
    simpl. destruct (bools !! lower s); simpl; eauto.
Qed.

Lemma map_str_to_number_total (l : list string) :
  exists vs, _map_str_to_number l = Ok vs /\ length vs = length l.
Proof.
  unfold _map_str_to_number.
  induction l as [|s l (vs & IH & Hlen)]; simpl; [now exists []|].
  destruct (str_to_number_total s) as [v ->]. simpl. rewrite IH. simpl.
  exists (v :: vs). simpl. now rewrite Hlen.
Qed.

(** C3.  On a successful response with coerced fields [fields], [call]
    returns all of them for [GetData] and [DeviceIdentification];
    for any other method it returns [None] for no field, the field for
    one, the second field for two, and all but the first for more. *)
Theorem call_result_shape (method : string) (args : list value)
    (sock : socket) (fields : list value) :
  let sent :=
    send ("call : " ++ join " " (method :: map str args) ++ line_end) sock in
  bind (_parse_response (fst (_readline sent))) _map_str_to_number = Ok fields ->
  ((method = "GetData" \/ method = "DeviceIdentification") ->
   fst (call method args sock) = Ok (RTuple fields))
  /\ (method <> "GetData" -> method <> "DeviceIdentification" ->
      (length fields = 0%nat -> fst (call method args sock) = Ok RNone)
      /\ (length fields = 1%nat ->
          exists v, fields !! 0%nat = Some v
                    /\ fst (call method args sock) = Ok (RScalar v))
      /\ (length fields = 2%nat ->
          exists v, fields !! 1%nat = Some v
                    /\ fst (call method args sock) = Ok (RScalar v))
      /\ ((2 < length fields)%nat ->
          fst (call method args sock) = Ok (RTuple (drop 1 fields)))).
Proof.
  intros sent Hf.
  assert (fst (call method args sock) = Ok (shape method fields)) as Hcall.
  { unfold call. fold sent. destruct (_readline sent) as [response s']. simpl in *.
    destruct (_parse_response response) as [raw|e]; simpl in *; [|discriminate].
    rewrite Hf. reflexivity. }
  rewrite Hcall. unfold shape. split.
  - intros [-> | ->]; reflexivity.
  - intros H1 H2.
    apply String.eqb_neq in H1, H2. rewrite H1, H2.
    repeat split.
    + destruct fields; [reflexivity|discriminate].
    + destruct fields as [|v [|]]; try discriminate. intros _. now exists v.
    + destruct fields as [|s [|v [|]]]; try discriminate. intros _. now exists v.
    + destruct fields as [|s [|v [|w rest]]]; simpl; try lia. reflexivity.
Qed.

Lemma call_result_shape_witness :
  bind (_parse_response
          (fst (_readline (send ("call : " ++ join " " ("Foo" :: map str [])
                                   ++ line_end)
                             {| rx := ["OK: 5 9" ++ line_end]; tx := [] |}))))
       _map_str_to_number = Ok [VInt 5; VInt 9]
  /\ exists v, [VInt 5; VInt 9] !! 1%nat = Some v
       /\ fst (call "Foo" [] {| rx := ["OK: 5 9" ++ line_end]; tx := [] |})
          = Ok (RScalar v).
Proof.
  assert (bind (_parse_response
          (fst (_readline (send ("call : " ++ join " " ("Foo" :: map str [])
                                   ++ line_end)
                             {| rx := ["OK: 5 9" ++ line_end]; tx := [] |}))))
       _map_str_to_number = Ok [VInt 5; VInt 9]) as H by (vm_compute; reflexivity).
  split; [exact H|].
  apply (proj1 (proj2 (proj2
           (proj2 (call_result_shape "Foo" []
                     {| rx := ["OK: 5 9" ++ line_end]; tx := [] |}
                     [VInt 5; VInt 9] H)
              ltac:(discriminate) ltac:(discriminate))))).
  reflexivity.
Defined.

(** The examples of the specification. *)
Example call_GetData_keeps_status :
  fst (call "GetData" [] {| rx := ["OK: 2 1 2 3" ++ line_end]; tx := [] |})
  = Ok (RTuple [VInt 2; VInt 1; VInt 2; VInt 3]).
Proof. evaluate. Qed.

Example call_Foo_examples :
  fst (call "Foo" [] {| rx := ["OK: 5 9" ++ line_end]; tx := [] |}) = Ok (RScalar (VInt 9))
  /\ fst (call "Foo" [] {| rx := ["OK:" ++ line_end]; tx := [] |}) = Ok RNone
  /\ fst (call "Foo" [] {| rx := ["OK: 1 2 3 4" ++ line_end]; tx := [] |})
     = Ok (RTuple [VInt 2; VInt 3; VInt 4]).
Proof. vm_compute. repeat split. Qed.

(** ** [PollData]: the controls *)

Lemma interval_setter_keeps (new : option Q) (p p' : PollData) :
  interval_setter new p = Ok p' ->
  interval p' = interval p
  /\ _event p' = (_event p || match less new (_interval p) with
                              | Ok b => b
                              | Raise _ => false
                              end).
Proof.
  unfold interval_setter.
  destruct (less new (_interval p)) as [[|]|e]; simpl; intros [= <-];
    simpl; split; try reflexivity;
    destruct (_event p); reflexivity.
Qed.

(** C2.  The [interval] setter never stores the new value: whatever is
    assigned, the poller keeps the interval it was built with.  Built
    with 1 second and assigned half a second, it still holds 1 second
    (and the event is set). *)
Theorem interval_setter_does_not_store :
  (forall new p p', interval_setter new p = Ok p' -> interval p' = interval p)
  /\ (let p := PollData_init {| rx := []; tx := [] |} (Some 1%Q) true true in
      exists p', interval_setter (Some (1 # 2)%Q) p = Ok p'
                 /\ interval p' = Some 1%Q
                 /\ interval p' <> Some (1 # 2)%Q
                 /\ _event p' = true).
Proof.
  split.
  - intros new p p' H. now apply interval_setter_keeps in H.
  - eexists. split; [evaluate|].
    repeat split. discriminate.
Qed.

Lemma interval_setter_does_not_store_witness :
  interval_setter (Some (3 # 1)%Q)
    (PollData_init {| rx := []; tx := [] |} (Some 1%Q) true true)
  = Ok (PollData_init {| rx := []; tx := [] |} (Some 1%Q) true true)
  /\ interval (PollData_init {| rx := []; tx := [] |} (Some 1%Q) true true)
     = interval (PollData_init {| rx := []; tx := [] |} (Some 1%Q) true true).
Proof.
  assert (interval_setter (Some (3 # 1)%Q)
            (PollData_init {| rx := []; tx := [] |} (Some 1%Q) true true)
          = Ok (PollData_init {| rx := []; tx := [] |} (Some 1%Q) true true)) as H
    by (vm_compute; reflexivity).
  split; [exact H|].
  exact (proj1 interval_setter_does_not_store _ _ _ H).
Defined.

(** The wake-up part of the setter is as documented: a strictly shorter
    value sets the event, any other leaves it as it was. *)
Lemma interval_setter_wakes (new old : Q) (p p' : PollData) :
  _interval p = Some old ->
  interval_setter (Some new) p = Ok p' ->
  (new < old -> _event p' = true)%Q
  /\ (old <= new -> _event p' = _event p)%Q.
Proof.
  intros Ho Hs. apply interval_setter_keeps in Hs as [_ He].
  rewrite Ho in He. simpl in He. split; intros Hlt.
  - rewrite He. destruct (Qle_bool old new) eqn:Hle.
    + apply Qle_bool_iff in Hle. exfalso. now apply (Qlt_not_le new old).
    + now rewrite orb_true_r.
  - rewrite He. apply Qle_bool_iff in Hlt. rewrite Hlt. simpl.
    now rewrite orb_false_r.
Qed.

(** ** [PollData]: the wake event *)

Lemma control_keeps_event (c : control) (p : PollData) :
  _event p = true -> _event (control_step c p) = true.
Proof.
  destruct c as [v| |]; simpl; try reflexivity.
  intros He. destruct (interval_setter v p) as [p'|e] eqn:Hs; [|assumption].
  apply interval_setter_keeps in Hs as [_ ->]. now rewrite He.
Qed.

Lemma control_sets_event (c : control) (p : PollData) :
  sets_event c p -> _event (control_step c p) = true.
Proof.
  destruct c as [v| |]; simpl; try reflexivity.
  intros Hl. unfold interval_setter. rewrite Hl. reflexivity.
Qed.

Lemma poll_keeps_event (p p' : PollData) (r : result unit) :
  poll p = Some (r, p') -> _event p' = _event p.
Proof.
  unfold poll. destruct (negb (_error p)); [|now intros [= _ <-]].
  destruct (get_data (trough p)) as [[[data|e] sock]|]; [| |discriminate].
  - intros [= _ <-]. simpl. now destruct (datacb p).
  - destruct e; try (now intros [= _ <-]).
    simpl. destruct (errcb p); now intros [= _ <-].
Qed.

Lemma run_step_keeps_event (t t' : thread) :
  run_step t = Some t' -> _event (self t') = _event (self t).
Proof.
  unfold run_step. destruct (at_ t).
  - destruct (poll (self t)) as [[[u|e] p]|] eqn:Hp; [| |discriminate];
      intros [= <-]; simpl; now apply poll_keeps_event in Hp.
  - destruct (wait (self t)); [| |discriminate]; now intros [= <-].
  - discriminate.
  - discriminate.
Qed.

Lemma step_keeps_event (t t' : thread) :
  step t t' -> _event (self t) = true -> _event (self t') = true.
Proof.
  intros [t1 t2 Hr|c t1] He.
  - apply run_step_keeps_event in Hr. congruence.
  - simpl. now apply control_keeps_event.
Qed.

(** Nothing clears the event: once set it stays set, whatever the thread
    and the controls do. *)
Lemma event_stays_set (t t' : thread) :
  steps t t' -> _event (self t) = true -> _event (self t') = true.
Proof.
  induction 1 as [t|t t1 t2 Hs _ IH]; [trivial|].
  intros He. apply IH. now apply (step_keeps_event t).
Qed.

(** C9.  After a control that sets the wake event (an interval
    assignment with a shorter value, any assignment to the error flag, a
    shutdown request) the event is set in every later state, so every
    later wait returns at once, whatever the interval. *)
Theorem event_never_reset (c : control) (t t' : thread) :
  sets_event c (self t) ->
  steps {| self := control_step c (self t); at_ := at_ t |} t' ->
  _event (self t') = true /\ wait (self t') = NoWait.
Proof.
  intros Hc Hs.
  assert (_event (self t') = true) as He.
  { apply (event_stays_set _ _ Hs). simpl. now apply control_sets_event. }
  split; [assumption|]. unfold wait. now rewrite He.
Qed.

Lemma event_never_reset_witness :
  let p := PollData_init {| rx := []; tx := [] |} (Some 1%Q) true true in
  let t := {| self := p; at_ := AtWait |} in
  let t' := {| self := with_event true p; at_ := AtPoll |} in
  sets_event (SetInterval (Some (1 # 2)%Q)) (self t)
  /\ steps {| self := control_step (SetInterval (Some (1 # 2)%Q)) (self t);
              at_ := at_ t |} t'
  /\ _event (self t') = true /\ wait (self t') = NoWait.
Proof.
  intros p t t'.
  assert (sets_event (SetInterval (Some (1 # 2)%Q)) (self t)) as Hc
    by (vm_compute; reflexivity).
  assert (steps {| self := control_step (SetInterval (Some (1 # 2)%Q)) (self t);
                   at_ := at_ t |} t') as Hs.
  { eapply steps_step; [apply step_run; vm_compute; reflexivity|apply steps_refl]. }
  split; [exact Hc|]. split; [exact Hs|].
  exact (event_never_reset _ t t' Hc Hs).
Defined.

(** ** [PollData]: the poll cycle *)

Lemma readline_go_length (chunks : list string) (s : string) :
  (length (snd (_readline_go chunks s)) <= length chunks)%nat
  /\ (forall l, fst (_readline_go chunks s) = Some l ->
        (length (snd (_readline_go chunks s)) < length chunks)%nat).
Proof.
  revert s. induction chunks as [|rdata rest IH]; intros s; simpl.
  - split; [lia|discriminate].
  - destruct (String.length rdata =? 0)%nat; simpl; [split; [lia|discriminate]|].
    destruct (endswith line_end (s ++ rdata)); simpl; [split; [lia|intros; lia]|].
    destruct (IH (s ++ rdata)) as [H1 H2]. split; [lia|].
    intros l Hl. specialize (H2 l Hl). lia.
Qed.

(** A call that succeeds has taken at least one [recv] result. *)
Lemma call_Ok_consumes (method : string) args (sock sock1 : socket) vals :
  call method args sock = (Ok vals, sock1) ->
  (length (rx sock1) < length (rx sock))%nat.
Proof.
  unfold call, _readline, send. simpl.
  pose proof (readline_go_length (rx sock) "") as [_ H].
  destruct (_readline_go (rx sock) "") as [[l|] rest]; simpl in *.
  - intros [= _ <-]. simpl. now apply (H l).
  - discriminate.
Qed.

Lemma backlog_consumes (sock sock2 : socket) (batch : list call_result) :
  backlog sock batch sock2 ->
  (length batch + length (rx sock2) <= length (rx sock))%nat.
Proof.
  induction 1 as [sock|sock vals count sock1 batch sock2 Hc _ _ _ IH]; simpl; [lia|].
  apply call_Ok_consumes in Hc. lia.
Qed.

Lemma get_data_go_backlog (sock sock2 : socket) (batch : list call_result) :
  backlog sock batch sock2 ->
  forall fuel data,
    get_data_go (length batch + fuel) data sock
    = get_data_go fuel (data ++ batch)%list sock2.
Proof.
  induction 1 as [sock|sock vals count sock1 batch sock2 Hc Hs Hz _ IH];
    intros fuel data; simpl.
  - now rewrite app_nil_r.
  - rewrite Hc, Hs, Hz, IH. now rewrite <- app_assoc.
Qed.

Lemma get_data_backlog (sock sock2 : socket) (batch : list call_result) :
  backlog sock batch sock2 ->
  exists fuel, get_data sock = get_data_go (S fuel) batch sock2.
Proof.
  intros Hb. pose proof (backlog_consumes _ _ _ Hb) as Hl.
  exists (length (rx sock) - length batch)%nat.
  unfold get_data.
  replace (S (length (rx sock)))
    with (length batch + S (length (rx sock) - length batch))%nat by lia.
  now rewrite (get_data_go_backlog _ _ _ Hb).
Qed.

(** What a poll cycle does: it drains as long as field 0 of the sample
    differs from 0, and at the first sample whose field 0 equals 0 it
    returns all the samples, oldest first. *)
Lemma get_data_batch (sock sock1 sock2 : socket) batch vals count :
  backlog sock batch sock1 ->
  call "GetData" [] sock1 = (Ok vals, sock2) ->
  subscript vals 0 = Ok count ->
  eq_zero count = true ->
  get_data sock = Some (Ok (batch ++ [vals])%list, sock2).
Proof.
  intros Hb Hc Hs Hz. destruct (get_data_backlog _ _ _ Hb) as [fuel ->].
  simpl. now rewrite Hc, Hs, Hz.
Qed.

(** A drain that fails with a protocol error ends the cycle with a
    [TypeError]: building the [PollDataError] is what fails. *)
Lemma get_data_failure (sock sock1 sock2 : socket) batch msg :
  backlog sock batch sock1 ->
  call "GetData" [] sock1 = (Raise (TroughError msg), sock2) ->
  get_data sock = Some (Raise TypeError, sock2).
Proof.
  intros Hb Hc. destruct (get_data_backlog _ _ _ Hb) as [fuel ->].
  simpl. now rewrite Hc.
Qed.



(** What the parts of a drain can raise. *)
Lemma call_raises (method : string) args (sock sock1 : socket) (e : exn) :
  call method args sock = (Raise e, sock1) ->
  e = AttributeError \/ exists msg, e = TroughError msg.
Proof.
  unfold call. destruct (_readline _) as [response s'].
  intros [= H _]. revert H.
  destruct response as [line|]; simpl; [|intros [= <-]; now left].
  destruct (split1 ":" line) as [[ok body]|]; [|intros [= <-]; eauto].
  destruct (negb (startswith "OK" ok)); simpl; [intros [= <-]; eauto|].
  destruct (map_str_to_number_total (split body)) as (vs & -> & _).
  discriminate.
Qed.

Lemma getitem_raises {A} (l : list A) (i : Z) (e : exn) :
  getitem l i = Raise e -> e = IndexError.
Proof.
  unfold getitem. destruct (_ && _); [|congruence].
  destruct (l !! _); congruence.
Qed.

Lemma subscript_raises (r : call_result) (i : Z) (e : exn) :
  subscript r i = Raise e -> e = IndexError \/ e = TypeError.
Proof.
  destruct r as [|[z|f|b|s]|vs]; simpl; try (intros [= <-]; now right).
  - destruct (getitem (list_ascii_of_string s) i) eqn:Hg; simpl; [discriminate|].
    intros [= <-]. left. now apply getitem_raises in Hg.
  - intros Hg. left. now apply getitem_raises in Hg.
Qed.

(** No poll cycle raises [PollDataError]: the class cannot be
    instantiated. *)
Lemma get_data_go_no_PollDataError fuel data sock r sock' :
  get_data_go fuel data sock = Some (r, sock') ->
  forall msg d, r <> Raise (PollDataError msg d).
Proof.
  revert data sock. induction fuel as [|fuel IH]; intros data sock; [discriminate|].
  simpl.
  destruct (call "GetData" [] sock) as [[vals|e] sock1] eqn:Hc.
  - destruct (subscript vals 0) as [count|e] eqn:Hs.
    + destruct (eq_zero count); [intros [= <- _]; discriminate|apply IH].
    + intros [= <- _].
      apply subscript_raises in Hs as [-> | ->]; discriminate.
  - intros [= <- _].
    apply call_raises in Hc as [-> | [m ->]]; discriminate.
Qed.

(** A poll cycle leaves the error flag as it was and calls at most the
    data callback: the error callback is never reached. *)
Lemma poll_never_reports (p p' : PollData) (r : result unit) :
  poll p = Some (r, p') ->
  _error p' = _error p
  /\ (called p' = called p
      \/ exists data, called p' = (called p ++ [DataCb data])%list).
Proof.
  unfold poll. destruct (negb (_error p)); [|intros [= _ <-]; auto].
  destruct (get_data (trough p)) as [[[data|e] sock]|] eqn:Hg; [| |discriminate].
  - intros [= _ <-]. destruct (datacb p); simpl; eauto.
  - destruct e; try (intros [= _ <-]; simpl; now auto).
    exfalso. unfold get_data in Hg.
    now apply (get_data_go_no_PollDataError _ _ _ _ _ Hg msg data).
Qed.

(** Once the error flag is set the cycle is skipped, and assigning a
    false value to [error] lets it run again (and sets the event). *)
Lemma latched_poller_skips (p : PollData) :
  _error p = true ->
  poll p = Some (Ok tt, p)
  /\ _error (error_setter false p) = false
  /\ _event (error_setter false p) = true.
Proof. intros He. unfold poll. rewrite He. repeat split. Qed.

(** C1.  A poll cycle in which a drain fails with a protocol error does
    not latch and does not report: [run] ends there with a [TypeError]
    nobody catches, the error flag is still clear and no callback has
    been called. *)
Theorem drain_failure_ends_thread (p : PollData) (batch : list call_result)
    (sock1 sock2 : socket) (msg : string) :
  _error p = false ->
  backlog (trough p) batch sock1 ->
  call "GetData" [] sock1 = (Raise (TroughError msg), sock2) ->
  let ended := {| self := with_trough sock2 p; at_ := Uncaught TypeError |} in
  (forall fuel, run (S fuel) {| self := p; at_ := AtPoll |} = ended)
  /\ _error (self ended) = false
  /\ called (self ended) = called p.
Proof.
  intros He Hb Hc ended.
  assert (run_step {| self := p; at_ := AtPoll |} = Some ended) as Hr.
  { unfold run_step, poll. simpl. rewrite He. simpl.
    now rewrite (get_data_failure _ _ _ _ _ Hb Hc). }
  split; [|split; [exact He|reflexivity]].
  intros fuel. simpl. rewrite Hr. now destruct fuel.
Qed.

Lemma drain_failure_ends_thread_witness :
  let sock := {| rx := ["OK: 2 7.5" ++ line_end; "ERR: busy" ++ line_end]; tx := [] |} in
  let sock1 := {| rx := ["ERR: busy" ++ line_end]; tx := ["call : GetData" ++ line_end] |} in
  let sock2 := {| rx := []; tx := ["call : GetData" ++ line_end; "call : GetData" ++ line_end] |} in
  let p := PollData_init sock (Some (1 # 4)%Q) true true in
  backlog (trough p) [RTuple [VInt 2; VReal (S754_finite false 8444249301319680 (-50))]] sock1
  /\ call "GetData" [] sock1 = (Raise (TroughError ("ERR: busy" ++ line_end)), sock2)
  /\ (forall fuel,
        run (S fuel) {| self := p; at_ := AtPoll |}
        = {| self := with_trough sock2 p; at_ := Uncaught TypeError |})
  /\ _error (with_trough sock2 p) = false
  /\ called (with_trough sock2 p) = [].
Proof.
  intros sock sock1 sock2 p.
  assert (backlog (trough p)
            [RTuple [VInt 2; VReal (S754_finite false 8444249301319680 (-50))]] sock1) as Hb.
  { eapply backlog_more;
      [vm_compute; reflexivity|vm_compute; reflexivity|reflexivity|apply backlog_done]. }
  assert (call "GetData" [] sock1
          = (Raise (TroughError ("ERR: busy" ++ line_end)), sock2)) as Hc
    by (vm_compute; reflexivity).
  split; [exact Hb|]. split; [exact Hc|].
  exact (drain_failure_ends_thread p _ sock1 sock2 _ eq_refl Hb Hc).
Defined.

(** The successive pending counts 2, 1, 0: one call of the data
    callback, with the three samples, oldest first. *)
Example poll_cycle_2_1_0 :
  let sock := {| rx := ["OK: 2 10" ++ line_end; "OK: 1 11" ++ line_end;
                        "OK: 0 12" ++ line_end];
                 tx := [] |} in
  let p := PollData_init sock (Some (1 # 4)%Q) true true in
  exists p',
    run_step {| self := p; at_ := AtPoll |} = Some {| self := p'; at_ := AtWait |}
    /\ called p' = [DataCb [RTuple [VInt 2; VInt 10]; RTuple [VInt 1; VInt 11];
                            RTuple [VInt 0; VInt 12]]]
    /\ _error p' = false.
Proof. eexists. split; [evaluate|]. split; reflexivity. Qed.

(** C4.  The cycle goes on after a sample whose pending count is
    negative: the test is [count == 0], so only 0 stops it.  With the
    counts -1, 0 the data callback gets both samples and the error flag
    stays clear. *)
Theorem drain_continues_on_negative_count :
  (forall fuel data sock vals sock1 z,
     call "GetData" [] sock = (Ok vals, sock1) ->
     subscript vals 0 = Ok (VInt z) ->
     z < 0 ->
     get_data_go (S fuel) data sock = get_data_go fuel (data ++ [vals])%list sock1)
  /\ (let sock := {| rx := ["OK: -1 10" ++ line_end; "OK: 0 11" ++ line_end];
                     tx := [] |} in
      let p := PollData_init sock (Some (1 # 4)%Q) true true in
      exists p',
        run_step {| self := p; at_ := AtPoll |} = Some {| self := p'; at_ := AtWait |}
        /\ called p' = [DataCb [RTuple [VInt (-1); VInt 10]; RTuple [VInt 0; VInt 11]]]
        /\ _error p' = false).
Proof.
  split.
  - intros fuel data sock vals sock1 z Hc Hs Hz. simpl. rewrite Hc, Hs. simpl.
    destruct (Z.eqb_spec z 0); [lia|reflexivity].
  - eexists. split; [evaluate|]. split; reflexivity.
Qed.

Lemma drain_continues_on_negative_count_witness :
  let sock := {| rx := ["OK: -1 10" ++ line_end; "OK: 0 11" ++ line_end]; tx := [] |} in
  let sock1 := {| rx := ["OK: 0 11" ++ line_end]; tx := ["call : GetData" ++ line_end] |} in
  call "GetData" [] sock = (Ok (RTuple [VInt (-1); VInt 10]), sock1)
  /\ subscript (RTuple [VInt (-1); VInt 10]) 0 = Ok (VInt (-1))
  /\ -1 < 0
  /\ get_data_go 2 [] sock = get_data_go 1 [RTuple [VInt (-1); VInt 10]] sock1.
Proof.
  intros sock sock1.
  assert (call "GetData" [] sock = (Ok (RTuple [VInt (-1); VInt 10]), sock1)) as Hc
    by (vm_compute; reflexivity).
  split; [exact Hc|]. split; [reflexivity|]. split; [lia|].
  exact (proj1 drain_continues_on_negative_count 1%nat [] sock _ sock1 (-1)
           Hc eq_refl ltac:(lia)).
Defined.

(** ** [str_to_number] *)

Lemma lower_char_cases (c : ascii) :
  c = lower_char c \/ c = upper_char (lower_char c).
Proof.
  destruct c as [[] [] [] [] [] [] [] []]; vm_compute; auto.
Qed.

Lemma lower_casings (s t : string) : lower s = t -> In s (casings t).
Proof.
  revert t. induction s as [|c r IH]; intros t <-; simpl; [now left|].
  apply in_flat_map. exists r. split; [now apply IH|].
  destruct (lower_char_cases c) as [H|H]; rewrite <- H; simpl; auto.
Qed.

Lemma bools_lookup (k : string) :
  bools !! k = if String.eqb k "true" then Some true
               else if String.eqb k "false" then Some false
               else None.
Proof.
  unfold bools. rewrite lookup_insert.
  destruct (String.eqb_spec k "true") as [->|Ht].
  - now rewrite decide_True.
  - rewrite decide_False by congruence. rewrite lookup_insert.
    destruct (String.eqb_spec k "false") as [->|Hf].
    + now rewrite decide_True.
    + rewrite decide_False by congruence. apply lookup_empty.
Qed.

Lemma float_raises (s : string) (e : exn) :
  float_of_string s = Raise e -> e = ValueError.
Proof.
  unfold float_of_string. destruct (sign_part (strip s)) as [neg r].
  destruct (_ || _); [discriminate|].
  destruct (String.eqb _ _); [discriminate|].
  destruct (split_exponent r) as [mant ex].
  destruct (number mant) as [[m k]|]; [|congruence].
  destruct ex as [x|]; [|discriminate].
  destruct (exponent x); [discriminate|congruence].
Qed.

Lemma int_raises (s : string) (e : exn) : int s = Raise e -> e = ValueError.
Proof.
  unfold int. destruct (sign_part (strip s)) as [neg r].
  destruct (digitpart r) as [[v k]|]; congruence.
Qed.

Lemma str_to_number_eq (s : string) :
  str_to_number s =
  Ok (if contains "." s
      then match float_of_string s with
           | Ok f => VReal f
           | Raise _ => after_ValueError s
           end
      else match int s with
           | Ok z => VInt z
           | Raise _ => after_ValueError s
           end).
Proof.
  unfold str_to_number, after_ValueError.
  destruct (contains "." s).
  - destruct (float_of_string s) as [f|e] eqn:Hf; simpl; [reflexivity|].
    apply float_raises in Hf as ->. simpl. rewrite bools_lookup.
    destruct (String.eqb (lower s) "true"); [reflexivity|].
    destruct (String.eqb (lower s) "false"); reflexivity.
  - destruct (int s) as [z|e] eqn:Hz; simpl; [reflexivity|].
    apply int_raises in Hz as ->. simpl. rewrite bools_lookup.
    destruct (String.eqb (lower s) "true"); [reflexivity|].
    destruct (String.eqb (lower s) "false"); reflexivity.
Qed.

Lemma str_to_number_casings_true :
  Forall (fun s => str_to_number s = Ok (VBool true)) (casings "true").
Proof. repeat constructor. Qed.

Lemma str_to_number_casings_false :
  Forall (fun s => str_to_number s = Ok (VBool false)) (casings "false").
Proof. repeat constructor. Qed.

(** C6 as stated does not hold: "1e5" parses as a floating-point number
    and not as an integer, yet it stays text. *)
Lemma coerce_order_differs :
  ~ (forall field, str_to_number field = Ok (coerce field)).
Proof.
  intros H. specialize (H "1e5").
  assert (str_to_number "1e5" = Ok (VStr "1e5")) as H1 by evaluate.
  assert (coerce "1e5" = VReal (S754_finite false 6871947673600000 (-36))) as H2
    by evaluate.
  rewrite H1, H2 in H. discriminate H.
Qed.

(** C6, amended.  Coercion never fails.  A text with a "." becomes a
    real if it parses as a floating-point number; a text without "."
    becomes an integer if it parses as a signed decimal integer; failing
    that, "true" and "false" in any case become booleans; anything else
    stays the text it was.  So "1" is the integer 1, "3.0" the real 3.0,
    and "abc" stays "abc". *)
Theorem str_to_number_spec (s : string) :
  (exists v, str_to_number s = Ok v)
  /\ (contains "." s = true ->
      forall f, float_of_string s = Ok f -> str_to_number s = Ok (VReal f))
  /\ (contains "." s = false ->
      forall z, int s = Ok z -> str_to_number s = Ok (VInt z))
  /\ (lower s = "true" -> str_to_number s = Ok (VBool true))
  /\ (lower s = "false" -> str_to_number s = Ok (VBool false))
  /\ ((contains "." s = true /\ float_of_string s = Raise ValueError)
      \/ (contains "." s = false /\ int s = Raise ValueError) ->
      lower s <> "true" -> lower s <> "false" ->
      str_to_number s = Ok (VStr s))
  /\ str_to_number "1" = Ok (VInt 1)
  /\ str_to_number "3.0" = Ok (VReal (S754_finite false 6755399441055744 (-51)))
  /\ str_to_number "abc" = Ok (VStr "abc").
Proof.
  split; [apply str_to_number_total|].
  split; [intros Hd f Hf; now rewrite str_to_number_eq, Hd, Hf|].
  split; [intros Hd z Hz; now rewrite str_to_number_eq, Hd, Hz|].
  split.
  { intros Hl. apply lower_casings in Hl.
    exact (proj1 (List.Forall_forall _ _) str_to_number_casings_true s Hl). }
  split.
  { intros Hl. apply lower_casings in Hl.
    exact (proj1 (List.Forall_forall _ _) str_to_number_casings_false s Hl). }
  split.
  { intros Hn Ht Hf. rewrite str_to_number_eq. unfold after_ValueError.
    apply String.eqb_neq in Ht, Hf. rewrite Ht, Hf.
    destruct Hn as [[-> ->]|[-> ->]]; reflexivity. }
  repeat split.
Qed.

Lemma str_to_number_spec_witness :
  lower "tRuE" = "true" /\ str_to_number "tRuE" = Ok (VBool true).
Proof.
  split; [reflexivity|].
  apply (proj1 (proj2 (proj2 (proj2 (str_to_number_spec "tRuE"))))).
  reflexivity.
Defined.

(** ** Text without blanks, and runs of digits *)

Lemma contains_append (c : ascii) (a b : string) :
  contains c (a ++ b) = contains c a || contains c b.
Proof.
  induction a as [|x a IH]; [reflexivity|].
  rewrite append_cons. simpl. now rewrite IH, orb_assoc.
Qed.

Lemma contains_rev_app (c : ascii) (a b : string) :
  contains c (String.rev_app a b) = contains c a || contains c b.
Proof.
  revert b. induction a as [|x a IH]; intros b; simpl; [reflexivity|].
  rewrite IH. simpl. destruct (Ascii.eqb c x), (contains c a); reflexivity.
Qed.

Lemma contains_rev (c : ascii) (a : string) :
  contains c (String.rev a) = contains c a.
Proof. unfold String.rev. rewrite contains_rev_app. simpl. apply orb_false_r. Qed.

Lemma rev_app_rev_app (a b c : string) :
  String.rev_app (String.rev_app a b) c = String.rev_app b (a ++ c).
Proof.
  revert b c. induction a as [|x a IH]; intros b c; simpl; [reflexivity|].
  now rewrite IH.
Qed.

Lemma rev_rev (a : string) : String.rev (String.rev a) = a.
Proof.
  unfold String.rev. rewrite rev_app_rev_app. simpl. apply append_empty_r.
Qed.

Lemma contains_lstrip (c : ascii) (a : string) :
  isblank c = false -> contains c (lstrip a) = contains c a.
Proof.
  intros Hc. induction a as [|x a IH]; simpl; [reflexivity|].
  destruct (isblank x) eqn:Hx; [|reflexivity].
  rewrite IH. destruct (Ascii.eqb_spec c x) as [->|]; [congruence|reflexivity].
Qed.

Lemma contains_strip (c : ascii) (a : string) :
  isblank c = false -> contains c (strip a) = contains c a.
Proof.
  intros Hc. unfold strip.
  now rewrite contains_rev, contains_lstrip, contains_rev, contains_lstrip.
Qed.

Lemma lstrip_no_blank (a : string) : no_blank a -> lstrip a = a.
Proof.
  intros Ha. destruct a as [|x a]; simpl; [reflexivity|].
  destruct (isblank x) eqn:Hx; [|reflexivity].
  specialize (Ha x Hx). simpl in Ha. now rewrite Ascii.eqb_refl in Ha.
Qed.

(** A text without blanks is its own [strip]. *)
Lemma strip_no_blank (a : string) : no_blank a -> strip a = a.
Proof.
  intros Ha. unfold strip. rewrite (lstrip_no_blank a Ha).
  rewrite lstrip_no_blank; [apply rev_rev|].
  intros c Hc. rewrite contains_rev. now apply Ha.
Qed.

Lemma isblank_not_digit (c : ascii) : isblank c = true -> isdigit c = false.
Proof.
  unfold isblank, isdigit. intros H.
  destruct (Z.leb_spec 48 (code c)); [|reflexivity]. simpl.
  apply orb_true_iff in H as [H|H].
  - apply andb_true_iff in H as [_ H]. apply Z.leb_le in H. lia.
  - apply Z.eqb_eq in H. lia.
Qed.

Lemma contains_uint (c : ascii) (d : Decimal.uint) :
  isdigit c = false -> contains c (NilEmpty.string_of_uint d) = false.
Proof.
  intros Hc. induction d; simpl; try reflexivity; rewrite IHd;
    match goal with
    | |- Ascii.eqb c ?k || false = false =>
        destruct (Ascii.eqb_spec c k) as [->|]; [discriminate Hc|reflexivity]
    end.
Qed.

Lemma digitpart_go_uint (d : Decimal.uint) (acc n : Z) :
  exists k, digitpart_go (NilEmpty.string_of_uint d) acc n true
            = Some (uint_value d acc, k).
Proof.
  revert acc n. induction d; intros acc n; simpl; [eauto|..];
    change (code _ - 48) with 0 || change (code _ - 48) with 1
    || change (code _ - 48) with 2 || change (code _ - 48) with 3
    || change (code _ - 48) with 4 || change (code _ - 48) with 5
    || change (code _ - 48) with 6 || change (code _ - 48) with 7
    || change (code _ - 48) with 8 || change (code _ - 48) with 9;
    apply IHd.
Qed.

Lemma digitpart_uint (d : Decimal.uint) :
  d <> Decimal.Nil ->
  exists k, digitpart (NilEmpty.string_of_uint d) = Some (uint_value d 0, k).
Proof.
  unfold digitpart. destruct d; [congruence|..]; intros _; simpl;
    apply digitpart_go_uint.
Qed.

Lemma uint_value_acc (d : Decimal.uint) (acc : Z) :
  uint_value d acc
  = acc * 10 ^ Z.of_N (DecimalPos.Unsigned.usize d) + uint_value d 0.
Proof.
  revert acc. induction d; intros acc; simpl DecimalPos.Unsigned.usize;
    [simpl; lia|..];
    simpl uint_value; rewrite IHd, (IHd (10 * 0 + _));
    rewrite N2Z.inj_succ, Z.pow_succ_r by lia; ring.
Qed.

Lemma uint_value_of_uint (d : Decimal.uint) :
  uint_value d 0 = Z.of_N (Pos.of_uint d).
Proof.
  induction d;
    [reflexivity|
     simpl uint_value; rewrite uint_value_acc, IHd;
     rewrite (DecimalPos.Unsigned.of_uint_alt (_ d)); unfold Decimal.rev;
     simpl Decimal.revapp;
     rewrite DecimalPos.Unsigned.of_lu_revapp,
       <- DecimalPos.Unsigned.of_uint_alt;
     simpl DecimalPos.Unsigned.of_lu;
     rewrite N2Z.inj_add, N2Z.inj_mul, N2Z.inj_pow; simpl Z.of_N; lia ..].
Qed.

Lemma digitpart_to_uint (p : positive) :
  exists k, digitpart (NilEmpty.string_of_uint (Pos.to_uint p)) = Some (Z.pos p, k).
Proof.
  destruct (digitpart_uint (Pos.to_uint p)) as [k Hk].
  { apply DecimalPos.Unsigned.to_uint_nonnil. }
  exists k. rewrite Hk, uint_value_of_uint, DecimalPos.Unsigned.of_to.
  reflexivity.
Qed.

Lemma no_blank_uint (d : Decimal.uint) : no_blank (NilEmpty.string_of_uint d).
Proof. intros c Hc. apply contains_uint. now apply isblank_not_digit. Qed.

Lemma sign_part_uint (d : Decimal.uint) :
  sign_part (NilEmpty.string_of_uint d) = (false, NilEmpty.string_of_uint d).
Proof. destruct d; reflexivity. Qed.

(** [int(str(z))] is [z], and [str(z)] has no ".". *)
Lemma int_str_int (z : Z) :
  int (str_int z) = Ok z /\ contains "." (str_int z) = false.
Proof.
  unfold str_int, int. destruct z as [|p|p]; simpl Z.to_int; simpl NilEmpty.string_of_int.
  - split; reflexivity.
  - split; [|now apply contains_uint].
    rewrite strip_no_blank by apply no_blank_uint.
    rewrite sign_part_uint.
    destruct (digitpart_to_uint p) as [k ->]. reflexivity.
  - split; [|simpl; now rewrite contains_uint].
    rewrite strip_no_blank.
    + simpl. destruct (digitpart_to_uint p) as [k ->]. reflexivity.
    + intros c Hc. simpl. rewrite no_blank_uint by assumption.
      destruct (Ascii.eqb_spec c "-") as [->|]; [discriminate Hc|reflexivity].
Qed.

(** ** Rendering a value and coercing it again *)

Lemma digitpart_go_letter (c : ascii) (r : string) (acc n : Z) (b : bool) :
  isdigit c = false -> c <> "_"%char -> contains c r = true ->
  digitpart_go r acc n b = None.
Proof.
  intros Hd Hu. revert acc n b.
  induction r as [|x r IH]; intros acc n b; simpl; [discriminate|].
  destruct (Ascii.eqb_spec c x) as [<-|Hne]; simpl.
  - intros _. rewrite Hd.
    destruct (Ascii.eqb_spec c "_"); [congruence|reflexivity].
  - intros Hc. destruct (isdigit x); [now apply IH|].
    destruct (Ascii.eqb x "_" && b); [now apply IH|reflexivity].
Qed.

(** [int] rejects a text with an "e" in it. *)
Lemma int_with_e (s : string) : contains "e" s = true -> int s = Raise ValueError.
Proof.
  intros Hc. unfold int.
  assert (contains "e" (strip s) = true) as Hs
    by now rewrite contains_strip.
  assert (contains "e" (snd (sign_part (strip s))) = true) as Hr.
  { destruct (strip s) as [|x r]; [discriminate|]. unfold sign_part.
    destruct (Ascii.eqb_spec x "-") as [->|]; [exact Hs|].
    destruct (Ascii.eqb_spec x "+") as [->|]; [exact Hs|exact Hs]. }
  destruct (sign_part (strip s)) as [neg r]. simpl in Hr.
  unfold digitpart. rewrite (digitpart_go_letter "e" r); [reflexivity| | |assumption];
    [reflexivity|discriminate].
Qed.

Lemma contains_lower (c : ascii) (s : string) :
  lower_char c = c -> contains c s = true -> contains c (lower s) = true.
Proof.
  intros Hc. induction s as [|x s IH]; simpl; [trivial|].
  destruct (Ascii.eqb_spec c x) as [<-|_]; simpl.
  - intros _. now rewrite Hc, Ascii.eqb_refl.
  - intros H. rewrite IH by assumption. apply orb_true_r.
Qed.

(** A text in exponent form without "." stays text. *)
Lemma exponent_form_is_text (s : string) :
  contains "." s = false ->
  contains "e" s = true ->
  contains "+" s = true \/ contains "-" s = true ->
  str_to_number s = Ok (VStr s).
Proof.
  intros Hd He Hs. rewrite str_to_number_eq, Hd, (int_with_e s He).
  unfold after_ValueError.
  assert (lower s <> "true" /\ lower s <> "false") as [Ht Hf].
  { destruct Hs as [Hs|Hs];
      apply contains_lower in Hs; try reflexivity;
      split; intros Hl; rewrite Hl in Hs; discriminate. }
  apply String.eqb_neq in Ht, Hf. now rewrite Ht, Hf.
Qed.

(** The rendering of a finite number has a "." in it, or is in exponent
    form with a signed exponent. *)
Lemma repr_finite_form (m : positive) (e : Z) :
  contains "." (repr_finite m e) = true
  \/ (contains "e" (repr_finite m e) = true
      /\ (contains "+" (repr_finite m e) = true
          \/ contains "-" (repr_finite m e) = true)).
Proof.
  unfold repr_finite.
  destruct (shortest _ _ _ _ _ _) as [c sc].
  destruct (_ || _).
  - destruct (String.eqb _ "").
    + right. split.
      * rewrite !contains_append. simpl. now rewrite !orb_true_r.
      * destruct (_ <? 0); [right|left]; rewrite !contains_append; simpl;
          now rewrite !orb_true_r.
    + left. rewrite !contains_append. simpl. now rewrite !orb_true_r.
  - destruct (_ <=? 0).
    + left. now rewrite contains_append.
    + destruct (_ <=? _); left; rewrite !contains_append; simpl;
        now rewrite !orb_true_r.
Qed.

(** A real whose rendering has no "." comes back as text. *)
Lemma dotless_float_is_text (f : float) :
  contains "." (str_float f) = false ->
  str_to_number (str_float f) = Ok (VStr (str_float f)).
Proof.
  destruct f as [sg|sg| |sg m e].
  1: destruct sg; intros H; vm_compute in H; discriminate H.
  1: destruct sg; intros _; evaluate.
  1: intros _; evaluate.
  change (str_float (S754_finite sg m e))
    with ((if sg then "-" else "") ++ repr_finite m e).
  generalize (repr_finite_form m e). generalize (repr_finite m e) as r.
  intros r Hr Hd. rewrite contains_append in Hd.
  apply orb_false_iff in Hd as [Hg Hd].
  destruct Hr as [H|[He Hs]]; [congruence|].
  apply exponent_form_is_text.
  - now rewrite contains_append, Hd, Hg.
  - rewrite contains_append, He. apply orb_true_r.
  - destruct Hs as [Hs|Hs]; [left|right];
      rewrite contains_append, Hs; apply orb_true_r.
Qed.

Lemma str_to_number_VStr (s t : string) :
  str_to_number s = Ok (VStr t) -> t = s.
Proof.
  rewrite str_to_number_eq. unfold after_ValueError.
  destruct (contains "." s).
  - destruct (float_of_string s); [discriminate|].
    destruct (String.eqb _ _); [discriminate|].
    destruct (String.eqb _ _); [discriminate|]. now intros [= ->].
  - destruct (int s); [discriminate|].
    destruct (String.eqb _ _); [discriminate|].
    destruct (String.eqb _ _); [discriminate|]. now intros [= ->].
Qed.

(** ** The binary64 number nearest to a fraction

    [of_ratio] is the division of the runtime, [SFdiv_core_binary]
    followed by [binary_round_aux].  What it returns is the number
    nearest to the fraction, the even one on a tie: the fraction is
    located in its binade, scaled to the exponent of that binade and
    rounded to an integer mantissa. *)

Lemma digits2_pos_size (p : positive) : digits2_pos p = Pos.size p.
Proof. induction p; simpl; congruence. Qed.

Lemma Zdigits2_bounds (m : Z) :
  0 < m -> 2 ^ (Zdigits2 m - 1) <= m < 2 ^ Zdigits2 m.
Proof.
  destruct m as [|p|p]; try lia. intros _. simpl Zdigits2.
  rewrite digits2_pos_size.
  pose proof (Pos.size_gt p) as Hg. pose proof (Pos.size_le p) as Hl.
  split.
  - assert (2 ^ Z.pos (Pos.size p) <= 2 * Z.pos p) as H.
    { change (2 * Z.pos p) with (Z.pos (p~0)).
      rewrite <- Pos2Z.inj_pow. now apply Pos2Z.pos_le_pos. }
    replace (Z.pos (Pos.size p)) with (Z.succ (Z.pos (Pos.size p) - 1)) in H by lia.
    rewrite Z.pow_succ_r in H by lia. lia.
  - change 2 with (Z.pos 2). rewrite <- Pos2Z.inj_pow. now apply Pos2Z.pos_lt_pos.
Qed.

Lemma pow2_lt_inv (a b : Z) : 0 <= b -> 2 ^ a < 2 ^ b -> a < b.
Proof. intros Hb H. apply (Z.pow_lt_mono_r_iff 2); lia. Qed.

Lemma Zdigits2_unique (m d : Z) :
  0 < m -> 2 ^ (d - 1) <= m < 2 ^ d -> Zdigits2 m = d.
Proof.
  intros Hm [Hl Hu]. pose proof (Zdigits2_bounds m Hm) as [Hl' Hu'].
  assert (0 < Zdigits2 m) by (destruct m; simpl; lia).
  assert (0 < d).
  { destruct (Z.ltb_spec 0 d); [assumption|].
    destruct (Z.eqb_spec d 0) as [->|]; [simpl in Hu; lia|].
    rewrite Z.pow_neg_r in Hu by lia. lia. }
  assert (d - 1 < Zdigits2 m) by (apply pow2_lt_inv; lia).
  assert (Zdigits2 m - 1 < d) by (apply pow2_lt_inv; lia).
  lia.
Qed.

Lemma shr_1_eq (m : Z) (r s : bool) :
  0 <= m ->
  shr_1 {| shr_m := m; shr_r := r; shr_s := s |}
  = {| shr_m := m / 2; shr_r := Z.odd m; shr_s := r || s |}.
Proof.
  intros Hm. rewrite <- Z.div2_div.
  destruct m as [|[x|x|]|x]; try lia; reflexivity.
Qed.

Lemma shr_1_rec (n d : Z) : 0 <= n -> 0 < d -> shr_1 (rec_of n d) = rec_of n (2 * d).
Proof.
  intros Hn Hd. unfold rec_of.
  pose proof (Z.div_mod n d ltac:(lia)) as E.
  pose proof (Z.mod_pos_bound n d Hd) as Hb.
  assert (0 <= n / d) as Ha by (apply Z.div_pos; lia).
  rewrite shr_1_eq by assumption.
  set (a := n / d) in *. set (b := n mod d) in *.
  assert (n / (2 * d) = a / 2) as E1.
  { rewrite Z.mul_comm, <- Z.div_div by lia. reflexivity. }
  assert (n mod (2 * d) = (a mod 2) * d + b) as E2.
  { rewrite Z.mul_comm, Z.rem_mul_r by lia. fold a b. lia. }
  rewrite E1, E2.
  pose proof (Z.mod_pos_bound a 2 ltac:(lia)) as Hb2.
  f_equal.
  - rewrite Zodd_mod.
    destruct (Z.eqb_spec (a mod 2) 1) as [H1|H1].
    + rewrite H1. symmetry. apply Z.leb_le. lia.
    + assert (a mod 2 = 0) as -> by lia. symmetry. apply Z.leb_gt. lia.
  - assert (a mod 2 = 0 \/ a mod 2 = 1) as [-> | ->] by lia.
    + destruct (Z.leb_spec d (2 * b)), (Z.eqb_spec b 0), (Z.eqb_spec (2 * b) d),
        (Z.eqb_spec (0 * d + b) 0),
        (Z.eqb_spec (2 * (0 * d + b)) (2 * d)); simpl; try reflexivity; lia.
    + destruct (Z.leb_spec d (2 * b)), (Z.eqb_spec b 0), (Z.eqb_spec (2 * b) d),
        (Z.eqb_spec (1 * d + b) 0),
        (Z.eqb_spec (2 * (1 * d + b)) (2 * d)); simpl; try reflexivity; lia.
Qed.

Lemma iter_shr_1_rec (k : positive) (n d : Z) :
  0 <= n -> 0 < d -> SpecFloat.iter_pos shr_1 k (rec_of n d) = rec_of n (d * 2 ^ Z.pos k).
Proof.
  intros Hn. revert d. induction k as [k IH|k IH|]; intros d Hd; cbn [SpecFloat.iter_pos].
  - rewrite shr_1_rec, IH, IH by (try apply Z.mul_pos_pos; lia).
    f_equal. rewrite Pos2Z.inj_xI.
    replace (2 * Z.pos k + 1) with (Z.pos k + Z.pos k + 1) by lia.
    rewrite !Z.pow_add_r by lia. change (2 ^ 1) with 2. ring.
  - rewrite IH, IH by (try apply Z.mul_pos_pos; lia).
    f_equal. rewrite (Pos2Z.inj_xO k).
    replace (2 * Z.pos k) with (Z.pos k + Z.pos k) by lia.
    rewrite !Z.pow_add_r by lia. ring.
  - rewrite shr_1_rec by assumption. f_equal. change (2 ^ 1) with 2. ring.
Qed.

Lemma shr_rec (n d e k : Z) :
  0 <= n -> 0 < d ->
  shr (rec_of n d) e k = (rec_of n (d * 2 ^ Z.max k 0), e + Z.max k 0).
Proof.
  intros Hn Hd. destruct k as [|k|k]; simpl shr.
  - rewrite Z.max_id. f_equal; [f_equal|]; simpl; lia.
  - rewrite iter_shr_1_rec by assumption. now rewrite Z.max_l by lia.
  - rewrite Z.max_r by lia. f_equal; [f_equal|]; simpl; lia.
Qed.

Lemma new_location_rec (n d : Z) :
  0 <= n -> 0 < d ->
  shr_record_of_loc (n / d) (new_location d (n mod d)) = rec_of n d.
Proof.
  intros Hn Hd. pose proof (Z.mod_pos_bound n d Hd) as Hb.
  unfold rec_of, new_location, new_location_even, new_location_odd.
  set (b := n mod d) in *.
  destruct (Z.even d) eqn:Hev.
  - destruct (Z.eqb_spec b 0) as [Hz|Hz]; simpl.
    + destruct (Z.leb_spec d (2 * b)); [lia|reflexivity].
    + destruct (Z.compare_spec (2 * b) d), (Z.leb_spec d (2 * b)),
        (Z.eqb_spec (2 * b) d); simpl; try reflexivity; lia.
  - assert (2 * b <> d) as Hne.
    { intros E. rewrite <- E, Z.even_mul in Hev. discriminate Hev. }
    destruct (Z.eqb_spec b 0) as [Hz|Hz]; simpl.
    + destruct (Z.leb_spec d (2 * b)); [lia|reflexivity].
    + destruct (Z.compare_spec (2 * b + 1) d), (Z.leb_spec d (2 * b)),
        (Z.eqb_spec (2 * b) d); simpl; try reflexivity; lia.
Qed.

Lemma exact_rec (m : Z) : shr_record_of_loc m loc_Exact = rec_of m 1.
Proof.
  unfold rec_of. rewrite Z.div_1_r, Z.mod_1_r. reflexivity.
Qed.

Lemma round_rec (n d : Z) :
  0 < d ->
  round_nearest_even (shr_m (rec_of n d)) (loc_of_shr_record (rec_of n d))
  = nearest_even n d.
Proof.
  intros Hd. pose proof (Z.mod_pos_bound n d Hd) as Hb.
  unfold rec_of, nearest_even, loc_of_shr_record, round_nearest_even, shr_m.
  set (b := n mod d) in *.
  destruct (Z.compare_spec (2 * b) d), (Z.leb_spec d (2 * b)),
    (Z.eqb_spec (2 * b) d), (Z.eqb_spec b 0); simpl; try reflexivity; lia.
Qed.

(** The integer nearest to a fraction does not depend on how the
    fraction is written. *)
Lemma nearest_even_scale (n d t : Z) :
  0 < d -> 0 < t -> nearest_even (n * t) (d * t) = nearest_even n d.
Proof.
  intros Hd Ht. unfold nearest_even.
  rewrite Z.div_mul_cancel_r, Z.mul_mod_distr_r by lia.
  replace (2 * (n mod d * t)) with (2 * (n mod d) * t) by ring.
  rewrite <- Zmult_compare_compat_r by lia.
  reflexivity.
Qed.

Lemma nearest_even_unique (n d m : Z) :
  0 < d -> 2 * Z.abs (n - m * d) < d -> nearest_even n d = m.
Proof.
  intros Hd H. pose proof (Z.mod_pos_bound n d Hd) as Hb.
  pose proof (Z.div_mod n d ltac:(lia)) as E.
  unfold nearest_even. set (a := n / d) in *. set (b := n mod d) in *.
  assert (m = a \/ m = a + 1) as [-> | ->] by nia.
  - destruct (Z.compare_spec (2 * b) d); [nia|reflexivity|nia].
  - destruct (Z.compare_spec (2 * b) d); [nia|nia|reflexivity].
Qed.

Lemma nearest_even_bounds (n d : Z) :
  0 < d -> n / d <= nearest_even n d <= n / d + 1.
Proof.
  intros Hd. unfold nearest_even.
  destruct (_ ?= _); [destruct (Z.even _)|..]; lia.
Qed.

(** *** Powers of two as fractions *)

Lemma Qpow2_pos (k : Z) : (0 < 2 ^ k)%Q.
Proof. now apply Qpower_0_lt. Qed.

Lemma Qpow2_add (a b : Z) : (2 ^ (a + b) == 2 ^ a * 2 ^ b)%Q.
Proof. now apply Qpower_plus. Qed.

Lemma Qpow2_sub (a b : Z) : (2 ^ (a - b) == 2 ^ a / 2 ^ b)%Q.
Proof. now apply Qpower_minus. Qed.

Lemma Qpow2_lt (a b : Z) : a < b -> (2 ^ a < 2 ^ b)%Q.
Proof. intros H. now apply Qpower_lt_compat_l. Qed.

Lemma Qpow2_le (a b : Z) : a <= b -> (2 ^ a <= 2 ^ b)%Q.
Proof. intros H. now apply Qpower_le_compat_l. Qed.

Lemma Qpow2_lt_inv (a b : Z) : (2 ^ a < 2 ^ b)%Q -> a < b.
Proof. intros H. now apply (Qpower_lt_compat_l_inv 2). Qed.

Lemma Qpow2_Z (k : Z) : 0 <= k -> (inject_Z (2 ^ k) == 2 ^ k)%Q.
Proof. intros H. now rewrite Zpower_Qpower. Qed.

Lemma inject_Z_pos (n : Z) : 0 < n -> (0 < inject_Z n)%Q.
Proof. intros H. now rewrite Zlt_Qlt in H. Qed.

Lemma ratio_mul (n d : Z) : 0 < d -> (ratio n d * inject_Z d == inject_Z n)%Q.
Proof.
  intros Hd. apply inject_Z_pos in Hd. unfold ratio. field.
  intros E. rewrite E in Hd. discriminate Hd.
Qed.

Lemma floor_ratio (n d : Z) :
  (inject_Z (n / d) <= ratio n d < inject_Z (n / d) + 1)%Q.
Proof.
  rewrite Zdiv_Qdiv. fold (ratio n d). split; [apply Qfloor_le|].
  rewrite <- (inject_Z_plus _ 1). apply Qlt_floor.
Qed.

Lemma digits_Q (m : Z) :
  0 < m -> (2 ^ (Zdigits2 m - 1) <= inject_Z m < 2 ^ Zdigits2 m)%Q.
Proof.
  intros Hm. destruct (Zdigits2_bounds m Hm) as [Hl Hu].
  assert (0 < Zdigits2 m) by (destruct m; simpl; lia).
  rewrite Zle_Qle in Hl. rewrite Zlt_Qlt in Hu.
  rewrite !Qpow2_Z in * by lia. now split.
Qed.

Lemma ratio_Q (y : Q) : (y == ratio (Qnum y) (Z.pos (Qden y)))%Q.
Proof. destruct y as [a b]. unfold ratio. simpl. apply Qmake_Qdiv. Qed.

Lemma ratio_cross (n d n' d' : Z) :
  0 < d -> 0 < d' -> (ratio n d == ratio n' d')%Q -> n * d' = n' * d.
Proof.
  intros Hd Hd' H. apply inject_Z_injective. rewrite !inject_Z_mult.
  rewrite <- (ratio_mul n d Hd), <- (ratio_mul n' d' Hd'), H. ring.
Qed.

Lemma rnd_ratio (y : Q) (n d : Z) :
  0 < d -> (y == ratio n d)%Q -> rnd y = nearest_even n d.
Proof.
  intros Hd H. rewrite (ratio_Q y) in H. apply ratio_cross in H; [|lia|assumption].
  unfold rnd.
  rewrite <- (nearest_even_scale (Qnum y) (Z.pos (Qden y)) d) by lia.
  rewrite <- (nearest_even_scale n d (Z.pos (Qden y))) by lia.
  rewrite H. f_equal. ring.
Qed.

Lemma rnd_ext (y y' : Q) : (y == y')%Q -> rnd y = rnd y'.
Proof.
  intros H. rewrite (ratio_Q y') in H.
  apply rnd_ratio in H; [exact H|lia].
Qed.

Lemma round_at_ext (neg : bool) (y y' : Q) (e : Z) :
  (y == y')%Q -> round_at neg y e = round_at neg y' e.
Proof.
  intros H. unfold round_at. rewrite (rnd_ext (y / 2 ^ e) (y' / 2 ^ e)); [reflexivity|].
  now rewrite H.
Qed.

Lemma div_core (p q : Z) :
  0 < p -> 0 < q ->
  let e' := Z.min (fexp prec emax (Zdigits2 p - Zdigits2 q)) 0 in
  SFdiv_core_binary prec emax p 0 q 0
  = ((p * 2 ^ (- e')) / q, e', new_location q ((p * 2 ^ (- e')) mod q)).
Proof.
  intros Hp Hq e'. unfold SFdiv_core_binary.
  replace (Zdigits2 p + 0 - (Zdigits2 q + 0)) with (Zdigits2 p - Zdigits2 q) by lia.
  change (0 - 0) with 0. fold e'.
  assert (e' <= 0) by (unfold e'; lia).
  assert ((match 0 - e' with
           | Z.pos _ => Z.shiftl p (0 - e') | 0 => p | Z.neg _ => 0
           end) = p * 2 ^ (- e')) as ->.
  { replace (0 - e') with (- e') by lia.
    destruct (- e') eqn:E; [simpl; lia| |lia].
    now rewrite Z.shiftl_mul_pow2. }
  unfold Z.div, Z.modulo. destruct (Z.div_eucl _ _). reflexivity.
Qed.

Lemma fexp_eq (g : Z) : fexp prec emax g = Z.max (g - 53) (-1074).
Proof. reflexivity. Qed.

Lemma digits_ratio (p q : Z) (y : Q) :
  0 < p -> 0 < q -> (y == ratio p q)%Q ->
  (2 ^ (Zdigits2 p - Zdigits2 q - 1) < y < 2 ^ (Zdigits2 p - Zdigits2 q + 1))%Q.
Proof.
  intros Hp Hq Hy.
  destruct (digits_Q p Hp) as [Hpl Hpu]. destruct (digits_Q q Hq) as [Hql Hqu].
  pose proof (ratio_mul p q Hq) as E. rewrite <- Hy in E.
  set (d1 := Zdigits2 p) in *. set (d2 := Zdigits2 q) in *.
  pose proof (Qpow2_pos (d2 - 1)) as P2. pose proof (Qpow2_pos (d1 - 1)) as P1.
  pose proof (inject_Z_pos q Hq) as Pq.
  assert (0 < y)%Q as Py.
  { apply inject_Z_pos in Hp. rewrite <- E in Hp.
    destruct (Qlt_le_dec 0 y) as [|Hn]; [assumption|].
    exfalso. nra. }
  split.
  - (* 2^(d1-d2-1) * q < 2^(d1-d2-1) * 2^d2 = 2^(d1-1) <= p = y * q *)
    apply (Qmult_lt_r _ _ (inject_Z q)); [assumption|]. rewrite E.
    eapply Qlt_le_trans; [|exact Hpl].
    replace (d1 - 1) with ((d1 - d2 - 1) + d2) by lia. rewrite Qpow2_add.
    apply Qmult_lt_l; [apply Qpow2_pos|assumption].
  - apply (Qmult_lt_r _ _ (inject_Z q)); [assumption|]. rewrite E.
    eapply Qlt_le_trans; [exact Hpu|].
    replace d1 with ((d1 - d2 + 1) + (d2 - 1)) at 1 by lia. rewrite Qpow2_add.
    apply Qmult_le_l; [apply Qpow2_pos|assumption].
Qed.

Lemma binade_digits (p q : Z) (y : Q) (g : Z) :
  0 < p -> 0 < q -> (y == ratio p q)%Q -> binade y g ->
  Zdigits2 p - Zdigits2 q <= g <= Zdigits2 p - Zdigits2 q + 1.
Proof.
  intros Hp Hq Hy [Hl Hu]. destruct (digits_ratio p q y Hp Hq Hy) as [Dl Du].
  assert (2 ^ (g - 1) < 2 ^ (Zdigits2 p - Zdigits2 q + 1))%Q as H1 by lra.
  assert (2 ^ (Zdigits2 p - Zdigits2 q - 1) < 2 ^ g)%Q as H2 by lra.
  apply Qpow2_lt_inv in H1, H2. lia.
Qed.

Lemma binade_exists (y : Q) : (0 < y)%Q -> exists g, binade y g.
Proof.
  intros Hy. pose proof (ratio_Q y) as E.
  assert (0 < Qnum y) as Hp.
  { destruct y as [a b]. unfold Qlt in Hy. simpl in *. lia. }
  destruct (digits_ratio _ _ y Hp (Pos2Z.is_pos _) E) as [Dl Du].
  set (d := Zdigits2 (Qnum y) - Zdigits2 (Z.pos (Qden y))) in *.
  destruct (Qlt_le_dec y (2 ^ d)) as [H|H].
  - exists d. split; [lra|assumption].
  - exists (d + 1). split; [|assumption].
    now replace (d + 1 - 1) with d by lia.
Qed.

Lemma of_ratio_round (neg : bool) (p q : Z) (y : Q) (g : Z) :
  0 < p -> 0 < q -> (y == ratio p q)%Q -> binade y g ->
  of_ratio neg p q = round_at neg y (fexp prec emax g).
Proof.
  intros Hp Hq Hy Hb.
  pose proof (binade_digits p q y g Hp Hq Hy Hb) as Hg.
  destruct Hb as [Hl Hu].
  unfold of_ratio. destruct (Z.eqb_spec p 0); [lia|].
  rewrite div_core by assumption.
  set (e' := Z.min (fexp prec emax (Zdigits2 p - Zdigits2 q)) 0).
  assert (-1074 <= e' <= 0) as He' by (unfold e'; rewrite fexp_eq; lia).
  set (N0 := p * 2 ^ (- e')).
  assert (0 < 2 ^ (- e')) as Hpow by (apply Z.pow_pos_nonneg; lia).
  assert (0 < N0) as HN0 by (unfold N0; nia).
  assert (ratio N0 q == y * 2 ^ (- e'))%Q as HY0.
  { unfold ratio, N0. rewrite inject_Z_mult, Qpow2_Z by lia.
    rewrite Hy. unfold ratio. field.
    pose proof (inject_Z_pos q Hq). lra. }
  pose proof (floor_ratio N0 q) as [Fl Fu]. rewrite HY0 in Fl, Fu.
  set (qq := N0 / q) in *.
  assert (0 <= qq) as Hqq by (apply Z.div_pos; lia).
  pose proof (Qpow2_pos (- e')) as Pu.
  pose proof (Qpow2_add g (- e')) as Eg.
  pose proof (Qpow2_add (g - 1) (- e')) as Eg1.
  assert (e' + Z.max (fexp prec emax (Zdigits2 qq + e') - e') 0 = fexp prec emax g) as K1.
  { destruct (Z.eq_dec qq 0) as [Hz|Hnz].
    - rewrite Hz in *. simpl Zdigits2.
      assert (g - 1 + - e' < 0).
      { apply Qpow2_lt_inv. rewrite Eg1. change (2 ^ 0)%Q with 1%Q.
        change (inject_Z 0) with 0%Q in Fu. nra. }
      unfold e' in *. rewrite !fexp_eq in *. lia.
    - assert (0 < g + - e').
      { apply Qpow2_lt_inv. rewrite Eg. change (2 ^ 0)%Q with 1%Q.
        assert (inject_Z 1 <= inject_Z qq)%Q as H1 by (rewrite <- Zle_Qle; lia).
        change (inject_Z 1) with 1%Q in H1. nra. }
      assert (Zdigits2 qq = g - e') as ->.
      { apply Zdigits2_unique; [lia|]. split.
        - apply Z.div_le_lower_bound; [lia|].
          rewrite Zle_Qle, inject_Z_mult, Qpow2_Z by lia.
          rewrite <- (ratio_mul N0 q Hq), HY0.
          replace (g - e' - 1) with (g - 1 + - e') by lia. rewrite Eg1.
          pose proof (inject_Z_pos q Hq).
          assert (2 ^ (g - 1) * 2 ^ (- e') <= y * 2 ^ (- e'))%Q by nra.
          set (a := (2 ^ (g - 1) * 2 ^ (- e'))%Q) in *.
          set (b := (y * 2 ^ (- e'))%Q) in *. nra.
        - rewrite Zlt_Qlt, Qpow2_Z by lia.
          replace (g - e') with (g + - e') by lia. rewrite Eg. nra. }
      unfold e' in *. rewrite !fexp_eq in *. lia. }
  set (e1 := fexp prec emax g) in *.
  set (k1 := Z.max (fexp prec emax (Zdigits2 qq + e') - e') 0) in *.
  assert (0 <= k1) as Hk1 by (unfold k1; lia).
  assert (0 < 2 ^ k1) as Hpk by (apply Z.pow_pos_nonneg; lia).
  assert (-1074 <= e1 /\ g - 53 <= e1) as He1 by (unfold e1; rewrite fexp_eq; lia).
  assert (ratio N0 (q * 2 ^ k1) == y / 2 ^ e1)%Q as HY1.
  { unfold ratio. rewrite inject_Z_mult, (Qpow2_Z k1) by lia.
    rewrite <- (ratio_mul N0 q Hq), HY0.
    replace e1 with (k1 - - e') by lia. rewrite Qpow2_sub.
    pose proof (Qpow2_pos k1). pose proof (inject_Z_pos q Hq).
    field. repeat split; lra. }
  set (M := nearest_even N0 (q * 2 ^ k1)).
  assert (rnd (y / 2 ^ e1) = M) as HM.
  { apply rnd_ratio; [nia|now symmetry]. }
  assert (0 <= M <= 2 ^ 53) as HMb.
  { pose proof (nearest_even_bounds N0 (q * 2 ^ k1) ltac:(nia)) as [Ml Mu].
    fold M in Ml, Mu.
    assert (0 <= N0 / (q * 2 ^ k1)) by (apply Z.div_pos; nia).
    split; [lia|].
    cut (N0 / (q * 2 ^ k1) < 2 ^ 53); [lia|].
    pose proof (floor_ratio N0 (q * 2 ^ k1)) as [Gl _]. rewrite HY1 in Gl.
    rewrite Zlt_Qlt, Qpow2_Z by lia.
    eapply Qle_lt_trans; [exact Gl|].
    apply Qlt_shift_div_r; [apply Qpow2_pos|].
    rewrite <- Qpow2_add. eapply Qlt_le_trans; [exact Hu|].
    apply Qpow2_le. lia. }
  unfold binary_round_aux, shr_fexp. unfold qq.
  rewrite new_location_rec by lia.
  rewrite shr_rec by lia. change (N0 / q) with qq. fold k1. rewrite K1.
  cbv beta iota. rewrite round_rec by nia. fold M.
  rewrite exact_rec, shr_rec by lia.
  unfold round_at. rewrite HM.
  change (2 ^ prec) with (2 ^ 53). unfold rec_of, shr_m.
  destruct (Z.eqb_spec M (2 ^ 53)) as [E|NE].
  - rewrite E. change (Zdigits2 (2 ^ 53)) with 54.
    replace (Z.max (fexp prec emax (54 + e1) - e1) 0) with 1
      by (rewrite fexp_eq; lia).
    reflexivity.
  - assert (Z.max (fexp prec emax (Zdigits2 M + e1) - e1) 0 = 0) as ->.
    { destruct (Z.eq_dec M 0) as [->|Hnz]; [simpl; rewrite fexp_eq; lia|].
      pose proof (Zdigits2_bounds M ltac:(lia)) as [Dl _].
      assert (Zdigits2 M - 1 < 53) by (apply pow2_lt_inv; lia).
      rewrite fexp_eq. lia. }
    change (1 * 2 ^ 0) with 1. rewrite Z.div_1_r, Z.add_0_r. reflexivity.
Qed.

Lemma binade_unique (y : Q) (g g' : Z) : binade y g -> binade y g' -> g = g'.
Proof.
  intros [A B] [A' B'].
  assert (2 ^ (g - 1) < 2 ^ g')%Q as H1 by lra.
  assert (2 ^ (g' - 1) < 2 ^ g)%Q as H2 by lra.
  apply Qpow2_lt_inv in H1, H2. lia.
Qed.

Lemma binade_ext (y y' : Q) (g : Z) : (y == y')%Q -> binade y g -> binade y' g.
Proof. intros E [A B]. split; now rewrite <- E. Qed.

Lemma ratio_pos (p q : Z) : 0 < p -> 0 < q -> (0 < ratio p q)%Q.
Proof.
  intros Hp Hq. apply inject_Z_pos in Hp, Hq. unfold ratio.
  apply Qlt_shift_div_l; [assumption|]. now rewrite Qmult_0_l.
Qed.

(** [of_ratio] depends on the fraction only, not on how it is written. *)
Lemma of_ratio_ext (neg : bool) (p q p' q' : Z) :
  0 < p -> 0 < q -> 0 < p' -> 0 < q' ->
  (ratio p q == ratio p' q')%Q ->
  of_ratio neg p q = of_ratio neg p' q'.
Proof.
  intros Hp Hq Hp' Hq' E.
  destruct (binade_exists (ratio p q) (ratio_pos p q Hp Hq)) as [g Hg].
  rewrite (of_ratio_round neg p q (ratio p q) g), (of_ratio_round neg p' q' (ratio p q) g);
    try assumption; reflexivity.
Qed.

Lemma Qpow10_pos (k : Z) : (0 < 10 ^ k)%Q.
Proof. now apply Qpower_0_lt. Qed.

Lemma Qpow10_Z (k : Z) : 0 <= k -> (inject_Z (10 ^ k) == 10 ^ k)%Q.
Proof. intros H. now rewrite Zpower_Qpower. Qed.

Lemma Qpow10_add (a b : Z) : (10 ^ (a + b) == 10 ^ a * 10 ^ b)%Q.
Proof. now apply Qpower_plus. Qed.

Lemma decimal_pos (c sc : Z) : 0 < c -> (0 < decimal c sc)%Q.
Proof.
  intros Hc. apply inject_Z_pos in Hc. pose proof (Qpow10_pos sc).
  unfold decimal. nra.
Qed.

Lemma of_decimal_round (neg : bool) (c sc : Z) (y : Q) (g : Z) :
  0 < c -> (y == decimal c sc)%Q -> binade y g ->
  of_decimal neg c sc = round_at neg y (fexp prec emax g).
Proof.
  intros Hc Hy Hg. unfold of_decimal.
  destruct (Z.leb_spec 0 sc) as [Hs|Hs].
  - assert (0 < 10 ^ sc) by (apply Z.pow_pos_nonneg; lia).
    apply of_ratio_round; [nia|lia| |assumption].
    rewrite Hy. unfold decimal, ratio.
    rewrite inject_Z_mult, Qpow10_Z by lia. field.
  - assert (0 < 10 ^ (- sc)) as Hpw by (apply Z.pow_pos_nonneg; lia).
    apply of_ratio_round; [lia|lia| |assumption].
    rewrite Hy. unfold decimal, ratio.
    rewrite Qpow10_Z by lia. rewrite Qpower_opp.
    pose proof (Qpow10_pos sc). field. lra.
Qed.

(** [of_decimal] depends on the value of the decimal only. *)
Lemma of_decimal_ext (neg : bool) (c sc c' sc' : Z) :
  0 < c -> 0 < c' -> (decimal c sc == decimal c' sc')%Q ->
  of_decimal neg c sc = of_decimal neg c' sc'.
Proof.
  intros Hc Hc' E.
  destruct (binade_exists _ (decimal_pos c sc Hc)) as [g Hg].
  rewrite (of_decimal_round neg c sc (decimal c sc) g),
    (of_decimal_round neg c' sc' (decimal c sc) g);
    try assumption; reflexivity.
Qed.

Lemma of_decimal_zero (neg : bool) (sc : Z) : of_decimal neg 0 sc = S754_zero neg.
Proof. unfold of_decimal. destruct (0 <=? sc); reflexivity. Qed.

(** *** The result is a binary64 number *)

Lemma rnd_floor (z : Q) : Qfloor z <= rnd z <= Qfloor z + 1.
Proof. destruct z as [n d]. apply nearest_even_bounds. lia. Qed.

Lemma bounded_iff (m : positive) (e : Z) :
  bounded prec emax m e = true
  <-> Z.max (Zdigits2 (Z.pos m) + e - 53) (-1074) = e /\ e <= 971.
Proof.
  unfold bounded, canonical_mantissa. rewrite andb_true_iff, Z.eqb_eq, Z.leb_le.
  rewrite fexp_eq. reflexivity.
Qed.

Lemma pack_valid (neg : bool) (m e : Z) :
  0 <= m < 2 ^ 53 -> -1074 <= e -> (-1074 < e -> 2 ^ 52 <= m) ->
  valid_binary prec emax (pack neg m e) = true.
Proof.
  intros Hm He Hn. destruct m as [|m|m]; [reflexivity| |lia].
  unfold pack. destruct (Z.leb_spec e (emax - prec)) as [Hle|]; [|reflexivity].
  apply bounded_iff. split; [|exact Hle].
  pose proof (Zdigits2_bounds (Z.pos m) ltac:(lia)) as [Dl Du].
  assert (Zdigits2 (Z.pos m) - 1 < 53) by (apply pow2_lt_inv; lia).
  destruct (Z.eq_dec e (-1074)) as [->|]; [lia|].
  assert (52 < Zdigits2 (Z.pos m)).
  { apply pow2_lt_inv; [simpl; lia|]. specialize (Hn ltac:(lia)). lia. }
  lia.
Qed.

Lemma round_at_valid (neg : bool) (y : Q) (g : Z) :
  binade y g -> valid_binary prec emax (round_at neg y (fexp prec emax g)) = true.
Proof.
  intros [Hl Hu]. unfold round_at. rewrite fexp_eq.
  set (e1 := Z.max (g - 53) (-1074)).
  change (2 ^ prec) with (2 ^ 53). change (2 ^ (prec - 1)) with (2 ^ 52).
  destruct (Z.eqb_spec (rnd (y / 2 ^ e1)) (2 ^ 53)) as [E|NE].
  - apply pack_valid; [simpl; lia|lia|lia].
  - pose proof (rnd_floor (y / 2 ^ e1)) as [Rl Ru].
    pose proof (Qfloor_le (y / 2 ^ e1)) as Fl.
    pose proof (Qlt_floor (y / 2 ^ e1)) as Fu.
    pose proof (Qpow2_pos e1) as Pe.
    assert (0 <= Qfloor (y / 2 ^ e1) < 2 ^ 53) as Hf.
    { split.
      - change 0 with (Qfloor 0). apply Qfloor_resp_le.
        apply Qle_shift_div_l; [assumption|]. rewrite Qmult_0_l.
        pose proof (Qpow2_pos (g - 1)). lra.
      - rewrite Zlt_Qlt, Qpow2_Z by lia.
        eapply Qle_lt_trans; [exact Fl|].
        apply Qlt_shift_div_r; [assumption|].
        rewrite <- Qpow2_add. eapply Qlt_le_trans; [exact Hu|].
        apply Qpow2_le. lia. }
    apply pack_valid; [lia|lia|].
    intros Hn. assert (e1 = g - 53) as He by lia.
    cut (2 ^ 52 <= Qfloor (y / 2 ^ e1)); [lia|].
    replace (2 ^ 52) with (Qfloor (inject_Z (2 ^ 52))) by apply Qfloor_Z.
    apply Qfloor_resp_le. rewrite Qpow2_Z by lia.
    apply Qle_shift_div_l; [assumption|].
    rewrite <- Qpow2_add. eapply Qle_trans; [|exact Hl].
    apply Qpow2_le. lia.
Qed.

Lemma of_decimal_valid (neg : bool) (c sc : Z) :
  0 <= c -> valid_binary prec emax (of_decimal neg c sc) = true.
Proof.
  intros Hc. destruct (Z.eq_dec c 0) as [->|Hnz].
  - now rewrite of_decimal_zero.
  - destruct (binade_exists _ (decimal_pos c sc ltac:(lia))) as [g Hg].
    rewrite (of_decimal_round neg c sc _ g ltac:(lia) ltac:(reflexivity) Hg).
    now apply round_at_valid.
Qed.

(** *** Rounding a fraction that is near a binary64 number *)

Lemma rnd_near (z : Q) (m : Z) :
  (inject_Z m - (1 # 2) < z < inject_Z m + (1 # 2))%Q -> rnd z = m.
Proof.
  intros [Hl Hu]. unfold rnd. apply nearest_even_unique; [lia|].
  pose proof (ratio_mul (Qnum z) (Z.pos (Qden z)) ltac:(lia)) as E.
  rewrite <- (ratio_Q z) in E.
  pose proof (inject_Z_pos (Z.pos (Qden z)) ltac:(lia)) as Pd.
  set (n := Qnum z) in *. set (d := Z.pos (Qden z)) in *.
  assert (2 * (n + - (m * d)) < d).
  { rewrite Zlt_Qlt, inject_Z_mult, inject_Z_plus, inject_Z_opp, inject_Z_mult.
    rewrite <- E. change (inject_Z 2) with 2%Q. nra. }
  assert (- d < 2 * (n + - (m * d))).
  { rewrite Zlt_Qlt, inject_Z_opp, inject_Z_mult, inject_Z_plus, inject_Z_opp,
      inject_Z_mult.
    rewrite <- E. change (inject_Z 2) with 2%Q. nra. }
  lia.
Qed.

Lemma round_near (neg : bool) (m : positive) (e : Z) (y : Q) (g : Z) :
  bounded prec emax m e = true ->
  ((inject_Z (Z.pos m) - (1 # 2)) * 2 ^ e < y < (inject_Z (Z.pos m) + (1 # 2)) * 2 ^ e)%Q ->
  (Z.pos m = 2 ^ 52 -> ((inject_Z (Z.pos m) - (1 # 4)) * 2 ^ e < y)%Q) ->
  binade y g ->
  round_at neg y (fexp prec emax g) = S754_finite neg m e.
Proof.
  intros Hb [Hl Hu] Hq Hg. apply bounded_iff in Hb as [Hc He].
  pose proof (Zdigits2_bounds (Z.pos m) ltac:(lia)) as [Dl Du].
  pose proof (digits_Q (Z.pos m) ltac:(lia)) as [Ql Qu].
  set (dm := Zdigits2 (Z.pos m)) in *.
  assert (0 < dm) as Hdm by (unfold dm; simpl; lia).
  assert (dm - 1 < 53) as Hd53.
  { destruct (Z.ltb_spec (dm - 1) 53); [assumption|]. lia. }
  pose proof (Qpow2_pos e) as Pe.
  set (mq := inject_Z (Z.pos m)) in *.
  assert (1 <= mq)%Q as Hm1.
  { unfold mq. change 1%Q with (inject_Z 1). rewrite <- Zle_Qle. lia. }
  assert (mq + 1 <= 2 ^ dm)%Q as Hm2.
  { unfold mq. change 1%Q with (inject_Z 1).
    rewrite <- inject_Z_plus, <- Qpow2_Z, <- Zle_Qle by lia. lia. }
  (* the final step, once the exponent is known to be [e] *)
  assert (fexp prec emax g = e -> round_at neg y (fexp prec emax g) = S754_finite neg m e)
    as Same.
  { intros ->. unfold round_at.
    assert (rnd (y / 2 ^ e) = Z.pos m) as ->.
    { apply rnd_near. fold mq. split.
      - apply Qlt_shift_div_l; assumption.
      - apply Qlt_shift_div_r; assumption. }
    change (2 ^ prec) with (2 ^ 53).
    destruct (Z.eqb_spec (Z.pos m) (2 ^ 53)) as [E|_].
    - exfalso. assert (53 < dm) by (apply pow2_lt_inv; lia). lia.
    - unfold pack. destruct (Z.leb_spec e (emax - prec)); [reflexivity|].
      unfold emax, prec in *. lia. }
  destruct (Qlt_le_dec y (2 ^ (dm - 1 + e))) as [Hlow|Hhigh].
  - (* below the binade of the number: the mantissa is a power of two *)
    rewrite Qpow2_add in Hlow.
    assert (Z.pos m = 2 ^ (dm - 1)) as Hpow.
    { cut (Z.pos m < 2 ^ (dm - 1) + 1); [lia|].
      rewrite Zlt_Qlt, inject_Z_plus, Qpow2_Z by lia. fold mq.
      change (inject_Z 1) with 1%Q.
      assert ((mq - (1 # 2)) * 2 ^ e < 2 ^ (dm - 1) * 2 ^ e)%Q as H by lra.
      apply Qmult_lt_r in H; [lra|assumption]. }
    assert (mq == 2 ^ (dm - 1))%Q as Hmq.
    { unfold mq. rewrite Hpow. apply Qpow2_Z. lia. }
    assert (binade y (dm - 1 + e)) as Hg'.
    { split; [|now rewrite Qpow2_add].
      replace (dm - 1 + e - 1) with (dm - 1 + e + -1) by lia.
      rewrite !Qpow2_add. rewrite <- Hmq. change (2 ^ (-1))%Q with (1 # 2)%Q.
      nra. }
    pose proof (binade_unique y _ _ Hg Hg') as ->.
    destruct (Z.eq_dec e (-1074)) as [E|NE].
    + apply Same. rewrite fexp_eq. lia.
    + assert (dm = 53) as Hd by lia. rewrite Hd in *.
      assert (fexp prec emax (53 - 1 + e) = e - 1) as -> by (rewrite fexp_eq; lia).
      specialize (Hq Hpow). fold mq in Hq.
      unfold round_at.
      assert (rnd (y / 2 ^ (e - 1)) = 2 ^ 53) as ->.
      { apply rnd_near. rewrite Qpow2_Z by lia.
        replace (e - 1) with (e + -1) by lia. rewrite Qpow2_add.
        change (2 ^ (-1))%Q with (1 # 2)%Q.
        change (2 ^ 53)%Q with (2 * 2 ^ (53 - 1))%Q. rewrite <- Hmq.
        split.
        - apply Qlt_shift_div_l; [lra|]. nra.
        - apply Qlt_shift_div_r; [lra|]. nra. }
      change (2 ^ prec) with (2 ^ 53). rewrite Z.eqb_refl.
      change (2 ^ (prec - 1)) with (2 ^ (53 - 1)). rewrite <- Hpow.
      replace (e - 1 + 1) with e by lia.
      unfold pack. destruct (Z.leb_spec e (emax - prec)); [reflexivity|].
      unfold emax, prec in *. lia.
  - (* in the binade of the number *)
    assert (binade y (dm + e)) as Hg'.
    { split; [now replace (dm + e - 1) with (dm - 1 + e) by lia|].
      rewrite Qpow2_add. nra. }
    pose proof (binade_unique y _ _ Hg Hg') as ->.
    apply Same. rewrite fexp_eq. lia.
Qed.

(** *** The shortest decimal that reads back *)

Lemma same_float_eq (x y : float) : same_float x y = true -> x = y.
Proof.
  destruct x as [a|a| |a m e], y as [b|b| |b n f]; simpl; try discriminate;
    try reflexivity.
  - intros H. apply Bool.eqb_prop in H. now subst.
  - intros H. apply Bool.eqb_prop in H. now subst.
  - rewrite !andb_true_iff. intros [[H1 H2] H3].
    apply Bool.eqb_prop in H1. apply Pos.eqb_eq in H2. apply Z.eqb_eq in H3.
    now subst.
Qed.

Lemma same_float_refl (x : float) : same_float x x = true.
Proof.
  destruct x as [a|a| |a m e]; simpl; try reflexivity;
    try (destruct a; reflexivity).
  now rewrite Bool.eqb_reflx, Pos.eqb_refl, Z.eqb_refl.
Qed.

Lemma below_pow10_spec (p q k : Z) :
  0 < q -> below_pow10 p q k = true <-> (ratio p q < 10 ^ k)%Q.
Proof.
  intros Hq. pose proof (inject_Z_pos q Hq) as Pq.
  pose proof (ratio_mul p q Hq) as E.
  unfold below_pow10. destruct (Z.leb_spec 0 k) as [Hk|Hk].
  - rewrite Z.ltb_lt, Zlt_Qlt, inject_Z_mult, Qpow10_Z, <- E by lia.
    pose proof (Qpow10_pos k) as Pk. split; intros H.
    + apply (Qmult_lt_r _ _ (inject_Z q)); [assumption|]. lra.
    + apply (Qmult_lt_r _ _ (inject_Z q)) in H; [|assumption]. lra.
  - rewrite Z.ltb_lt, Zlt_Qlt, inject_Z_mult, Qpow10_Z, <- E by lia.
    rewrite Qpower_opp. pose proof (Qpow10_pos k) as Pk.
    assert (0 < / 10 ^ k)%Q as Pi by now apply Qinv_lt_0_compat.
    assert (10 ^ k * / 10 ^ k == 1)%Q as HI by (apply Qmult_inv_r; lra).
    set (T := (10 ^ k)%Q) in *. set (IT := (/ T)%Q) in *.
    set (r := ratio p q) in *. set (iq := inject_Z q) in *.
    split; intros H.
    + apply (Qmult_lt_r _ _ IT); [assumption|].
      apply (Qmult_lt_r _ _ iq); [assumption|]. rewrite HI. lra.
    + apply (Qmult_lt_r _ _ IT) in H; [|assumption].
      apply (Qmult_lt_r _ _ iq) in H; [|assumption]. rewrite HI in H. lra.
Qed.

Lemma find_decpt_spec (fuel : nat) (p q k0 : Z) :
  0 < q -> (ratio p q < 10 ^ (k0 + Z.of_nat fuel))%Q ->
  (ratio p q < 10 ^ find_decpt fuel p q k0)%Q
  /\ (find_decpt fuel p q k0 = k0
      \/ (10 ^ (find_decpt fuel p q k0 - 1) <= ratio p q)%Q).
Proof.
  intros Hq. revert k0. induction fuel as [|fuel IH]; intros k0 Hb.
  - simpl. rewrite Z.add_0_r in Hb. auto.
  - cbn [find_decpt]. destruct (below_pow10 p q k0) eqn:Hbl.
    + apply below_pow10_spec in Hbl; auto.
    + assert (~ (ratio p q < 10 ^ k0)%Q) as Hn.
      { intros H. apply below_pow10_spec in H; [congruence|assumption]. }
      destruct (IH (k0 + 1)) as [H1 H2].
      { now replace (k0 + 1 + Z.of_nat fuel) with (k0 + Z.of_nat (S fuel)) by lia. }
      split; [assumption|]. right. destruct H2 as [-> | H2]; [|assumption].
      replace (k0 + 1 - 1) with k0 by lia. now apply Qnot_lt_le.
Qed.

Lemma candidates_sound (x : float) (p q k n c : Z) :
  In c (candidates x p q k n) -> of_decimal false c (k - n) = x.
Proof.
  unfold candidates. intros H. apply filter_In in H as [_ H].
  now apply same_float_eq.
Qed.

Lemma shortest_spec (fuel : nat) (x : float) (p q k n : Z) (j : nat) :
  (j < fuel)%nat -> candidates x p q k (n + Z.of_nat j) <> [] ->
  exists c n', shortest fuel x p q k n = (c, k - n')
               /\ In c (candidates x p q k n').
Proof.
  revert n j. induction fuel as [|fuel IH]; intros n j Hj Hc; [lia|].
  cbn [shortest]. destruct (candidates x p q k n) as [|c l] eqn:E.
  - destruct j as [|j].
    + rewrite Z.add_0_r in Hc. congruence.
    + apply (IH (n + 1) j); [lia|].
      now replace (n + 1 + Z.of_nat j) with (n + Z.of_nat (S j)) by lia.
  - exists c, n. split; [reflexivity|]. rewrite E. now left.
Qed.

(** The fraction [repr] works on is the number. *)
Lemma repr_fraction (m : positive) (e : Z) :
  let p := if 0 <=? e then Z.pos m * 2 ^ e else Z.pos m in
  let q := if 0 <=? e then 1 else 2 ^ (- e) in
  0 < p /\ 0 < q /\ (ratio p q == inject_Z (Z.pos m) * 2 ^ e)%Q.
Proof.
  intros p q. unfold p, q. destruct (Z.leb_spec 0 e) as [He|He].
  - assert (0 < 2 ^ e) by (apply Z.pow_pos_nonneg; lia).
    split; [nia|]. split; [lia|].
    unfold ratio. rewrite inject_Z_mult, Qpow2_Z by lia. field.
  - assert (0 < 2 ^ (- e)) by (apply Z.pow_pos_nonneg; lia).
    split; [lia|]. split; [lia|].
    unfold ratio. rewrite Qpow2_Z by lia. rewrite Qpower_opp.
    pose proof (Qpow2_pos e). field. lra.
Qed.

Lemma pow10_330 : (10 ^ (-330) <= 2 ^ (-1074))%Q.
Proof. vm_compute. discriminate. Qed.

Lemma pow2_1024 : (2 ^ 1024 <= 10 ^ 310)%Q.
Proof. vm_compute. discriminate. Qed.

Lemma pow2_53 : (2 ^ 53 < 10 ^ 16)%Q.
Proof. reflexivity. Qed.

(** A binary64 number lies between the least subnormal and [2 ^ 1024]. *)
Lemma bounded_range (m : positive) (e : Z) :
  bounded prec emax m e = true ->
  (2 ^ (-1074) <= inject_Z (Z.pos m) * 2 ^ e < 2 ^ 1024)%Q
  /\ -1074 <= e /\ (inject_Z (Z.pos m) < 2 ^ 53)%Q.
Proof.
  intros Hb. apply bounded_iff in Hb as [Hc He].
  pose proof (digits_Q (Z.pos m) ltac:(lia)) as [Ql Qu].
  set (dm := Zdigits2 (Z.pos m)) in *.
  assert (dm <= 53 /\ -1074 <= e) as [Hd He'] by lia.
  pose proof (Qpow2_pos e) as Pe.
  assert (inject_Z 1 <= inject_Z (Z.pos m))%Q as H1 by (rewrite <- Zle_Qle; lia).
  change (inject_Z 1) with 1%Q in H1.
  assert (2 ^ dm <= 2 ^ 53)%Q as H53 by (apply Qpow2_le; lia).
  split; [|split; [assumption|lra]]. split.
  - assert (2 ^ (-1074) <= 2 ^ e)%Q by (apply Qpow2_le; lia). nra.
  - assert (2 ^ (53 + e) <= 2 ^ 1024)%Q as H by (apply Qpow2_le; lia).
    rewrite Qpow2_add in H. nra.
Qed.

(** Seventeen digits are enough: the 17-digit decimal nearest to a
    binary64 number reads back as that number. *)
Lemma near_decimal (m : positive) (e : Z) (X : Q) (c k : Z) :
  bounded prec emax m e = true ->
  (X == inject_Z (Z.pos m) * 2 ^ e)%Q ->
  (10 ^ (k - 1) <= X)%Q ->
  (inject_Z c - (1 # 2) <= X * 10 ^ (17 - k) <= inject_Z c + (1 # 2))%Q ->
  of_decimal false c (k - 17) = S754_finite false m e.
Proof.
  intros Hb HX Hk [Hl Hu].
  destruct (bounded_range m e Hb) as (_ & He & Hm53).
  assert (inject_Z 1 <= inject_Z (Z.pos m))%Q as Hm1 by (rewrite <- Zle_Qle; lia).
  change (inject_Z 1) with 1%Q in Hm1.
  pose proof (Qpow2_pos e) as Pu. pose proof (Qpow10_pos (k - 17)) as PT.
  assert (10 ^ (17 - k) * 10 ^ (k - 17) == 1)%Q as HI.
  { rewrite <- Qpow10_add. now replace (17 - k + (k - 17)) with 0 by lia. }
  assert (10 ^ (k - 1) == 10000000000000000 * 10 ^ (k - 17))%Q as H16.
  { replace (k - 1) with (16 + (k - 17)) by lia. now rewrite Qpow10_add. }
  rewrite H16 in Hk.
  change (2 ^ 53)%Q with 9007199254740992%Q in Hm53.
  set (M := inject_Z (Z.pos m)) in *. set (u := (2 ^ e)%Q) in *.
  set (T := (10 ^ (k - 17))%Q) in *. set (IT := (10 ^ (17 - k))%Q) in *.
  set (y := decimal c (k - 17)).
  assert (y == inject_Z c * T)%Q as Hy by reflexivity.
  assert (y - T * (1 # 2) <= X <= y + T * (1 # 2))%Q as [Yl Yu].
  { assert (X == X * IT * T)%Q as EX by (rewrite <- Qmult_assoc, HI; ring).
    assert ((inject_Z c - (1 # 2)) * T <= X * IT * T)%Q
      by (apply Qmult_le_compat_r; lra).
    assert (X * IT * T <= (inject_Z c + (1 # 2)) * T)%Q
      by (apply Qmult_le_compat_r; lra).
    rewrite Hy. split; lra. }
  assert (M * u < 10000000000000000 * u)%Q as Hmu by nra.
  assert ((M - (1 # 2)) * u < y < (M + (1 # 2)) * u)%Q as Hnear.
  { rewrite HX in Yl, Yu, Hk. split; lra. }
  assert (0 < c) as Hc.
  { assert (0 < y)%Q as Py by nra.
    rewrite Hy in Py. rewrite Zlt_Qlt. change (inject_Z 0) with 0%Q.
    destruct (Qlt_le_dec 0 (inject_Z c)); [assumption|]. exfalso. nra. }
  destruct (binade_exists y ltac:(nra)) as [g Hg].
  rewrite (of_decimal_round false c (k - 17) y g Hc ltac:(reflexivity) Hg).
  apply round_near; try assumption.
  intros Hpow. fold M.
  assert (M == 4503599627370496)%Q as HM.
  { unfold M. rewrite Hpow. reflexivity. }
  rewrite HX in Yu, Hk. rewrite HM in Yu, Hk. rewrite HM. fold u. lra.
Qed.

Lemma half_near (num den c : Z) :
  0 < den -> 2 * Z.abs (num - c * den) <= den ->
  (inject_Z c - (1 # 2) <= ratio num den <= inject_Z c + (1 # 2))%Q.
Proof.
  intros Hd H. pose proof (ratio_mul num den Hd) as E.
  pose proof (inject_Z_pos den Hd) as Pd.
  assert (2 * (num + - (c * den)) <= den) as H1 by lia.
  assert (- den <= 2 * (num + - (c * den))) as H2 by lia.
  rewrite Zle_Qle in H1, H2.
  push_inject H1. push_inject H2.
  rewrite <- E in H1, H2. change (inject_Z 2) with 2%Q in H1, H2.
  set (r := ratio num den) in *. set (d := inject_Z den) in *.
  split.
  - apply (Qmult_le_r _ _ d); [assumption|]. lra.
  - apply (Qmult_le_r _ _ d); [assumption|]. lra.
Qed.

Lemma candidates_in (x : float) (p q k n c : Z) :
  0 <= p -> 0 < q -> In c (candidates x p q k n) -> 0 <= c.
Proof.
  intros Hp Hq. unfold candidates. intros H. apply filter_In in H as [H _].
  set (num := if 0 <=? n - k then p * 10 ^ (n - k) else p) in *.
  set (den := if 0 <=? n - k then q else q * 10 ^ (- (n - k))) in *.
  assert (0 <= num /\ 0 < den) as [Hn Hd].
  { unfold num, den. destruct (Z.leb_spec 0 (n - k)).
    - assert (0 < 10 ^ (n - k)) by (apply Z.pow_pos_nonneg; lia). split; nia.
    - assert (0 < 10 ^ (- (n - k))) by (apply Z.pow_pos_nonneg; lia). split; nia. }
  assert (0 <= num / den) by (apply Z.div_pos; lia).
  destruct (_ ?= _); [destruct (Z.even _)|..]; simpl in H; lia.
Qed.

Lemma candidates_17 (m : positive) (e p q k : Z) :
  bounded prec emax m e = true ->
  0 < p -> 0 < q ->
  (ratio p q == inject_Z (Z.pos m) * 2 ^ e)%Q ->
  (10 ^ (k - 1) <= ratio p q)%Q ->
  candidates (S754_finite false m e) p q k 17 <> [].
Proof.
  intros Hb Hp Hq HX Hk. unfold candidates.
  set (num := if 0 <=? 17 - k then p * 10 ^ (17 - k) else p).
  set (den := if 0 <=? 17 - k then q else q * 10 ^ (- (17 - k))).
  assert (0 < den /\ (ratio num den == ratio p q * 10 ^ (17 - k))%Q) as [Hd Hr].
  { unfold num, den. destruct (Z.leb_spec 0 (17 - k)) as [Hs|Hs].
    - split; [assumption|]. unfold ratio.
      rewrite inject_Z_mult, Qpow10_Z by lia. field.
      pose proof (inject_Z_pos q Hq). lra.
    - assert (0 < 10 ^ (- (17 - k))) by (apply Z.pow_pos_nonneg; lia).
      split; [nia|]. unfold ratio.
      rewrite inject_Z_mult, Qpow10_Z by lia. rewrite Qpower_opp.
      pose proof (inject_Z_pos q Hq). pose proof (Qpow10_pos (17 - k)).
      field. split; lra. }
  pose proof (Z.div_mod num den ltac:(lia)) as E.
  pose proof (Z.mod_pos_bound num den Hd) as Hm.
  set (lo := num / den) in *. set (r := num mod den) in *.
  assert (forall c rest, 2 * Z.abs (num - c * den) <= den ->
            List.filter (fun c => same_float (of_decimal false c (k - 17))
                                    (S754_finite false m e)) (c :: rest) <> []) as Keep.
  { intros c rest Hc. apply half_near in Hc; [|assumption]. rewrite Hr in Hc.
    cbn [List.filter].
    rewrite (near_decimal m e (ratio p q) c k Hb HX Hk Hc), same_float_refl.
    discriminate. }
  destruct (Z.compare_spec (2 * r) den).
  - destruct (Z.even lo); apply Keep; lia.
  - apply Keep. lia.
  - apply Keep. lia.
Qed.

(** [repr] finds digits that read back as the number. *)
Lemma shortest_reads_back (m : positive) (e : Z) :
  bounded prec emax m e = true ->
  let p := if 0 <=? e then Z.pos m * 2 ^ e else Z.pos m in
  let q := if 0 <=? e then 1 else 2 ^ (- e) in
  let k := find_decpt 640 p q (-330) in
  exists c sc,
    shortest 17 (S754_finite false m e) p q k 1 = (c, sc)
    /\ 0 < c /\ of_decimal false c sc = S754_finite false m e.
Proof.
  intros Hb p q k.
  destruct (repr_fraction m e) as (Hp & Hq & HX). fold p q in Hp, Hq, HX.
  destruct (bounded_range m e Hb) as ([Xl Xu] & _ & _). rewrite <- HX in Xl, Xu.
  destruct (find_decpt_spec 640 p q (-330) Hq) as [Kl Ku].
  { eapply Qlt_le_trans; [exact Xu|]. exact pow2_1024. }
  fold k in Kl, Ku.
  assert (10 ^ (k - 1) <= ratio p q)%Q as Hk.
  { destruct Ku as [Ku|Ku]; [|assumption]. exfalso.
    rewrite Ku in Kl. pose proof pow10_330. lra. }
  destruct (shortest_spec 17 (S754_finite false m e) p q k 1 16 ltac:(lia))
    as (c & n' & Hs & Hin).
  { now apply candidates_17. }
  exists c, (k - n'). split; [exact Hs|].
  pose proof (candidates_sound _ _ _ _ _ _ Hin) as Hr.
  split; [|exact Hr].
  apply candidates_in in Hin; [|lia|assumption].
  destruct (Z.eq_dec c 0) as [->|]; [|lia].
  rewrite of_decimal_zero in Hr. discriminate Hr.
Qed.

(** *** Digit strings *)

Lemma repr_finite_render (m : positive) (e : Z) :
  repr_finite m e
  = let p := if 0 <=? e then Z.pos m * 2 ^ e else Z.pos m in
    let q := if 0 <=? e then 1 else 2 ^ (- e) in
    let k := find_decpt 640 p q (-330) in
    render (fst (shortest 17 (S754_finite false m e) p q k 1))
           (snd (shortest 17 (S754_finite false m e) p q k 1)).
Proof.
  unfold repr_finite. cbv zeta.
  destruct (shortest _ _ _ _ _ _) as [c sc]. reflexivity.
Qed.

Lemma forall_chars_append (f : ascii -> bool) (a b : string) :
  forall_chars f (a ++ b) = forall_chars f a && forall_chars f b.
Proof.
  induction a as [|x a IH]; [reflexivity|].
  rewrite append_cons. simpl. now rewrite IH, andb_assoc.
Qed.

Lemma forall_chars_impl (f g : ascii -> bool) (s : string) :
  (forall c, f c = true -> g c = true) ->
  forall_chars f s = true -> forall_chars g s = true.
Proof.
  intros H. induction s as [|x s IH]; simpl; [trivial|].
  rewrite !andb_true_iff. intros [H1 H2]. split; auto.
Qed.

Lemma forall_chars_contains (f : ascii -> bool) (s : string) (c : ascii) :
  forall_chars f s = true -> contains c s = true -> f c = true.
Proof.
  induction s as [|x s IH]; simpl; [discriminate|].
  rewrite andb_true_iff, orb_true_iff. intros [H1 H2] [H|H]; [|auto].
  apply Ascii.eqb_eq in H. now subst.
Qed.

Lemma dval_go_app (a b : string) (acc : Z) :
  dval_go (a ++ b) acc = dval_go b (dval_go a acc).
Proof.
  revert acc. induction a as [|x a IH]; intros acc; [reflexivity|].
  rewrite append_cons. simpl. apply IH.
Qed.

Lemma dval_go_acc (s : string) (acc : Z) :
  dval_go s acc = acc * 10 ^ Z.of_nat (String.length s) + dval_go s 0.
Proof.
  revert acc. induction s as [|x s IH]; intros acc.
  - simpl. lia.
  - cbn [dval_go String.length]. rewrite IH, (IH (10 * 0 + _)).
    rewrite Nat2Z.inj_succ, Z.pow_succ_r by lia. ring.
Qed.

Lemma dval_app (a b : string) :
  dval (a ++ b) = dval a * 10 ^ Z.of_nat (String.length b) + dval b.
Proof. unfold dval. now rewrite dval_go_app, dval_go_acc. Qed.

Lemma digitpart_go_digits (s : string) (acc n : Z) :
  all_digits s = true ->
  digitpart_go s acc n true
  = Some (dval_go s acc, n + Z.of_nat (String.length s)).
Proof.
  revert acc n. induction s as [|x s IH]; intros acc n.
  - intros _. simpl. now rewrite Z.add_0_r.
  - unfold all_digits. cbn [forall_chars]. rewrite andb_true_iff. intros [Hx Hs].
    cbn [digitpart_go dval_go String.length]. rewrite Hx, IH by assumption.
    f_equal. f_equal. lia.
Qed.

Lemma digitpart_digits (s : string) :
  all_digits s = true -> s <> "" ->
  digitpart s = Some (dval s, Z.of_nat (String.length s)).
Proof.
  destruct s as [|x s]; [congruence|]. intros H _.
  unfold all_digits in H. cbn [forall_chars] in H.
  apply andb_true_iff in H as [Hx Hs].
  unfold digitpart, dval. cbn [digitpart_go dval_go String.length].
  rewrite Hx, digitpart_go_digits by assumption. f_equal. f_equal. lia.
Qed.

Lemma zeros_digits (n : nat) : all_digits (zeros n) = true.
Proof. induction n; [reflexivity|]. simpl. exact IHn. Qed.

Lemma zeros_length (n : nat) : String.length (zeros n) = n.
Proof. induction n; simpl; congruence. Qed.

Lemma dval_go_zeros (n : nat) (acc : Z) :
  dval_go (zeros n) acc = acc * 10 ^ Z.of_nat n.
Proof.
  rewrite dval_go_acc, zeros_length.
  assert (dval_go (zeros n) 0 = 0) as ->; [|lia].
  induction n; [reflexivity|]. simpl. exact IHn.
Qed.

Lemma uint_digits (d : Decimal.uint) :
  all_digits (NilEmpty.string_of_uint d) = true.
Proof. induction d; simpl; try reflexivity; exact IHd. Qed.

Lemma dval_go_uint (d : Decimal.uint) (acc : Z) :
  dval_go (NilEmpty.string_of_uint d) acc = uint_value d acc.
Proof.
  revert acc. induction d; intros acc; simpl; [reflexivity|..];
    change (code _ - 48) with 0 || change (code _ - 48) with 1
    || change (code _ - 48) with 2 || change (code _ - 48) with 3
    || change (code _ - 48) with 4 || change (code _ - 48) with 5
    || change (code _ - 48) with 6 || change (code _ - 48) with 7
    || change (code _ - 48) with 8 || change (code _ - 48) with 9;
    apply IHd.
Qed.

(** The digits of a positive integer: digits only, at least one, with
    the integer as their value. *)
Lemma digits_spec (c : Z) :
  0 < c ->
  all_digits (digits c) = true /\ digits c <> "" /\ dval (digits c) = c.
Proof.
  intros Hc. destruct c as [|p|p]; try lia.
  unfold digits. simpl Z.to_int. simpl NilEmpty.string_of_int.
  split; [apply uint_digits|]. split.
  - pose proof (DecimalPos.Unsigned.to_uint_nonnil p) as H.
    destruct (Pos.to_uint p); [congruence|..]; discriminate.
  - unfold dval. rewrite dval_go_uint, uint_value_of_uint,
      DecimalPos.Unsigned.of_to. reflexivity.
Qed.

Lemma rev_app_append (a b : string) : String.rev_app a b = String.rev a ++ b.
Proof.
  revert b. induction a as [|x a IH]; intros b; [reflexivity|].
  unfold String.rev. simpl. rewrite (IH (String x b)), (IH (String x "")).
  now rewrite append_assoc.
Qed.

Lemma rev_append (a b : string) : String.rev (a ++ b) = String.rev b ++ String.rev a.
Proof.
  induction a as [|x a IH].
  - now rewrite append_empty_l, append_empty_r.
  - rewrite append_cons. unfold String.rev at 1 3. simpl.
    rewrite !rev_app_append, IH. now rewrite append_assoc.
Qed.

Lemma zeros_snoc (n : nat) : zeros n ++ "0" = zeros (S n).
Proof.
  induction n; [reflexivity|].
  change (zeros (S n)) with (String "0" (zeros n)) at 1.
  rewrite append_cons, IHn. reflexivity.
Qed.

Lemma rev_zeros (n : nat) : String.rev (zeros n) = zeros n.
Proof.
  induction n; [reflexivity|].
  unfold String.rev. simpl. rewrite rev_app_append, IHn. apply zeros_snoc.
Qed.

Lemma lstrip_zeros_spec (t : string) : exists j, t = zeros j ++ lstrip_zeros t.
Proof.
  induction t as [|x t [j IH]]; [now exists 0%nat|].
  simpl. destruct (Ascii.eqb_spec x "0") as [->|].
  - exists (S j). simpl zeros. rewrite append_cons. now f_equal.
  - now exists 0%nat.
Qed.

Lemma rstrip_zeros_spec (s : string) : exists j, s = rstrip_zeros s ++ zeros j.
Proof.
  unfold rstrip_zeros. destruct (lstrip_zeros_spec (String.rev s)) as [j H].
  exists j. rewrite <- (rev_rev s) at 1. rewrite H at 1.
  now rewrite rev_append, rev_zeros.
Qed.

(** The digits [repr] lays out: those of [c] without the zeros at the
    end. *)
Lemma stripped_digits (c : Z) :
  0 < c ->
  exists j,
    digits c = rstrip_zeros (digits c) ++ zeros j
    /\ all_digits (rstrip_zeros (digits c)) = true
    /\ rstrip_zeros (digits c) <> ""
    /\ c = dval (rstrip_zeros (digits c)) * 10 ^ Z.of_nat j
    /\ 0 < dval (rstrip_zeros (digits c)).
Proof.
  intros Hc. destruct (digits_spec c Hc) as (Hd & Hne & Hv).
  destruct (rstrip_zeros_spec (digits c)) as [j Hj].
  set (ds := rstrip_zeros (digits c)) in *.
  assert (c = dval ds * 10 ^ Z.of_nat j) as Hcv.
  { assert (dval (zeros j) = 0) as Hz
      by (unfold dval; rewrite dval_go_zeros; lia).
    rewrite <- Hv at 1. rewrite Hj, dval_app, zeros_length, Hz. lia. }
  exists j. split; [exact Hj|]. split.
  - rewrite Hj in Hd. unfold all_digits in *. rewrite forall_chars_append in Hd.
    now apply andb_true_iff in Hd as [Hd _].
  - split; [|split; [exact Hcv|]].
    + intros E. rewrite E in Hcv. unfold dval in Hcv. simpl in Hcv. lia.
    + assert (0 < 10 ^ Z.of_nat j) by (apply Z.pow_pos_nonneg; lia). nia.
Qed.

(** *** Characters of a rendered number *)

Lemma isdigit_cases (c : ascii) :
  isdigit c = true ->
  In c ["0"; "1"; "2"; "3"; "4"; "5"; "6"; "7"; "8"; "9"]%char.
Proof.
  destruct c as [[] [] [] [] [] [] [] []]; vm_compute; intros H;
    try discriminate H; tauto.
Qed.

Lemma numchar_cases (c : ascii) :
  numchar c = true ->
  In c ["0"; "1"; "2"; "3"; "4"; "5"; "6"; "7"; "8"; "9"; "."; "e"; "+"; "-"]%char.
Proof.
  destruct c as [[] [] [] [] [] [] [] []]; vm_compute; intros H;
    try discriminate H; tauto.
Qed.

Lemma numchar_not_blank (c : ascii) : numchar c = true -> isblank c = false.
Proof. intros H. apply numchar_cases in H. each_char H. Qed.

Lemma mantchar_not_e (c : ascii) :
  mantchar c = true -> Ascii.eqb (lower_char c) "e" = false.
Proof.
  unfold mantchar. rewrite orb_true_iff. intros [H|H].
  - apply isdigit_cases in H. each_char H.
  - apply Ascii.eqb_eq in H. now subst.
Qed.

Lemma digit_first (d : ascii) (r : string) :
  isdigit d = true ->
  sign_part (String d r) = (false, String d r)
  /\ String.eqb (lower (String d r)) "inf" = false
  /\ String.eqb (lower (String d r)) "infinity" = false
  /\ String.eqb (lower (String d r)) "nan" = false.
Proof.
  intros H. apply isdigit_cases in H. each_char H; repeat split; reflexivity.
Qed.

Lemma numchar_no_blank (s : string) : forall_chars numchar s = true -> no_blank s.
Proof.
  intros H c Hc. destruct (contains c s) eqn:E; [|reflexivity].
  apply (forall_chars_contains _ _ _ H), numchar_not_blank in E. congruence.
Qed.

Lemma split_exponent_none (s : string) :
  forall_chars mantchar s = true -> split_exponent s = (s, None).
Proof.
  induction s as [|x s IH]; [reflexivity|]. cbn [forall_chars split_exponent].
  rewrite andb_true_iff. intros [Hx Hs].
  now rewrite (mantchar_not_e x Hx), (IH Hs).
Qed.

Lemma split_exponent_e (a b : string) :
  forall_chars mantchar a = true ->
  split_exponent (a ++ String "e" b) = (a, Some b).
Proof.
  induction a as [|x a IH]; [reflexivity|]. rewrite append_cons.
  cbn [forall_chars split_exponent].
  rewrite andb_true_iff. intros [Hx Ha].
  now rewrite (mantchar_not_e x Hx), (IH Ha).
Qed.

Lemma number_digits (ip fp : string) :
  all_digits ip = true -> all_digits fp = true -> ip <> "" -> fp <> "" ->
  number (ip ++ String "." fp)
  = Some (dval (ip ++ fp), Z.of_nat (String.length fp)).
Proof.
  intros Hi Hf Ni Nf. unfold number.
  assert (split1 "." (ip ++ String "." fp) = Some (ip, fp)) as ->.
  { apply split1_Some. split; [reflexivity|].
    destruct (contains "." ip) eqn:E; [|reflexivity].
    apply (forall_chars_contains _ _ _ Hi) in E. discriminate E. }
  rewrite (digitpart_digits ip Hi Ni), (digitpart_digits fp Hf Nf), dval_app.
  destruct ip; [congruence|]. destruct fp; [congruence|]. reflexivity.
Qed.

(** Reading a text that starts with a digit, after an optional sign. *)
Lemma float_of_string_number (neg : bool) (d : ascii) (r : string) :
  isdigit d = true -> forall_chars numchar (String d r) = true ->
  float_of_string (sign_text neg ++ String d r)
  = let (mant, ex) := split_exponent (String d r) in
    match number mant, ex with
    | Some (m, k), None => Ok (of_decimal neg m (- k))
    | Some (m, k), Some x =>
        match exponent x with
        | Some e => Ok (of_decimal neg m (e - k))
        | None => Raise ValueError
        end
    | None, _ => Raise ValueError
    end.
Proof.
  intros Hd Hn. destruct (digit_first d r Hd) as (Hs & H1 & H2 & H3).
  unfold float_of_string.
  rewrite strip_no_blank.
  - assert (sign_part (sign_text neg ++ String d r) = (neg, String d r)) as ->.
    { destruct neg; [reflexivity|exact Hs]. }
    now rewrite H1, H2, H3.
  - apply numchar_no_blank. rewrite forall_chars_append, Hn.
    destruct neg; reflexivity.
Qed.

Lemma exponent_text (ex : Z) :
  ex <> 0 ->
  exponent ((if ex <? 0 then "-" else "+")
            ++ (if Z.abs ex <? 10 then "0" else "") ++ digits (Z.abs ex))
  = Some ex.
Proof.
  intros Hx. destruct (digits_spec (Z.abs ex) ltac:(lia)) as (Hd & Hne & Hv).
  set (pad := if Z.abs ex <? 10 then "0" else "").
  assert (all_digits (pad ++ digits (Z.abs ex)) = true
          /\ pad ++ digits (Z.abs ex) <> ""
          /\ dval (pad ++ digits (Z.abs ex)) = Z.abs ex) as (Ha & Hn & Hval).
  { unfold pad. destruct (Z.abs ex <? 10).
    - rewrite append_cons, append_empty_l. split; [exact Hd|].
      split; [discriminate|]. unfold dval in *. exact Hv.
    - rewrite append_empty_l. auto. }
  unfold exponent.
  assert (sign_part ((if ex <? 0 then "-" else "+") ++ pad ++ digits (Z.abs ex))
          = (ex <? 0, pad ++ digits (Z.abs ex))) as ->
    by (destruct (ex <? 0); reflexivity).
  rewrite (digitpart_digits _ Ha Hn), Hval.
  destruct (Z.ltb_spec ex 0); f_equal; lia.
Qed.

Lemma starts_digit_append (a b : string) :
  all_digits a = true -> a <> "" -> starts_digit (a ++ b) = true.
Proof.
  destruct a as [|x a]; [congruence|]. unfold all_digits. simpl.
  rewrite andb_true_iff. now intros [H _] _.
Qed.

Lemma float_of_string_body (neg : bool) (body : string) :
  starts_digit body = true -> forall_chars numchar body = true ->
  float_of_string (sign_text neg ++ body)
  = let (mant, ex) := split_exponent body in
    match number mant, ex with
    | Some (m, k), None => Ok (of_decimal neg m (- k))
    | Some (m, k), Some x =>
        match exponent x with
        | Some e => Ok (of_decimal neg m (e - k))
        | None => Raise ValueError
        end
    | None, _ => Raise ValueError
    end.
Proof.
  destruct body as [|d r]; [discriminate|]. simpl starts_digit.
  apply float_of_string_number.
Qed.

Lemma digits_mantchar (s : string) :
  all_digits s = true -> forall_chars mantchar s = true.
Proof.
  apply forall_chars_impl. intros c H. unfold mantchar. now rewrite H.
Qed.

Lemma mantchar_numchar (s : string) :
  forall_chars mantchar s = true -> forall_chars numchar s = true.
Proof.
  apply forall_chars_impl. intros c H. unfold numchar. now rewrite H.
Qed.

Lemma substring_0_0 (s : string) : String.substring 0 0 s = "".
Proof. now destruct s. Qed.

Lemma substring_take (a b : string) :
  String.substring 0 (String.length a) (a ++ b) = a.
Proof.
  induction a as [|x a IH]; [apply substring_0_0|].
  rewrite append_cons. simpl. now rewrite IH.
Qed.

Lemma split_at (s : string) (i : nat) :
  (i <= String.length s)%nat ->
  exists a b, s = a ++ b /\ String.length a = i.
Proof.
  revert i. induction s as [|x s IH]; intros i Hi.
  - exists "", "". simpl in Hi. split; [reflexivity|simpl; lia].
  - destruct i as [|i].
    + exists "", (String x s). now split.
    + destruct (IH i) as (a & b & -> & Ha); [simpl in Hi; lia|].
      exists (String x a), b. rewrite append_cons. split; [reflexivity|].
      simpl. now rewrite Ha.
Qed.

Lemma decimal_shift (v t ee : Z) :
  0 <= t -> (decimal (v * 10 ^ t) ee == decimal v (ee + t))%Q.
Proof.
  intros Ht. unfold decimal.
  rewrite inject_Z_mult, Qpow10_Z, Qpow10_add by assumption. ring.
Qed.

Lemma dval_zeros (n : nat) : dval (zeros n) = 0.
Proof. unfold dval. rewrite dval_go_zeros. lia. Qed.

Lemma all_digits_no (c : ascii) (s : string) :
  isdigit c = false -> all_digits s = true -> contains c s = false.
Proof.
  intros Hc Hs. destruct (contains c s) eqn:E; [|reflexivity].
  apply (forall_chars_contains _ _ _ Hs) in E. congruence.
Qed.

Lemma read_positional (neg : bool) (a b : string) :
  all_digits a = true -> all_digits b = true -> a <> "" -> b <> "" ->
  float_of_string (sign_text neg ++ a ++ String "." b)
  = Ok (of_decimal neg (dval (a ++ b)) (- Z.of_nat (String.length b))).
Proof.
  intros Ha Hb Na Nb.
  assert (forall_chars mantchar (a ++ String "." b) = true) as Hm.
  { rewrite forall_chars_append. cbn [forall_chars].
    now rewrite (digits_mantchar a Ha), (digits_mantchar b Hb). }
  rewrite float_of_string_body.
  - now rewrite (split_exponent_none _ Hm), number_digits.
  - now apply starts_digit_append.
  - now apply mantchar_numchar.
Qed.

Lemma read_exponent_form (neg : bool) (a b : string) (ex : Z) :
  all_digits a = true -> all_digits b = true -> a <> "" -> b <> "" -> ex <> 0 ->
  float_of_string
    (sign_text neg ++ (a ++ String "." b)
       ++ String "e" ((if ex <? 0 then "-" else "+")
                      ++ (if Z.abs ex <? 10 then "0" else "")
                      ++ digits (Z.abs ex)))
  = Ok (of_decimal neg (dval (a ++ b)) (ex - Z.of_nat (String.length b))).
Proof.
  intros Ha Hb Na Nb Hx.
  assert (forall_chars mantchar (a ++ String "." b) = true) as Hm.
  { rewrite forall_chars_append. cbn [forall_chars].
    now rewrite (digits_mantchar a Ha), (digits_mantchar b Hb). }
  destruct (digits_spec (Z.abs ex) ltac:(lia)) as (Hd & _ & _).
  rewrite float_of_string_body.
  - now rewrite (split_exponent_e _ _ Hm), number_digits, exponent_text.
  - rewrite append_assoc. now apply starts_digit_append.
  - rewrite forall_chars_append, (mantchar_numchar _ Hm). cbn [forall_chars].
    rewrite !forall_chars_append.
    rewrite (mantchar_numchar _ (digits_mantchar _ Hd)).
    destruct (ex <? 0), (Z.abs ex <? 10); reflexivity.
Qed.

(** The rendering of a decimal reads back, through [float], as the
    number nearest to the decimal. *)
Lemma render_reads_back (neg : bool) (c sc : Z) :
  0 < c -> contains "." (render c sc) = true ->
  float_of_string (sign_text neg ++ render c sc) = Ok (of_decimal neg c sc).
Proof.
  intros Hc Hdot.
  destruct (stripped_digits c Hc) as (j & Hall & Hd & Hne & Hcv & Hpos).
  assert (decimal c sc == decimal (dval (rstrip_zeros (digits c))) (sc + Z.of_nat j))%Q
    as Ec.
  { rewrite <- decimal_shift by lia. unfold decimal. now rewrite <- Hcv. }
  assert (forall v ee, 0 < v ->
            (decimal v ee == decimal (dval (rstrip_zeros (digits c))) (sc + Z.of_nat j))%Q ->
            Ok (of_decimal neg v ee) = Ok (of_decimal neg c sc)) as Fin.
  { intros v ee Hv E. f_equal. apply of_decimal_ext; [assumption|assumption|].
    now rewrite E, Ec. }
  clear Ec Hcv. unfold render in *.
  assert (String.length (digits c)
          = (String.length (rstrip_zeros (digits c)) + j)%nat) as Hlen.
  { rewrite Hall at 1. now rewrite length_append, zeros_length. }
  rewrite Hlen in *. clear Hlen Hall.
  generalize dependent (rstrip_zeros (digits c)). intros ds Hdot Hd Hne Hpos Fin.
  set (nd := Z.of_nat (String.length ds)) in *.
  set (decpt := Z.of_nat (String.length ds + j) + sc) in *.
  assert (decpt = nd + Z.of_nat j + sc) as Hdp by (unfold decpt, nd; lia).
  assert (0 < nd) as Hnd.
  { unfold nd. destruct ds; [congruence|]. simpl String.length. lia. }
  assert (dval (zeros 0) = 0) as _ by reflexivity.
  destruct ((decpt <=? -4) || (16 <? decpt)) eqn:Hexp.
  - (* exponent form *)
    assert (decpt - 1 <> 0) as Hx.
    { apply orb_true_iff in Hexp as [H|H]; [apply Z.leb_le in H|apply Z.ltb_lt in H]; lia. }
    destruct ds as [|d0 rest]; [congruence|].
    assert (String.substring 0 1 (String d0 rest) = String d0 "") as E1
      by (simpl; now rewrite substring_0_0).
    assert (String.substring 1 (String.length (String d0 rest) - 1) (String d0 rest)
            = rest) as E2
      by (simpl; rewrite Nat.sub_0_r; apply substring_all).
    rewrite E1, E2 in *.
    unfold all_digits in Hd. cbn [forall_chars] in Hd.
    apply andb_true_iff in Hd as [Hd0 Hrest].
    destruct (String.eqb_spec rest "") as [->|Nrest].
    + exfalso. revert Hdot. rewrite !contains_append.
      destruct (digits_spec (Z.abs (decpt - 1)) ltac:(lia)) as (Hdg & _ & _).
      rewrite (all_digits_no "." _ eq_refl Hdg).
      cbn [contains]. rewrite orb_false_r.
      assert (Ascii.eqb "." d0 = false) as ->.
      { destruct (Ascii.eqb_spec "." d0) as [<-|]; [discriminate Hd0|reflexivity]. }
      destruct (_ <? 0), (_ <? 10); discriminate.
    + rewrite <- (append_assoc (String d0 "")).
      change ("." ++ rest) with (String "." rest).
      change ("e" ++ ?x) with (String "e" x).
      rewrite read_exponent_form; try assumption; try discriminate.
      * apply Fin; [exact Hpos|].
        replace (decpt - 1 - Z.of_nat (String.length rest)) with (sc + Z.of_nat j);
          [reflexivity|].
        unfold nd in Hdp. simpl String.length in Hdp. lia.
      * unfold all_digits. cbn [forall_chars]. now rewrite Hd0.
  - apply orb_false_iff in Hexp as [H1 H2].
    apply Z.leb_gt in H1. apply Z.ltb_ge in H2.
    destruct (Z.leb_spec decpt 0) as [Hz|Hz].
    + (* zeros after the point *)
      change ("0." ++ ?x) with ("0" ++ String "." x).
      set (t := Z.to_nat (- decpt)).
      assert (dval ("0" ++ zeros t ++ ds) = dval ds) as Hv.
      { rewrite !dval_app, dval_zeros. change (dval "0") with 0. lia. }
      rewrite read_positional; try reflexivity; try discriminate.
      * rewrite Hv. apply Fin; [exact Hpos|].
        replace (- Z.of_nat (String.length (zeros t ++ ds))) with (sc + Z.of_nat j);
          [reflexivity|].
        rewrite length_append, zeros_length. unfold t, nd in *. lia.
      * unfold all_digits in *. now rewrite forall_chars_append, zeros_digits.
      * intros E. apply (f_equal String.length) in E.
        rewrite length_append in E. simpl in E. unfold nd in Hnd. lia.
    + destruct (Z.leb_spec nd decpt) as [Hi|Hi].
      * (* an integer *)
        set (t := Z.to_nat (decpt - nd)).
        rewrite <- (append_assoc ds). change ".0" with (String "." "0").
        assert (dval ((ds ++ zeros t) ++ "0") = dval ds * 10 ^ (Z.of_nat t + 1)) as Hv.
        { rewrite !dval_app, zeros_length, dval_zeros. change (dval "0") with 0.
          simpl String.length. rewrite Z.pow_add_r by lia.
          change (10 ^ Z.of_nat 1) with 10. change (10 ^ 1) with 10. lia. }
        assert (0 < 10 ^ (Z.of_nat t + 1)) by (apply Z.pow_pos_nonneg; lia).
        rewrite read_positional; try reflexivity; try discriminate.
        -- rewrite Hv. apply Fin; [nia|].
           rewrite decimal_shift by lia. simpl String.length.
           replace (- Z.of_nat 1 + (Z.of_nat t + 1)) with (sc + Z.of_nat j);
             [reflexivity|]. unfold t. lia.
        -- unfold all_digits in *. now rewrite forall_chars_append, zeros_digits, Hd.
        -- intros E. apply (f_equal String.length) in E.
           rewrite length_append in E. simpl in E. unfold nd in Hnd. lia.
      * (* digits on both sides of the point *)
        destruct (split_at ds (Z.to_nat decpt)) as (a & b & -> & Ha);
          [unfold nd in Hi; lia|].
        unfold nd in *. rewrite length_append in *.
        assert (Z.to_nat (Z.of_nat (String.length a + String.length b) - decpt)
                = String.length b) as Hb by lia.
        rewrite Hb. rewrite <- Ha at 2. rewrite substring_skip.
        rewrite <- Ha. rewrite substring_take.
        change ("." ++ b) with (String "." b).
        unfold all_digits in Hd. rewrite forall_chars_append in Hd.
        apply andb_true_iff in Hd as [Hda Hdb].
        rewrite read_positional; try assumption.
        -- apply Fin; [exact Hpos|].
           replace (- Z.of_nat (String.length b)) with (sc + Z.of_nat j);
             [reflexivity|]. lia.
        -- intros ->. simpl String.length in *. lia.
        -- intros ->. simpl String.length in *. lia.
Qed.

(** *** What [float] returns is a binary64 number *)

Lemma digitpart_go_nonneg (s : string) (acc n : Z) (b : bool) (v k : Z) :
  0 <= acc -> digitpart_go s acc n b = Some (v, k) -> 0 <= v.
Proof.
  revert acc n b. induction s as [|x s IH]; intros acc n b Ha; simpl.
  - destruct b; [|discriminate]. intros H. inversion H; subst. exact Ha.
  - destruct (isdigit x) eqn:Hx.
    + apply IH. unfold isdigit in Hx. apply andb_true_iff in Hx as [Hx _].
      apply Z.leb_le in Hx. lia.
    + destruct (Ascii.eqb x "_" && b); [now apply IH|discriminate].
Qed.

Lemma number_nonneg (s : string) (m k : Z) : number s = Some (m, k) -> 0 <= m.
Proof.
  assert (forall t v j, digitpart t = Some (v, j) -> 0 <= v) as D.
  { intros t v j. unfold digitpart. now apply digitpart_go_nonneg. }
  unfold number. destruct (split1 "." s) as [[ip fp]|].
  - destruct ip as [|a ip], fp as [|b fp]; try discriminate.
    + apply D.
    + destruct (digitpart (String a ip)) as [[v j]|] eqn:E; [|discriminate].
      intros H. inversion H; subst. now apply D in E.
    + destruct (digitpart (String a ip)) as [[v j]|] eqn:E1; [|discriminate].
      destruct (digitpart (String b fp)) as [[w i]|] eqn:E2; [|discriminate].
      intros H. injection H as Hm Hk. rewrite <- Hm.
      apply D in E1. apply D in E2.
      pose proof (Z.pow_nonneg 10 i ltac:(lia)). nia.
  - destruct (digitpart s) as [[v j]|] eqn:E; [|discriminate].
    intros H. inversion H; subst. now apply D in E.
Qed.

Lemma float_of_string_valid (s : string) (f : float) :
  float_of_string s = Ok f -> valid_binary prec emax f = true.
Proof.
  unfold float_of_string. destruct (sign_part (strip s)) as [neg r].
  destruct (_ || _); [now intros [= <-]|].
  destruct (String.eqb _ _); [now intros [= <-]|].
  destruct (split_exponent r) as [mant ex].
  destruct (number mant) as [[m k]|] eqn:Hn; [|discriminate].
  apply number_nonneg in Hn.
  destruct ex as [x|].
  - destruct (exponent x); [|discriminate].
    intros [= <-]. now apply of_decimal_valid.
  - intros [= <-]. now apply of_decimal_valid.
Qed.

(** *** A rendered number reads back as itself *)

Lemma pack_sign (neg : bool) (M e : Z) (m : positive) (e' : Z) :
  pack false M e = S754_finite false m e' ->
  pack neg M e = S754_finite neg m e'.
Proof.
  unfold pack. destruct M; try discriminate.
  destruct (_ <=? _); [|discriminate]. now intros [= -> ->].
Qed.

Lemma of_decimal_sign (neg : bool) (c sc : Z) (m : positive) (e : Z) :
  0 < c ->
  of_decimal false c sc = S754_finite false m e ->
  of_decimal neg c sc = S754_finite neg m e.
Proof.
  intros Hc. destruct (binade_exists _ (decimal_pos c sc Hc)) as [g Hg].
  rewrite (of_decimal_round false c sc _ g Hc ltac:(reflexivity) Hg),
    (of_decimal_round neg c sc _ g Hc ltac:(reflexivity) Hg).
  unfold round_at. destruct (_ =? _); apply pack_sign.
Qed.

(** [float(repr(x))] is [x] for every finite binary64 number whose
    rendering has a ".". *)
Lemma float_str_float (s : bool) (m : positive) (e : Z) :
  bounded prec emax m e = true ->
  contains "." (str_float (S754_finite s m e)) = true ->
  float_of_string (str_float (S754_finite s m e)) = Ok (S754_finite s m e).
Proof.
  intros Hb. cbn [str_float]. fold (sign_text s).
  rewrite repr_finite_render. cbv zeta.
  destruct (shortest_reads_back m e Hb) as (c & sc & Hs & Hc & Hr).
  cbv zeta in Hs. rewrite Hs. cbn [fst snd].
  intros Hdot. rewrite contains_append in Hdot.
  assert (contains "." (sign_text s) = false) as E by (destruct s; reflexivity).
  rewrite E in Hdot. simpl in Hdot.
  rewrite (render_reads_back s c sc Hc Hdot). f_equal.
  now apply of_decimal_sign.
Qed.

(** A real that coercion produced is a binary64 number. *)
Lemma str_to_number_valid (s : string) (f : float) :
  str_to_number s = Ok (VReal f) -> valid_binary prec emax f = true.
Proof.
  rewrite str_to_number_eq. unfold after_ValueError. intros H.
  destruct (contains "." s).
  - destruct (float_of_string s) as [f'|] eqn:Hf.
    + injection H as <-. now apply float_of_string_valid in Hf.
    + destruct (String.eqb _ _); [discriminate|].
      destruct (String.eqb _ _); discriminate.
  - destruct (int s); [discriminate|].
    destruct (String.eqb _ _); [discriminate|].
    destruct (String.eqb _ _); discriminate.
Qed.

(** C8 as stated does not hold: "10000000000000000.0" is coerced to the
    real 1e16, whose rendering "1e+16" has no "." and is coerced to
    text. *)
Lemma coerce_str_not_idempotent :
  ~ (forall s v, str_to_number s = Ok v -> str_to_number (str v) = Ok v).
Proof.
  intros H.
  specialize (H "10000000000000000.0" (VReal (S754_finite false 5000000000000000 1))).
  assert (str_to_number "10000000000000000.0"
          = Ok (VReal (S754_finite false 5000000000000000 1))) as H0
    by evaluate.
  assert (str_to_number (str (VReal (S754_finite false 5000000000000000 1)))
          = Ok (VStr "1e+16")) as H1
    by evaluate.
  specialize (H H0). rewrite H1 in H. discriminate H.
Qed.

(** C8, amended.  Coercing the rendering of a coerced value gives the
    value again when it is an integer, a boolean or a text, and when it
    is a real whose rendering has a ".".  A real whose rendering has no
    "." (exponent form with one digit such as 1e+16, or inf) comes back
    as the text of the rendering. *)
Theorem coerce_str_idempotent (s : string) (v : value) :
  str_to_number s = Ok v ->
  match v with
  | VReal f =>
      if contains "." (str v) then str_to_number (str v) = Ok v
      else str_to_number (str v) = Ok (VStr (str v))
  | _ => str_to_number (str v) = Ok v
  end.
Proof.
  intros Hs. destruct v as [z|f|b|t]; cbn [str].
  - destruct (int_str_int z) as [Hi Hd].
    now rewrite str_to_number_eq, Hd, Hi.
  - destruct (contains "." (str_float f)) eqn:Hd;
      [|now apply dotless_float_is_text].
    apply str_to_number_valid in Hs.
    rewrite str_to_number_eq, Hd.
    destruct f as [sg|sg| |sg m e].
    + destruct sg; reflexivity.
    + destruct sg; discriminate Hd.
    + discriminate Hd.
    + now rewrite (float_str_float sg m e Hs Hd).
  - destruct b; reflexivity.
  - pose proof (str_to_number_VStr _ _ Hs) as ->. exact Hs.
Qed.

Lemma coerce_str_idempotent_witness :
  str_to_number "3.0" = Ok (VReal (S754_finite false 6755399441055744 (-51)))
  /\ contains "." (str (VReal (S754_finite false 6755399441055744 (-51)))) = true
  /\ str_to_number (str (VReal (S754_finite false 6755399441055744 (-51))))
     = Ok (VReal (S754_finite false 6755399441055744 (-51))).
Proof.
  assert (str_to_number "3.0" = Ok (VReal (S754_finite false 6755399441055744 (-51))))
    as Hs by (vm_compute; reflexivity).
  assert (contains "." (str (VReal (S754_finite false 6755399441055744 (-51)))) = true)
    as Hd by (vm_compute; reflexivity).
  split; [exact Hs|]. split; [exact Hd|].
  generalize (coerce_str_idempotent "3.0" _ Hs). cbv beta iota.
  rewrite Hd. exact (fun H => H).
Defined.

(** The renderings of some reals that coercion produces. *)
Example renderings :
  List.map (fun s => match str_to_number s with
                     | Ok v => str v
                     | Raise _ => EmptyString
                     end)
    ["3.0"; "0.1"; "123.456"; "1000000000000000.0"; "10000000000000000.0";
     "0.0001"; "0.00001"; "1.5e-7"; "1.0e400"; "-2.50"]
  = ["3.0"; "0.1"; "123.456"; "1000000000000000.0"; "1e+16";
     "0.0001"; "1e-05"; "1.5e-07"; "inf"; "-2.5"].
Proof. evaluate. Qed.

(** * The rest of the client, and the sample script *)

Import Script.

(** ** Tokens *)

Lemma pieces_cons (s : string) : exists p ps, pieces s = p :: ps.
Proof.
  pose proof (pieces_nonempty s) as H.
  destruct (pieces s) as [|p ps]; [congruence|eauto].
Qed.

Lemma tokens_blank (c : ascii) (s : string) :
  isspace c = true -> tokens (String c s) = tokens s.
Proof. intros Hc. unfold tokens. simpl. now rewrite Hc. Qed.

Lemma pieces_app (w s : string) :
  (forall c, isspace c = true -> contains c w = false) ->
  pieces (w ++ s) =
  match pieces s with
  | p :: ps => (w ++ p) :: ps
  | [] => []
  end.
Proof.
  induction w as [|x w IH]; intros Hw.
  - rewrite append_empty_l. destruct (pieces_cons s) as (p & ps & ->).
    now rewrite append_empty_l.
  - rewrite append_cons. simpl.
    assert (isspace x = false) as Hx.
    { destruct (isspace x) eqn:Hx; [|reflexivity].
      specialize (Hw x Hx). simpl in Hw. now rewrite Ascii.eqb_refl in Hw. }
    rewrite Hx, IH.
    + destruct (pieces_cons s) as (p & ps & ->). now rewrite append_cons.
    + intros c Hc. specialize (Hw c Hc). simpl in Hw.
      now apply orb_false_iff in Hw as [_ Hw].
Qed.

Lemma tokens_token_blank (w : string) (c : ascii) (s : string) :
  token w -> isspace c = true -> tokens (w ++ String c s) = w :: tokens s.
Proof.
  intros [Hne Hw] Hc. unfold tokens. rewrite (pieces_app _ _ Hw).
  simpl. rewrite Hc, append_empty_r. simpl.
  destruct (String.eqb_spec w ""); [congruence|reflexivity].
Qed.

Lemma tokens_empty : tokens "" = [].
Proof. reflexivity. Qed.

Lemma tokens_join_then (ws : list string) (tl : string) :
  Forall token ws ->
  tokens (join " " ws ++ line_end ++ tl) = (ws ++ tokens tl)%list.
Proof.
  induction 1 as [|w ws Hw Hws IH].
  - reflexivity.
  - destruct ws as [|v ws].
    + simpl join. unfold line_end. rewrite append_cons, append_empty_l.
      now rewrite tokens_token_blank.
    + change (join " " (w :: v :: ws)) with (w ++ " " ++ join " " (v :: ws)).
      rewrite !append_assoc.
      change (" " ++ join " " (v :: ws) ++ line_end ++ tl)
        with (String " " (join " " (v :: ws) ++ line_end ++ tl)).
      now rewrite tokens_token_blank, IH.
Qed.

(** Joining tokens with blanks and splitting again gives the tokens. *)
Lemma tokens_join (ws : list string) :
  Forall token ws -> tokens (join " " ws ++ line_end) = ws.
Proof.
  intros H. pose proof (tokens_join_then ws "" H) as Ht.
  rewrite append_empty_r in Ht. rewrite Ht. apply app_nil_r.
Qed.

(** ** Lines *)

Lemma endswith_append (a p : string) : endswith p (a ++ p) = true.
Proof.
  unfold endswith. rewrite length_append.
  replace (String.length a + String.length p - String.length p)%nat
    with (String.length a) by lia.
  rewrite substring_skip, String.eqb_refl.
  apply andb_true_iff. split; [apply Nat.leb_le; lia|reflexivity].
Qed.

(** ** [_readline] *)

Lemma readline_go_frame (chunks : list string) (s line : string) (rest : list string) :
  _readline_go chunks s = (Some line, rest) ->
  exists consumed,
    chunks = (consumed ++ rest)%list
    /\ consumed <> []
    /\ line = s ++ joined consumed
    /\ Forall (fun c => c <> "") consumed
    /\ endswith line_end line = true
    /\ forall pre suf,
         consumed = (pre ++ suf)%list -> pre <> [] -> suf <> [] ->
         endswith line_end (s ++ joined pre) = false.
Proof.
  revert s. induction chunks as [|rdata chunks IH]; intros s; simpl; [discriminate|].
  destruct rdata as [|c r]; [discriminate|].
  change (String.length (String c r) =? 0)%nat with false. cbv iota.
  destruct (endswith line_end (s ++ String c r)) eqn:Hend.
  - intros [= <- <-]. exists [String c r]. cbn [joined].
    rewrite append_empty_r. repeat split; try assumption; try discriminate.
    + constructor; [discriminate|constructor].
    + intros pre suf Hps Hp Hs.
      destruct pre as [|x [|y pre]]; [congruence| |discriminate Hps].
      simpl in Hps. injection Hps as _ Hps. now destruct suf.
  - intros H. apply IH in H as (consumed & -> & Hne & -> & Hall & He & Hpre).
    exists (String c r :: consumed). cbn [joined].
    rewrite <- append_assoc. repeat split; try assumption; try discriminate.
    + constructor; [discriminate|assumption].
    + intros pre suf Hps Hp Hs.
      destruct pre as [|x pre]; [congruence|].
      simpl in Hps. injection Hps as Hx Hps. subst x. cbn [joined].
      destruct pre as [|y pre].
      * cbn [joined]. now rewrite append_empty_r.
      * rewrite <- append_assoc. apply (Hpre (y :: pre) suf); [assumption|discriminate|assumption].
Qed.

(** X1.  A line that [_readline] returns is made of whole [recv]
    results: it is the first results of the connection put together,
    none of them empty; it ends with the line terminator, and it is the
    shortest such run of results.  What was sent is left as it was. *)
Theorem readline_frame (sock sock' : socket) (line : string) :
  _readline sock = (Some line, sock') ->
  exists consumed,
    rx sock = (consumed ++ rx sock')%list
    /\ consumed <> []
    /\ line = joined consumed
    /\ Forall (fun c => c <> "") consumed
    /\ endswith line_end line = true
    /\ (forall pre suf,
          consumed = (pre ++ suf)%list -> pre <> [] -> suf <> [] ->
          endswith line_end (joined pre) = false)
    /\ tx sock' = tx sock.
Proof.
  unfold _readline.
  destruct (_readline_go (rx sock) "") as [r rest] eqn:Hr.
  intros [= -> <-]. simpl.
  apply readline_go_frame in Hr as (consumed & H1 & H2 & H3 & H4 & H5 & H6).
  exists consumed. repeat split; assumption.
Qed.

Lemma readline_frame_witness :
  let sock := {| rx := ["OK: 1"; " 2" ++ line_end; "OK: 3" ++ line_end]; tx := [] |} in
  let sock' := {| rx := ["OK: 3" ++ line_end]; tx := [] |} in
  _readline sock = (Some ("OK: 1 2" ++ line_end), sock')
  /\ exists consumed,
       rx sock = (consumed ++ rx sock')%list
       /\ consumed <> []
       /\ "OK: 1 2" ++ line_end = joined consumed
       /\ Forall (fun c => c <> "") consumed
       /\ endswith line_end ("OK: 1 2" ++ line_end) = true
       /\ (forall pre suf,
             consumed = (pre ++ suf)%list -> pre <> [] -> suf <> [] ->
             endswith line_end (joined pre) = false)
       /\ tx sock' = tx sock.
Proof.
  intros sock sock'.
  assert (_readline sock = (Some ("OK: 1 2" ++ line_end), sock')) as H
    by (vm_compute; reflexivity).
  split; [exact H|]. exact (readline_frame sock sock' _ H).
Defined.

Lemma readline_first_chunk (c : string) (rest sent : list string) :
  c <> "" -> endswith line_end c = true ->
  _readline {| rx := c :: rest; tx := sent |}
  = (Some c, {| rx := rest; tx := sent |}).
Proof.
  intros Hc He. unfold _readline. simpl.
  destruct c as [|a c]; [congruence|].
  change ("" ++ String a c) with (String a c).
  change (String.length (String a c) =? 0)%nat with false. cbv iota.
  now rewrite He.
Qed.

Lemma is_token_true (w : string) : is_token w = true -> token w.
Proof.
  unfold is_token. intros H. apply andb_true_iff in H as [Hne Hall].
  split.
  - intros ->. discriminate Hne.
  - clear Hne. induction w as [|x w IH]; intros c Hc; simpl; [reflexivity|].
    simpl in Hall. apply andb_true_iff in Hall as [Hx Hall].
    rewrite (IH Hall c Hc).
    destruct (Ascii.eqb_spec c x) as [->|_]; [|reflexivity].
    rewrite Hc in Hx. discriminate Hx.
Qed.

Lemma token_OK_colon : token "OK:".
Proof. now apply is_token_true. Qed.

(** X2.  A [recv] result that holds two responses is taken as one line:
    [_readline] returns it whole, and [_parse_response] gives the fields
    of the first response, then the marker of the second as a field,
    then the fields of the second. *)
Theorem coalesced_responses (ws1 ws2 : list string) (rest : list string)
    (sent : list string) :
  Forall token ws1 -> Forall token ws2 ->
  let chunk := ("OK: " ++ join " " ws1 ++ line_end)
               ++ ("OK: " ++ join " " ws2 ++ line_end) in
  _readline {| rx := chunk :: rest; tx := sent |}
  = (Some chunk, {| rx := rest; tx := sent |})
  /\ _parse_response (Some chunk) = Ok (ws1 ++ "OK:" :: ws2)%list.
Proof.
  intros H1 H2 chunk. split.
  - apply readline_first_chunk; [discriminate|].
    unfold chunk. rewrite <- !append_assoc. apply endswith_append.
  - unfold _parse_response.
    assert (split1 ":" chunk
            = Some ("OK", " " ++ join " " ws1 ++ line_end
                          ++ "OK: " ++ join " " ws2 ++ line_end)) as Hs.
    { apply split1_Some. split; [|reflexivity].
      unfold chunk. rewrite !append_assoc. reflexivity. }
    rewrite Hs. simpl negb. cbv iota. rewrite split_tokens.
    change (" " ++ join " " ws1 ++ line_end ++ "OK: " ++ join " " ws2 ++ line_end)
      with (String " " (join " " ws1 ++ line_end ++ "OK: " ++ join " " ws2 ++ line_end)).
    rewrite tokens_blank by reflexivity.
    rewrite (tokens_join_then ws1 _ H1). do 2 f_equal.
    change ("OK: " ++ join " " ws2 ++ line_end)
      with ("OK:" ++ String " " (join " " ws2 ++ line_end)).
    rewrite tokens_token_blank by (apply token_OK_colon || reflexivity).
    now rewrite tokens_join.
Qed.

Lemma coalesced_responses_witness :
  Forall token ["2"; "7.5"] /\ Forall token ["0"; "8"]
  /\ _parse_response
       (Some (("OK: " ++ join " " ["2"; "7.5"] ++ line_end)
              ++ ("OK: " ++ join " " ["0"; "8"] ++ line_end)))
     = Ok ["2"; "7.5"; "OK:"; "0"; "8"].
Proof.
  assert (Forall token ["2"; "7.5"]) as H1
    by (repeat constructor; apply is_token_true; reflexivity).
  assert (Forall token ["0"; "8"]) as H2
    by (repeat constructor; apply is_token_true; reflexivity).
  split; [exact H1|]. split; [exact H2|].
  exact (proj2 (coalesced_responses _ _ [] [] H1 H2)).
Defined.

(** ** The four operations *)

Lemma readline_after_send_state (data : string) (sock : socket) :
  snd (_readline (send data sock))
  = {| rx := rx (snd (_readline sock)); tx := (tx sock ++ [data])%list |}.
Proof.
  unfold _readline, send. simpl. now destruct (_readline_go (rx sock) "").
Qed.

Lemma call_eq (method : string) (args : list value) (sock : socket) :
  fst (call method args sock)
  = (raw <- _parse_response (fst (_readline sock)) ;;
     fields <- _map_str_to_number raw ;;
     Ok (shape method fields)).
Proof.
  unfold call. rewrite <- (readline_after_send (call_line method args) sock).
  unfold call_line. now destruct (_readline _).
Qed.

Lemma get_eq (prop : string) (sock : socket) :
  fst (get prop sock)
  = (raw <- _parse_response (fst (_readline sock)) ;;
     fields <- _map_str_to_number raw ;;
     if negb (length fields =? 1)%nat
     then Raise (TroughError (unexpected prop fields))
     else getitem fields 0).
Proof.
  unfold get. rewrite <- (readline_after_send (get_line prop) sock).
  unfold get_line. now destruct (_readline _).
Qed.

Lemma set_eq (prop : string) (v : value) (sock : socket) :
  fst (set prop v sock)
  = (raw <- _parse_response (fst (_readline sock)) ;;
     fields <- _map_str_to_number raw ;;
     if negb (length fields =? 0)%nat
     then Raise (TroughError (unexpected prop fields))
     else Ok fields).
Proof.
  unfold set. rewrite <- (readline_after_send (set_line prop v) sock).
  unfold set_line. now destruct (_readline _).
Qed.

Lemma ctrl_eq (name : string) (v : value) (sock : socket) :
  fst (ctrl name v sock)
  = (raw <- _parse_response (fst (_readline sock)) ;;
     _map_str_to_number raw).
Proof.
  unfold ctrl. rewrite <- (readline_after_send (ctrl_line name v) sock).
  unfold ctrl_line. destruct (_readline _) as [r s']. simpl.
  destruct (_parse_response r); simpl; [|reflexivity].
  now destruct (_map_str_to_number a).
Qed.

Lemma parse_OK_line (ws : list string) :
  Forall token ws ->
  _parse_response (Some ("OK: " ++ join " " ws ++ line_end)) = Ok ws.
Proof.
  intros Hws. unfold _parse_response.
  assert (split1 ":" ("OK: " ++ join " " ws ++ line_end)
          = Some ("OK", " " ++ join " " ws ++ line_end)) as Hs.
  { apply split1_Some. split; reflexivity. }
  rewrite Hs. simpl negb. cbv iota. rewrite split_tokens.
  change (" " ++ join " " ws ++ line_end)
    with (String " " (join " " ws ++ line_end)).
  rewrite tokens_blank by reflexivity. now rewrite tokens_join.
Qed.

(** X3.  What the server sends as "OK: " followed by tokens separated
    by single blanks and the line terminator comes back from [ctrl] as
    the coercions of exactly these tokens, in order, none added or
    lost. *)
Theorem ctrl_round_trip (name : string) (v : value) (ws : list string)
    (rest sent : list string) :
  Forall token ws ->
  _parse_response (Some ("OK: " ++ join " " ws ++ line_end)) = Ok ws
  /\ exists fields,
       fst (ctrl name v {| rx := ("OK: " ++ join " " ws ++ line_end) :: rest;
                           tx := sent |}) = Ok fields
       /\ Forall2 (fun w f => str_to_number w = Ok f) ws fields.
Proof.
  intros Hws. split; [now apply parse_OK_line|].
  rewrite ctrl_eq.
  rewrite readline_first_chunk;
    [|discriminate|rewrite <- append_assoc; apply endswith_append].
  simpl fst. rewrite (parse_OK_line ws Hws). simpl.
  clear. unfold _map_str_to_number.
  induction ws as [|w ws (fields & Hf & Hall)]; simpl; [exists []; split; [reflexivity|constructor]|].
  destruct (str_to_number_total w) as [f Hw]. rewrite Hw. simpl. rewrite Hf. simpl.
  exists (f :: fields). split; [reflexivity|]. now constructor.
Qed.

Lemma ctrl_round_trip_witness :
  Forall token ["0"; "1.5"; "true"; "abc"]
  /\ exists fields,
       fst (ctrl "verbosity" (VInt 1)
              {| rx := ["OK: " ++ join " " ["0"; "1.5"; "true"; "abc"] ++ line_end];
                 tx := [] |}) = Ok fields
       /\ Forall2 (fun w f => str_to_number w = Ok f)
            ["0"; "1.5"; "true"; "abc"] fields.
Proof.
  assert (Forall token ["0"; "1.5"; "true"; "abc"]) as H
    by (repeat constructor; apply is_token_true; reflexivity).
  split; [exact H|].
  exact (proj2 (ctrl_round_trip "verbosity" (VInt 1) _ [] [] H)).
Defined.

Lemma map_str_to_number_Forall2 (raw : list string) :
  exists fields,
    _map_str_to_number raw = Ok fields
    /\ Forall2 (fun w f => str_to_number w = Ok f) raw fields.
Proof.
  unfold _map_str_to_number.
  induction raw as [|w raw (fields & Hf & Hall)]; simpl;
    [exists []; split; [reflexivity|constructor]|].
  destruct (str_to_number_total w) as [f Hw]. rewrite Hw. simpl. rewrite Hf. simpl.
  exists (f :: fields). split; [reflexivity|]. now constructor.
Qed.

(** X4.  [get] returns the coercion of the token when the response has
    exactly one; with none, or with two or more, it raises [TroughError]
    with a message that names the property and shows the coerced
    fields. *)
Theorem get_outcome (prop : string) (sock : socket) (raw : list string) :
  _parse_response (fst (_readline sock)) = Ok raw ->
  (forall t, raw = [t] -> fst (get prop sock) = str_to_number t)
  /\ (length raw <> 1%nat ->
      exists fields,
        Forall2 (fun w f => str_to_number w = Ok f) raw fields
        /\ fst (get prop sock)
           = Raise (TroughError
                      ("Property '" ++ prop ++ "' returned unexpected results:"
                       ++ line_end ++ str_tuple fields))).
Proof.
  intros Hp. rewrite get_eq, Hp. simpl. split.
  - intros t ->. unfold _map_str_to_number. simpl.
    destruct (str_to_number_total t) as [f Hf]. rewrite Hf. reflexivity.
  - intros Hlen. destruct (map_str_to_number_Forall2 raw) as (fields & Hf & Hall).
    exists fields. split; [assumption|]. rewrite Hf. simpl.
    apply Forall2_length in Hall.
    destruct (Nat.eqb_spec (length fields) 1); [congruence|reflexivity].
Qed.

Lemma get_outcome_witness :
  let sock := {| rx := ["OK: 1 2" ++ line_end]; tx := [] |} in
  _parse_response (fst (_readline sock)) = Ok ["1"; "2"]
  /\ length ["1"; "2"] <> 1%nat
  /\ exists fields,
       Forall2 (fun w f => str_to_number w = Ok f) ["1"; "2"] fields
       /\ fst (get "ComPort" sock)
          = Raise (TroughError
                     ("Property '" ++ "ComPort" ++ "' returned unexpected results:"
                      ++ line_end ++ str_tuple fields)).
Proof.
  intros sock.
  assert (_parse_response (fst (_readline sock)) = Ok ["1"; "2"]) as H
    by (vm_compute; reflexivity).
  assert (length ["1"; "2"] <> 1%nat) as Hl by (simpl; lia).
  split; [exact H|]. split; [exact Hl|].
  exact (proj2 (get_outcome "ComPort" sock _ H) Hl).
Defined.

(** X5.  [set] returns the empty tuple when the response has no field,
    and raises [TroughError] naming the property and showing the fields
    as soon as the response has one, a lone status code included. *)
Theorem set_outcome (prop : string) (v : value) (sock : socket) (raw : list string) :
  _parse_response (fst (_readline sock)) = Ok raw ->
  (raw = [] -> fst (set prop v sock) = Ok [])
  /\ (raw <> [] ->
      exists fields,
        Forall2 (fun w f => str_to_number w = Ok f) raw fields
        /\ fst (set prop v sock)
           = Raise (TroughError
                      ("Property '" ++ prop ++ "' returned unexpected results:"
                       ++ line_end ++ str_tuple fields))).
Proof.
  intros Hp. rewrite set_eq, Hp. simpl. split.
  - intros ->. reflexivity.
  - intros Hne. destruct (map_str_to_number_Forall2 raw) as (fields & Hf & Hall).
    exists fields. split; [assumption|]. rewrite Hf. simpl.
    apply Forall2_length in Hall.
    destruct fields; [destruct raw; [congruence|discriminate Hall]|reflexivity].
Qed.

Lemma set_outcome_witness :
  let sock := {| rx := ["OK: 0" ++ line_end]; tx := [] |} in
  _parse_response (fst (_readline sock)) = Ok ["0"]
  /\ ["0"] <> []
  /\ exists fields,
       Forall2 (fun w f => str_to_number w = Ok f) ["0"] fields
       /\ fst (set "ComPort" (VInt 3) sock)
          = Raise (TroughError
                     ("Property '" ++ "ComPort" ++ "' returned unexpected results:"
                      ++ line_end ++ str_tuple fields)).
Proof.
  intros sock.
  assert (_parse_response (fst (_readline sock)) = Ok ["0"]) as H
    by (vm_compute; reflexivity).
  assert (["0"] <> ([] : list string)) as Hl by discriminate.
  split; [exact H|]. split; [exact Hl|].
  exact (proj2 (set_outcome "ComPort" (VInt 3) sock _ H) Hl).
Defined.

Lemma parse_not_OK (line : string) :
  not_OK line -> _parse_response (Some line) = Raise (TroughError line).
Proof.
  unfold _parse_response. intros [Hc|(ok & body & Hl & Hc & Hno)].
  - apply split1_None in Hc. now rewrite Hc.
  - assert (split1 ":" line = Some (ok, body)) as Hs
      by (apply split1_Some; now split).
    rewrite Hs. destruct (startswith "OK" ok) eqn:Hok; [|reflexivity].
    apply startswith_OK in Hok as [r ->]. now destruct (Hno r).
Qed.

(** X6.  A response that is not a success makes each of the four
    operations raise [TroughError] with the whole line as its message,
    line terminator included, whatever was asked. *)
Theorem error_response_verbatim (sock : socket) (line : string) :
  fst (_readline sock) = Some line ->
  not_OK line ->
  (forall method args, fst (call method args sock) = Raise (TroughError line))
  /\ (forall prop, fst (get prop sock) = Raise (TroughError line))
  /\ (forall prop v, fst (set prop v sock) = Raise (TroughError line))
  /\ (forall name v, fst (ctrl name v sock) = Raise (TroughError line)).
Proof.
  intros Hr Hn. apply parse_not_OK in Hn.
  repeat split; intros;
    rewrite ?call_eq, ?get_eq, ?set_eq, ?ctrl_eq, Hr, Hn; reflexivity.
Qed.

Lemma error_response_verbatim_witness :
  let sock := {| rx := ["ERROR: unknown"; " command" ++ line_end]; tx := [] |} in
  fst (_readline sock) = Some ("ERROR: unknown command" ++ line_end)
  /\ not_OK ("ERROR: unknown command" ++ line_end)
  /\ fst (get "CurrentSpeed" sock)
     = Raise (TroughError ("ERROR: unknown command" ++ line_end)).
Proof.
  intros sock.
  assert (fst (_readline sock) = Some ("ERROR: unknown command" ++ line_end)) as Hr
    by (vm_compute; reflexivity).
  assert (not_OK ("ERROR: unknown command" ++ line_end)) as Hn.
  { right. exists "ERROR", (" unknown command" ++ line_end).
    split; [reflexivity|]. split; [reflexivity|]. intros r. discriminate. }
  split; [exact Hr|]. split; [exact Hn|].
  exact (proj1 (proj2 (error_response_verbatim sock _ Hr Hn)) "CurrentSpeed").
Defined.

(** Each operation sends exactly one line, whether it then succeeds or
    raises, and takes from the connection exactly what one [_readline]
    takes. *)
Lemma operation_state (sock : socket) :
  let after line :=
    {| rx := rx (snd (_readline sock)); tx := (tx sock ++ [line])%list |} in
  (forall method args,
     snd (call method args sock) = after (call_line method args))
  /\ (forall prop, snd (get prop sock) = after (get_line prop))
  /\ (forall prop v, snd (set prop v sock) = after (set_line prop v))
  /\ (forall name v, snd (ctrl name v sock) = after (ctrl_line name v)).
Proof.
  intros after. unfold after.
  repeat split; intros;
    unfold call, get, set, ctrl, call_line, get_line, set_line, ctrl_line;
    match goal with
    | |- context [_readline (send ?d sock)] =>
        rewrite <- (readline_after_send_state d sock);
        destruct (_readline (send d sock)); reflexivity
    end.
Qed.

Lemma call_state (method : string) (args : list value)
    (sock : socket) :
  snd (call method args sock)
  = {| rx := rx (snd (_readline sock));
       tx := (tx sock ++ [call_line method args])%list |}.
Proof.
  unfold call, call_line.
  rewrite <- (readline_after_send_state _ sock).
  now destruct (_readline (send _ sock)).
Qed.

Lemma token_words :
  token "call" /\ token "get" /\ token "set" /\ token "ctrl" /\ token ":".
Proof. repeat split; try discriminate; now apply is_token_true. Qed.

(** X7.  The line an operation sends splits back on blanks into the
    verb, the colon, the name and the rendered arguments, as long as the
    name and the rendered arguments are tokens. *)
Theorem request_line_tokens :
  (forall method args,
     token method -> Forall token (map str args) ->
     split (call_line method args) = "call" :: ":" :: method :: map str args)
  /\ (forall prop, token prop -> split (get_line prop) = ["get"; ":"; prop])
  /\ (forall prop v, token prop -> token (str v) ->
        split (set_line prop v) = ["set"; ":"; prop; str v])
  /\ (forall name v, token name -> token (str v) ->
        split (ctrl_line name v) = ["ctrl"; ":"; name; str v]).
Proof.
  destruct token_words as (Hcall & Hget & Hset & Hctrl & Hcolon).
  assert (forall verb ws, token verb -> Forall token ws ->
            tokens (verb ++ String " " (":" ++ String " " (join " " ws ++ line_end)))
            = verb :: ":" :: ws) as H.
  { intros verb ws Hv Hws.
    rewrite tokens_token_blank by (assumption || reflexivity).
    rewrite tokens_token_blank by (assumption || reflexivity).
    now rewrite tokens_join. }
  repeat split.
  - intros method args Hm Ha. rewrite split_tokens.
    apply (H "call" (method :: map str args) Hcall). now constructor.
  - intros prop Hp. rewrite split_tokens.
    apply (H "get" [prop] Hget). constructor; [assumption|constructor].
  - intros prop v Hp Hv. rewrite split_tokens.
    assert (Forall token [prop; str v]) as HF
      by (constructor; [assumption|]; constructor; [assumption|constructor]).
    pose proof (H "set" [prop; str v] Hset HF) as Ht.
    simpl join in Ht. rewrite !append_assoc in Ht. exact Ht.
  - intros name v Hn Hv. rewrite split_tokens.
    assert (Forall token [name; str v]) as HF
      by (constructor; [assumption|]; constructor; [assumption|constructor]).
    pose proof (H "ctrl" [name; str v] Hctrl HF) as Ht.
    simpl join in Ht. rewrite !append_assoc in Ht. exact Ht.
Qed.

Lemma request_line_tokens_witness :
  token "SetBarrierSpeed" /\ Forall token (map str [VInt 25; VBool true])
  /\ split (call_line "SetBarrierSpeed" [VInt 25; VBool true])
     = ["call"; ":"; "SetBarrierSpeed"; "25"; "True"].
Proof.
  assert (token "SetBarrierSpeed") as Hm by (apply is_token_true; reflexivity).
  assert (Forall token (map str [VInt 25; VBool true])) as Ha
    by (repeat constructor; apply is_token_true; reflexivity).
  split; [exact Hm|]. split; [exact Ha|].
  exact (proj1 request_line_tokens "SetBarrierSpeed" [VInt 25; VBool true] Hm Ha).
Defined.

(** ** The poll cycle, once more *)

Lemma get_data_except_raises (data : list call_result) (e : exn) :
  exists e', get_data_except data e = Raise e'
             /\ (e' = e \/ (exists msg, e = TroughError msg) /\ e' = TypeError).
Proof.
  destruct e; simpl; eauto 6.
Qed.

Lemma call_tx (method : string) (args : list value) (sock : socket) :
  tx (snd (call method args sock)) = (tx sock ++ [call_line method args])%list.
Proof.
  unfold call, call_line.
  rewrite (surjective_pairing (_readline _)). simpl.
  now rewrite readline_after_send_state.
Qed.

Lemma backlog_tx (sock sock1 : socket) (batch : list call_result) :
  backlog sock batch sock1 ->
  tx sock1 = (tx sock ++ List.repeat (call_line "GetData" []) (length batch))%list.
Proof.
  induction 1 as [sock|sock vals count sock1 batch sock2 Hc _ _ _ IH]; simpl.
  - now rewrite app_nil_r.
  - rewrite IH. pose proof (call_tx "GetData" [] sock) as Ht.
    rewrite Hc in Ht. simpl in Ht. rewrite Ht. now rewrite <- app_assoc.
Qed.

Lemma backlog_snoc (sock sock1 sock2 : socket) batch vals count :
  backlog sock batch sock1 ->
  call "GetData" [] sock1 = (Ok vals, sock2) ->
  subscript vals 0 = Ok count ->
  eq_zero count = false ->
  backlog sock (batch ++ [vals]) sock2.
Proof.
  induction 1 as [sock|sock v c s1 batch s2 Hc Hs Hz _ IH]; intros H1 H2 H3; simpl.
  - eapply backlog_more; eauto. constructor.
  - eapply backlog_more; eauto.
Qed.

Lemma get_data_go_Ok (fuel : nat) (data : list call_result) (sock0 sock sock' : socket)
    (batch : list call_result) :
  backlog sock0 data sock ->
  get_data_go fuel data sock = Some (Ok batch, sock') ->
  exists init last sock1 count,
    batch = (init ++ [last])%list
    /\ backlog sock0 init sock1
    /\ call "GetData" [] sock1 = (Ok last, sock')
    /\ subscript last 0 = Ok count
    /\ eq_zero count = true.
Proof.
  revert data sock. induction fuel as [|fuel IH]; intros data sock Hb; [discriminate|].
  simpl. destruct (call "GetData" [] sock) as [[vals|e] s1] eqn:Hc.
  - destruct (subscript vals 0) as [count|e] eqn:Hs.
    + destruct (eq_zero count) eqn:Hz.
      * intros [= <- <-]. exists data, vals, sock, count. auto.
      * apply IH. eapply backlog_snoc; eauto.
    + intros [= H _]. destruct (get_data_except_raises (data ++ [vals]) e) as (e' & He & _).
      congruence.
  - intros [= H _]. destruct (get_data_except_raises data e) as (e' & He & _).
    congruence.
Qed.

(** X8.  A batch that [get_data] returns is never empty: it is the
    samples of the drains that found more pending (field 0 not 0), oldest
    first, followed by the one sample whose field 0 is 0; and exactly one
    "call : GetData" line was sent for each sample. *)
Theorem get_data_batch_shape (sock sock' : socket) (batch : list call_result) :
  get_data sock = Some (Ok batch, sock') ->
  exists init last sock1 count,
    batch = (init ++ [last])%list
    /\ backlog sock init sock1
    /\ call "GetData" [] sock1 = (Ok last, sock')
    /\ subscript last 0 = Ok count
    /\ eq_zero count = true
    /\ tx sock' = (tx sock ++ List.repeat (call_line "GetData" []) (length batch))%list.
Proof.
  intros Hg. unfold get_data in Hg.
  apply (get_data_go_Ok _ _ sock) in Hg as (init & last & sock1 & count & -> & Hb & Hc & Hs & Hz);
    [|constructor].
  exists init, last, sock1, count. repeat split; try assumption.
  pose proof (call_tx "GetData" [] sock1) as Ht. rewrite Hc in Ht. simpl in Ht.
  rewrite Ht, (backlog_tx _ _ _ Hb), length_app. simpl.
  rewrite <- app_assoc. f_equal.
  rewrite repeat_app. reflexivity.
Qed.

Lemma get_data_batch_shape_witness :
  let sock := {| rx := ["OK: 1 10" ++ line_end; "OK: 0 11" ++ line_end]; tx := [] |} in
  let sock' := {| rx := []; tx := ["call : GetData" ++ line_end; "call : GetData" ++ line_end] |} in
  let batch := [RTuple [VInt 1; VInt 10]; RTuple [VInt 0; VInt 11]] in
  get_data sock = Some (Ok batch, sock')
  /\ exists init last sock1 count,
       batch = (init ++ [last])%list
       /\ backlog sock init sock1
       /\ call "GetData" [] sock1 = (Ok last, sock')
       /\ subscript last 0 = Ok count
       /\ eq_zero count = true
       /\ tx sock' = (tx sock ++ List.repeat (call_line "GetData" []) (length batch))%list.
Proof.
  intros sock sock' batch.
  assert (get_data sock = Some (Ok batch, sock')) as H by (vm_compute; reflexivity).
  split; [exact H|]. exact (get_data_batch_shape sock sock' batch H).
Defined.

Lemma get_data_go_raises fuel data sock e sock' :
  get_data_go fuel data sock = Some (Raise e, sock') ->
  e = TypeError \/ e = AttributeError \/ e = IndexError.
Proof.
  revert data sock. induction fuel as [|fuel IH]; intros data sock; [discriminate|].
  simpl. destruct (call "GetData" [] sock) as [[vals|e0] s1] eqn:Hc.
  - destruct (subscript vals 0) as [count|e0] eqn:Hs.
    + destruct (eq_zero count); [discriminate|apply IH].
    + intros [= H _]. apply subscript_raises in Hs.
      destruct Hs as [-> | ->]; simpl in H; injection H as <-; auto.
  - intros [= H _]. apply call_raises in Hc.
    destruct Hc as [-> | [msg ->]]; simpl in H; injection H as <-; auto.
Qed.

(** X9.  [get_data] never lets out the [PollDataError] it is written
    to raise, nor the [TroughError] of a failed command, whatever the
    connection delivers: the [TroughError] is always caught, and building
    the [PollDataError] fails before it can be raised. *)
Theorem get_data_never_PollDataError (sock sock' : socket) (e : exn) :
  get_data sock = Some (Raise e, sock') ->
  (forall msg data, e <> PollDataError msg data)
  /\ (forall msg, e <> TroughError msg).
Proof.
  intros H. apply get_data_go_raises in H.
  split; intros; destruct H as [-> | [-> | ->]]; discriminate.
Qed.

Lemma get_data_never_PollDataError_witness :
  let sock := {| rx := ["OK: 1 10" ++ line_end; "ERR: busy" ++ line_end]; tx := [] |} in
  let sock' := {| rx := []; tx := ["call : GetData" ++ line_end; "call : GetData" ++ line_end] |} in
  get_data sock = Some (Raise TypeError, sock')
  /\ (forall msg data, TypeError <> PollDataError msg data)
  /\ (forall msg, TypeError <> TroughError msg).
Proof.
  intros sock sock'.
  assert (get_data sock = Some (Raise TypeError, sock')) as H
    by (vm_compute; reflexivity).
  split; [exact H|]. exact (get_data_never_PollDataError sock sock' TypeError H).
Defined.

Lemma poll_raise (p : PollData) (sock' : socket) (e : exn) :
  _error p = false ->
  get_data (trough p) = Some (Raise e, sock') ->
  forall fuel,
    run (S fuel) {| self := p; at_ := AtPoll |}
    = {| self := with_trough sock' p; at_ := Uncaught e |}.
Proof.
  intros He Hg fuel.
  assert (run_step {| self := p; at_ := AtPoll |}
          = Some {| self := with_trough sock' p; at_ := Uncaught e |}) as Hr.
  { unfold run_step, poll. simpl. rewrite He, Hg. simpl.
    destruct e; try reflexivity.
    exfalso. unfold get_data in Hg.
    now apply (get_data_go_no_PollDataError _ _ _ _ _ Hg msg data). }
  simpl. rewrite Hr. now destruct fuel.
Qed.

(** X10.  A drain answered with a success line that has no field at all
    ends the thread: the sample is the empty tuple, its field 0 does not
    exist, and the [IndexError] is not caught by [get_data] nor by
    [run].  The error flag stays clear and no callback is called. *)
Theorem empty_response_ends_thread (p : PollData) (batch : list call_result)
    (sock1 sock2 : socket) :
  _error p = false ->
  backlog (trough p) batch sock1 ->
  call "GetData" [] sock1 = (Ok (RTuple []), sock2) ->
  let ended := {| self := with_trough sock2 p; at_ := Uncaught IndexError |} in
  (forall fuel, run (S fuel) {| self := p; at_ := AtPoll |} = ended)
  /\ _error (self ended) = false
  /\ called (self ended) = called p.
Proof.
  intros He Hb Hc ended. split; [|split; [exact He|reflexivity]].
  apply poll_raise; [assumption|].
  destruct (get_data_backlog _ _ _ Hb) as [fuel ->].
  simpl. now rewrite Hc.
Qed.

Lemma empty_response_ends_thread_witness :
  let sock := {| rx := ["OK:" ++ line_end]; tx := [] |} in
  let sock2 := {| rx := []; tx := ["call : GetData" ++ line_end] |} in
  let p := PollData_init sock (Some 1%Q) true true in
  backlog (trough p) [] sock
  /\ call "GetData" [] sock = (Ok (RTuple []), sock2)
  /\ (forall fuel,
        run (S fuel) {| self := p; at_ := AtPoll |}
        = {| self := with_trough sock2 p; at_ := Uncaught IndexError |})
  /\ _error (with_trough sock2 p) = false
  /\ called (with_trough sock2 p) = [].
Proof.
  intros sock sock2 p.
  assert (backlog (trough p) [] sock) as Hb by constructor.
  assert (call "GetData" [] sock = (Ok (RTuple []), sock2)) as Hc
    by (vm_compute; reflexivity).
  split; [exact Hb|]. split; [exact Hc|].
  exact (empty_response_ends_thread p [] sock sock2 eq_refl Hb Hc).
Defined.

(** X11.  When the peer closes the connection during a poll cycle, the
    thread ends with the [AttributeError] of the read that found no
    line; the samples read so far in the cycle are not delivered, the
    error flag stays clear and the error callback is not called. *)
Theorem closed_connection_ends_thread (p : PollData) (batch : list call_result)
    (sock1 : socket) :
  _error p = false ->
  backlog (trough p) batch sock1 ->
  closed_early "" (rx sock1) ->
  let sock2 := snd (call "GetData" [] sock1) in
  let ended := {| self := with_trough sock2 p; at_ := Uncaught AttributeError |} in
  (forall fuel, run (S fuel) {| self := p; at_ := AtPoll |} = ended)
  /\ _error (self ended) = false
  /\ called (self ended) = called p.
Proof.
  intros He Hb Hcl sock2 ended. split; [|split; [exact He|reflexivity]].
  apply poll_raise; [assumption|].
  destruct (get_data_backlog _ _ _ Hb) as [fuel ->].
  assert (fst (call "GetData" [] sock1) = Raise AttributeError) as Hc.
  { rewrite call_eq. apply readline_None_iff in Hcl. now rewrite Hcl. }
  simpl. unfold sock2. destruct (call "GetData" [] sock1) as [r s2].
  simpl in Hc. now rewrite Hc.
Qed.

Lemma closed_connection_ends_thread_witness :
  let sock := {| rx := ["OK: 1 10" ++ line_end; "OK: 0"]; tx := [] |} in
  let sock1 := {| rx := ["OK: 0"]; tx := ["call : GetData" ++ line_end] |} in
  let p := PollData_init sock (Some 1%Q) true true in
  backlog (trough p) [RTuple [VInt 1; VInt 10]] sock1
  /\ closed_early "" (rx sock1)
  /\ (forall fuel,
        run (S fuel) {| self := p; at_ := AtPoll |}
        = {| self := with_trough (snd (call "GetData" [] sock1)) p;
             at_ := Uncaught AttributeError |}).
Proof.
  intros sock sock1 p.
  assert (backlog (trough p) [RTuple [VInt 1; VInt 10]] sock1) as Hb.
  { eapply backlog_more;
      [vm_compute; reflexivity|vm_compute; reflexivity|reflexivity|apply backlog_done]. }
  assert (closed_early "" (rx sock1)) as Hc.
  { apply closed_after_chunk; [discriminate|reflexivity|constructor]. }
  split; [exact Hb|]. split; [exact Hc|].
  exact (proj1 (closed_connection_ends_thread p _ sock1 eq_refl Hb Hc)).
Defined.

(** ** The thread and the controls, once more *)

Lemma poll_keeps_flags (p p' : PollData) (r : result unit) :
  poll p = Some (r, p') ->
  _interval p' = _interval p /\ _event p' = _event p /\ _error p' = _error p
  /\ _quit p' = _quit p /\ datacb p' = datacb p /\ errcb p' = errcb p.
Proof.
  intros H. pose proof (poll_never_reports _ _ _ H) as [He _].
  pose proof (poll_keeps_event _ _ _ H) as Hv.
  assert (_interval p' = _interval p /\ _quit p' = _quit p
          /\ datacb p' = datacb p /\ errcb p' = errcb p) as (A & B & C & D).
  { revert H. unfold poll.
    destruct (negb (_error p)); [|intros [= _ <-]; repeat split; reflexivity].
    destruct (get_data (trough p)) as [[[data|e] sock]|]; [| |discriminate].
    - intros [= _ <-]. simpl.
      destruct (datacb p) eqn:E; simpl; repeat split; congruence.
    - destruct e; try (intros [= _ <-]; repeat split; reflexivity).
      simpl. destruct (errcb p) eqn:E; intros [= _ <-]; simpl;
        repeat split; congruence. }
  repeat split; assumption.
Qed.


Lemma run_step_keeps_flags (t t' : thread) :
  run_step t = Some t' ->
  _interval (self t') = _interval (self t) /\ _event (self t') = _event (self t)
  /\ _error (self t') = _error (self t) /\ _quit (self t') = _quit (self t)
  /\ datacb (self t') = datacb (self t) /\ errcb (self t') = errcb (self t).
Proof.
  unfold run_step. destruct (at_ t).
  - destruct (poll (self t)) as [[[u|e] p]|] eqn:Hp; [| |discriminate];
      intros [= <-]; simpl; now apply poll_keeps_flags in Hp.
  - destruct (wait (self t)); [| |discriminate]; intros [= <-]; simpl; auto 6.
  - discriminate.
  - discriminate.
Qed.

(** X12.  [run] on its own changes none of the flags of the object: it
    never latches the error flag, never sets or clears the wake event,
    never asks itself to quit, and leaves the interval and the two
    callbacks as they are.  Only the controls do. *)
Theorem run_keeps_flags (fuel : nat) (t : thread) :
  _interval (self (run fuel t)) = _interval (self t)
  /\ _event (self (run fuel t)) = _event (self t)
  /\ _error (self (run fuel t)) = _error (self t)
  /\ _quit (self (run fuel t)) = _quit (self t)
  /\ datacb (self (run fuel t)) = datacb (self t)
  /\ errcb (self (run fuel t)) = errcb (self t).
Proof.
  revert t. induction fuel as [|fuel IH]; intros t; simpl; [auto 6|].
  destruct (run_step t) as [t'|] eqn:Hr; [|auto 6].
  apply run_step_keeps_flags in Hr as (H1 & H2 & H3 & H4 & H5 & H6).
  destruct (IH t') as (I1 & I2 & I3 & I4 & I5 & I6).
  repeat split; congruence.
Qed.

Lemma poll_called (p p' : PollData) (r : result unit) :
  poll p = Some (r, p') ->
  exists batches, called p' = (called p ++ List.map DataCb batches)%list.
Proof.
  intros H. apply poll_never_reports in H as [_ [H|[data H]]].
  - exists []. simpl. now rewrite app_nil_r.
  - exists [data]. assumption.
Qed.

Lemma control_keeps (c : control) (p : PollData) :
  _interval (control_step c p) = _interval p
  /\ datacb (control_step c p) = datacb p
  /\ errcb (control_step c p) = errcb p
  /\ called (control_step c p) = called p
  /\ trough (control_step c p) = trough p.
Proof.
  destruct c as [v| |]; simpl; auto.
  unfold interval_setter. destruct (less v (_interval p)) as [[|]|]; simpl; auto.
Qed.

Lemma step_keeps (t t' : thread) :
  step t t' ->
  _interval (self t') = _interval (self t)
  /\ datacb (self t') = datacb (self t)
  /\ errcb (self t') = errcb (self t)
  /\ exists batches,
       called (self t') = (called (self t) ++ List.map DataCb batches)%list.
Proof.
  intros [t1 t2 Hr|c t1].
  - pose proof (run_step_keeps_flags _ _ Hr) as (H1 & _ & _ & _ & H5 & H6).
    repeat split; try assumption.
    unfold run_step in Hr. destruct (at_ t1).
    + destruct (poll (self t1)) as [[[u|e] p]|] eqn:Hp; [| |discriminate];
        injection Hr as <-; simpl; now apply poll_called in Hp.
    + destruct (wait (self t1)); [| |discriminate]; injection Hr as <-;
        exists []; simpl; now rewrite app_nil_r.
    + discriminate.
    + discriminate.
  - simpl. destruct (control_keeps c (self t1)) as (H1 & H2 & H3 & H4 & _).
    repeat split; try assumption. exists []. simpl. now rewrite app_nil_r.
Qed.

(** X13.  However the thread and the controls of the other threads
    interleave, the poller keeps the interval and the callbacks it was
    built with, and the calls it makes are calls of the data callback
    only: the error callback is never called. *)
Theorem poller_life (t t' : thread) :
  steps t t' ->
  _interval (self t') = _interval (self t)
  /\ datacb (self t') = datacb (self t)
  /\ errcb (self t') = errcb (self t)
  /\ exists batches,
       called (self t') = (called (self t) ++ List.map DataCb batches)%list.
Proof.
  induction 1 as [t|t t1 t2 Hs _ IH].
  - repeat split. exists []. simpl. now rewrite app_nil_r.
  - apply step_keeps in Hs as (H1 & H2 & H3 & (b1 & H4)).
    destruct IH as (I1 & I2 & I3 & (b2 & I4)).
    repeat split; try congruence.
    exists (b1 ++ b2)%list. rewrite I4, H4, List.map_app. now rewrite <- app_assoc.
Qed.

Lemma poller_life_witness :
  let sock := {| rx := ["OK: 0 10" ++ line_end]; tx := [] |} in
  let p := PollData_init sock (Some 1%Q) true true in
  let t := {| self := p; at_ := AtPoll |} in
  let t' := {| self := control_step (SetInterval (Some (1 # 2)%Q))
                         (call_back (DataCb [RTuple [VInt 0; VInt 10]])
                            (with_trough
                               {| rx := []; tx := ["call : GetData" ++ line_end] |} p));
               at_ := AtWait |} in
  steps t t'
  /\ _interval (self t') = Some 1%Q
  /\ exists batches, called (self t') = ([] ++ List.map DataCb batches)%list.
Proof.
  intros sock p t t'.
  assert (steps t t') as Hs.
  { eapply steps_step; [apply step_run; vm_compute; reflexivity|].
    eapply steps_step;
      [apply (step_control (SetInterval (Some (1 # 2)%Q)))|apply steps_refl]. }
  split; [exact Hs|].
  destruct (poller_life t t' Hs) as (H1 & _ & _ & H4).
  split; [exact H1|exact H4].
Defined.

(** X14.  While the error flag is set, [run] touches nothing: it sends
    no command, reads nothing from the connection and calls no callback,
    for as long as it runs. *)
Theorem latched_run_is_idle (fuel : nat) (t : thread) :
  _error (self t) = true -> self (run fuel t) = self t.
Proof.
  revert t. induction fuel as [|fuel IH]; intros t He; simpl; [reflexivity|].
  destruct (run_step t) as [t'|] eqn:Hr; [|reflexivity].
  assert (self t' = self t) as Hs.
  { unfold run_step in Hr. destruct (at_ t).
    - destruct (latched_poller_skips (self t) He) as [Hp _]. rewrite Hp in Hr.
      now injection Hr as <-.
    - destruct (wait (self t)); [| |discriminate]; now injection Hr as <-.
    - discriminate.
    - discriminate. }
  rewrite IH; [assumption|]. now rewrite Hs.
Qed.

Lemma latched_run_is_idle_witness :
  let sock := {| rx := ["OK: 0 10" ++ line_end]; tx := [] |} in
  let p := error_setter true (PollData_init sock (Some 1%Q) true true) in
  _error p = true
  /\ self (run 7 {| self := p; at_ := AtPoll |}) = p.
Proof.
  intros sock p. split; [reflexivity|].
  exact (latched_run_is_idle 7 {| self := p; at_ := AtPoll |} eq_refl).
Defined.




(** X16.  A poller built with the interval [None] is not held back at
    the start: it runs one poll cycle first, and only then waits, for
    good unless a control sets the wake event. *)
Theorem suspended_poller_polls_once (p p' : PollData) :
  _interval p = None -> _event p = false ->
  poll p = Some (Ok tt, p') ->
  (forall fuel, run (S fuel) {| self := p; at_ := AtPoll |}
                = {| self := p'; at_ := AtWait |})
  /\ wait p' = Forever.
Proof.
  intros Hi He Hp.
  pose proof (poll_keeps_flags _ _ _ Hp) as (Hi' & He' & _).
  assert (wait p' = Forever) as Hw.
  { unfold wait, interval. now rewrite He', He, Hi', Hi. }
  split; [|exact Hw].
  intros fuel. simpl. unfold run_step at 1. simpl. rewrite Hp.
  destruct fuel; [reflexivity|]. simpl. unfold run_step. simpl. now rewrite Hw.
Qed.

Lemma suspended_poller_polls_once_witness :
  let sock := {| rx := ["OK: 0 10" ++ line_end]; tx := [] |} in
  let p := PollData_init sock None true true in
  let p' := call_back (DataCb [RTuple [VInt 0; VInt 10]])
              (with_trough {| rx := []; tx := ["call : GetData" ++ line_end] |} p) in
  poll p = Some (Ok tt, p')
  /\ run 5 {| self := p; at_ := AtPoll |} = {| self := p'; at_ := AtWait |}
  /\ wait p' = Forever.
Proof.
  intros sock p p'.
  assert (poll p = Some (Ok tt, p')) as Hp by (vm_compute; reflexivity).
  split; [exact Hp|].
  destruct (suspended_poller_polls_once p p' eq_refl eq_refl Hp) as [H1 H2].
  split; [exact (H1 4%nat)|exact H2].
Defined.

(** ** [connect] *)

(** X17.  [connect] takes one [recv] result as the prologue and no more.
    What the server sends after it, the rest of a greeting that came in
    two pieces included, stays on the connection and is read as the
    response to the first command. *)
Theorem connect_leaves_the_rest (greeting more : string) (rest sent : list string)
    (method : string) (args : list value) :
  more <> "" -> endswith line_end more = true ->
  let sock := {| rx := greeting :: more :: rest; tx := sent |} in
  fst (connect sock) = greeting
  /\ snd (connect sock) = {| rx := more :: rest; tx := sent |}
  /\ fst (call method args (snd (connect sock)))
     = (raw <- _parse_response (Some more) ;;
        fields <- _map_str_to_number raw ;;
        Ok (shape method fields))
  /\ (not_OK more ->
      fst (call method args (snd (connect sock))) = Raise (TroughError more)).
Proof.
  intros Hm He sock.
  assert (fst (call method args (snd (connect sock)))
          = (raw <- _parse_response (Some more) ;;
             fields <- _map_str_to_number raw ;;
             Ok (shape method fields))) as Hc.
  { rewrite call_eq. unfold connect, recv, sock. simpl snd.
    now rewrite (readline_first_chunk more rest sent Hm He). }
  repeat split; try assumption.
  intros Hn. rewrite Hc. now rewrite (parse_not_OK more Hn).
Qed.

Lemma connect_leaves_the_rest_witness :
  let sock := {| rx := ["MicroTrough "; "server ready" ++ line_end;
                        "OK: 0 KBN" ++ line_end];
                 tx := [] |} in
  "server ready" ++ line_end <> ""
  /\ endswith line_end ("server ready" ++ line_end) = true
  /\ not_OK ("server ready" ++ line_end)
  /\ fst (connect sock) = "MicroTrough "
  /\ fst (call "DeviceIdentification" [] (snd (connect sock)))
     = Raise (TroughError ("server ready" ++ line_end)).
Proof.
  intros sock.
  assert ("server ready" ++ line_end <> "") as Hm by discriminate.
  assert (endswith line_end ("server ready" ++ line_end) = true) as He
    by reflexivity.
  assert (not_OK ("server ready" ++ line_end)) as Hn by (left; reflexivity).
  split; [exact Hm|]. split; [exact He|]. split; [exact Hn|].
  destruct (connect_leaves_the_rest "MicroTrough " ("server ready" ++ line_end)
              ["OK: 0 KBN" ++ line_end] [] "DeviceIdentification" [] Hm He)
    as (H1 & _ & _ & H4).
  split; [exact H1|exact (H4 Hn)].
Defined.

(** ** The sample script *)

(** X18.  [int_ge_0] returns the integer exactly for the texts that
    [int] reads as an integer that is not negative, 0 included and with
    no upper bound; a negative integer and a text that is no integer both
    end in the same [ArgumentTypeError], and no other exception comes
    out. *)
Theorem int_ge_0_spec (s : string) :
  (forall i, int s = Ok i -> 0 <= i -> int_ge_0 s = Port i)
  /\ (forall i, int s = Ok i -> i < 0 ->
      int_ge_0 s = ArgumentTypeError "Must be a non-negative integer")
  /\ ((forall i, int s <> Ok i) ->
      int_ge_0 s = ArgumentTypeError "Must be a non-negative integer")
  /\ (forall i, int_ge_0 s = Port i -> int s = Ok i /\ 0 <= i)
  /\ (forall e, int_ge_0 s <> Propagated e).
Proof.
  unfold int_ge_0.
  destruct (int s) as [z|e] eqn:Hz; simpl.
  - destruct (Z.ltb_spec z 0) as [Hneg|Hpos]; simpl.
    + split; [intros i [= <-] Hi; lia|].
      split; [intros i [= <-] _; reflexivity|].
      split; [intros H; now destruct (H z)|].
      split; [intros i H; discriminate H|].
      intros e H; discriminate H.
    + split; [intros i [= <-] _; reflexivity|].
      split; [intros i [= <-] Hi; lia|].
      split; [intros H; now destruct (H z)|].
      split; [intros i [= <-]; split; [reflexivity|lia]|].
      intros e H; discriminate H.
  - apply int_raises in Hz as ->. simpl.
    split; [intros i H; discriminate H|].
    split; [intros i H; discriminate H|].
    split; [reflexivity|].
    split; [intros i H; discriminate H|].
    intros e H; discriminate H.
Qed.

Lemma int_ge_0_spec_witness :
  int " +9898 " = Ok 9898 /\ 0 <= 9898 /\ int_ge_0 " +9898 " = Port 9898.
Proof.
  assert (int " +9898 " = Ok 9898) as H by (vm_compute; reflexivity).
  assert (0 <= 9898) as Hp by lia.
  split; [exact H|]. split; [exact Hp|].
  exact (proj1 (int_ge_0_spec " +9898 ") 9898 H Hp).
Defined.

Lemma iadd_item_raises (add : value -> value -> result value)
    (m : call_result) (i : Z) (x : value) :
  exists e, iadd_item add m i x = Raise e.
Proof.
  unfold iadd_item. destruct (subscript m i) as [v|e]; simpl; [|eauto].
  destruct (add v x) as [w|e]; simpl; eauto.
Qed.

(** X19.  The data callback of the sample script never gets through a
    batch: the samples it is given are tuples, and adding the time
    offset in place ends in the [TypeError] of the item assignment (or
    in what the read or the sum raised before it); on an empty batch the
    last sample does not exist.  Nothing is written and [curr_data] is
    not set, whatever [+] does. *)
Theorem new_data_always_raises (add : value -> value -> result value)
    (h : TroughDataHelper) (data : list call_result) :
  (exists e, new_data add h data = (Raise e, h))
  /\ (data = [] -> new_data add h data = (Raise IndexError, h))
  /\ (forall vs rest v w,
        data = RTuple vs :: rest ->
        getitem vs uTTime = Ok v ->
        add v (_time_offset h) = Ok w ->
        new_data add h data = (Raise TypeError, h)).
Proof.
  split; [|split].
  - unfold new_data. destruct data as [|m rest]; simpl; [eauto|].
    destruct (iadd_item_raises add m uTTime (_time_offset h)) as [e ->]. eauto.
  - intros ->. reflexivity.
  - intros vs rest v w -> Hv Hw. unfold new_data. cbn [new_data_loop].
    unfold iadd_item. cbn [subscript]. rewrite Hv. cbn [bind]. rewrite Hw.
    reflexivity.
Qed.

Lemma new_data_always_raises_witness :
  let add := fun v x : value =>
               match v, x with
               | VInt a, VInt b => Ok (VInt (a + b))
               | _, _ => Raise TypeError
               end in
  let h := {| rows := []; curr_data := None; _time_offset := VInt 0 |} in
  let m := RTuple (List.map VInt [1; 0; 0; 0; 0; 0; 0; 0; 0; 0; 0; 0; 0; 0; 0; 0;
                                  5; 0; 0; 0; 0; 0]) in
  getitem (List.map VInt [1; 0; 0; 0; 0; 0; 0; 0; 0; 0; 0; 0; 0; 0; 0; 0;
                          5; 0; 0; 0; 0; 0]) uTTime = Ok (VInt 5)
  /\ add (VInt 5) (_time_offset h) = Ok (VInt 5)
  /\ new_data add h [m] = (Raise TypeError, h).
Proof.
  intros add h m.
  assert (getitem (List.map VInt [1; 0; 0; 0; 0; 0; 0; 0; 0; 0; 0; 0; 0; 0; 0; 0;
                                  5; 0; 0; 0; 0; 0]) uTTime = Ok (VInt 5)) as Hv
    by reflexivity.
  assert (add (VInt 5) (_time_offset h) = Ok (VInt 5)) as Hw by reflexivity.
  split; [exact Hv|]. split; [exact Hw|].
  exact (proj2 (proj2 (new_data_always_raises add h [m])) _ [] _ _ eq_refl Hv Hw).
Defined.

(** ** Which field 0 ends a poll cycle *)

Lemma lower_false_coerced (t : string) :
  lower t = "false" <-> str_to_number t = Ok (VBool false).
Proof.
  split.
  - intros Hl. apply lower_casings in Hl.
    exact (proj1 (List.Forall_forall _ _) str_to_number_casings_false t Hl).
  - rewrite str_to_number_eq. unfold after_ValueError.
    destruct (String.eqb_spec (lower t) "false") as [H|H]; [trivial|].
    destruct (contains "." t).
    + destruct (float_of_string t); [discriminate|].
      destruct (String.eqb (lower t) "true"); discriminate.
    + destruct (int t); [discriminate|].
      destruct (String.eqb (lower t) "true"); discriminate.
Qed.

(** X20.  The test [count == 0] that ends a poll cycle holds exactly
    when field 0 of the response is a text without "." that [int] reads
    as 0, a text with "." that [float] reads as a zero, or "false" in
    any case.  Any other field 0 (a text such as "0e0" or "ready"
    included) keeps the drain going. *)
Theorem field_0_ends_cycle (t : string) (v : value) :
  str_to_number t = Ok v ->
  (eq_zero v = true
   <-> (contains "." t = false /\ int t = Ok 0)
       \/ (contains "." t = true
           /\ exists s, float_of_string t = Ok (S754_zero s))
       \/ lower t = "false").
Proof.
  intros Hv. split.
  - intros Hz. destruct v as [z|f|b|s]; simpl in Hz.
    + apply Z.eqb_eq in Hz as ->. left.
      rewrite str_to_number_eq in Hv. unfold after_ValueError in Hv.
      destruct (contains "." t).
      * destruct (float_of_string t); [discriminate|].
        destruct (String.eqb _ _); [discriminate|].
        destruct (String.eqb _ _); discriminate.
      * split; [reflexivity|].
        destruct (int t) as [z|e]; [congruence|].
        destruct (String.eqb _ _); [discriminate|].
        destruct (String.eqb _ _); discriminate.
    + destruct f as [s| | |]; try discriminate. right. left.
      rewrite str_to_number_eq in Hv. unfold after_ValueError in Hv.
      destruct (contains "." t).
      * split; [reflexivity|]. exists s.
        destruct (float_of_string t) as [f|e];
          [injection Hv as ->; reflexivity|].
        destruct (String.eqb _ _); [discriminate|].
        destruct (String.eqb _ _); discriminate.
      * destruct (int t); [discriminate|].
        destruct (String.eqb _ _); [discriminate|].
        destruct (String.eqb _ _); discriminate.
    + destruct b; [discriminate|]. right. right. now apply lower_false_coerced.
    + discriminate.
  - intros [[Hd Hi]|[[Hd [s Hf]]|Hl]].
    + rewrite str_to_number_eq, Hd, Hi in Hv. now injection Hv as <-.
    + rewrite str_to_number_eq, Hd, Hf in Hv. now injection Hv as <-.
    + apply lower_false_coerced in Hl. rewrite Hl in Hv. now injection Hv as <-.
Qed.

Lemma field_0_ends_cycle_witness :
  str_to_number "0e0" = Ok (VStr "0e0")
  /\ (eq_zero (VStr "0e0") = true
      <-> (contains "." "0e0" = false /\ int "0e0" = Ok 0)
          \/ (contains "." "0e0" = true
              /\ exists s, float_of_string "0e0" = Ok (S754_zero s))
          \/ lower "0e0" = "false").
Proof.
  assert (str_to_number "0e0" = Ok (VStr "0e0")) as H by (vm_compute; reflexivity).
  split; [exact H|]. exact (field_0_ends_cycle "0e0" (VStr "0e0") H).
Defined.

(** ** Requests and responses in sequence *)

Lemma call_whole_line (method : string) (args : list value) (line : string)
    (rest sent : list string) :
  whole_line line ->
  call method args {| rx := line :: rest; tx := sent |}
  = (answer method line,
     {| rx := rest; tx := (sent ++ [call_line method args])%list |}).
Proof.
  intros [Hne He].
  rewrite (surjective_pairing (call _ _ _)). f_equal.
  - rewrite call_eq. now rewrite (readline_first_chunk line rest sent Hne He).
  - rewrite (call_state method args
               {| rx := line :: rest; tx := sent |}).
    now rewrite (readline_first_chunk line rest sent Hne He).
Qed.

(** X21.  When every response arrives as one whole line per [recv],
    calls made one after the other are answered in order: the n-th call
    gets what the n-th line gives, whether earlier calls failed or not,
    and the lines sent are the requests in the order of the calls. *)
Theorem calls_answered_in_order (requests : list (string * list value))
    (lines rest sent : list string) :
  Forall whole_line lines ->
  length requests = length lines ->
  call_each requests {| rx := (lines ++ rest)%list; tx := sent |}
  = (List.map (fun rl => answer (fst (fst rl)) (snd rl))
       (List.combine requests lines),
     {| rx := rest;
        tx := (sent ++ List.map (fun r => call_line (fst r) (snd r)) requests)%list |}).
Proof.
  intros Hl. revert requests sent.
  induction Hl as [|line lines Hline _ IH]; intros requests sent Hlen.
  - destruct requests; [|discriminate Hlen]. simpl. now rewrite app_nil_r.
  - destruct requests as [|[method args] requests]; [discriminate Hlen|].
    simpl. rewrite (call_whole_line method args line _ sent Hline).
    rewrite IH by (simpl in Hlen; lia). simpl.
    now rewrite <- app_assoc.
Qed.

Lemma calls_answered_in_order_witness :
  let lines := ["ERR: busy" ++ line_end; "OK: 0 42" ++ line_end] in
  Forall whole_line lines
  /\ fst (call_each [("StepRelax", []); ("GetMaxBarrierSpeed", [])]
            {| rx := (lines ++ [])%list; tx := [] |})
     = [Raise (TroughError ("ERR: busy" ++ line_end)); Ok (RScalar (VInt 42))].
Proof.
  intros lines.
  assert (Forall whole_line lines) as Hl
    by (repeat constructor; discriminate).
  split; [exact Hl|].
  rewrite (calls_answered_in_order
             [("StepRelax", []); ("GetMaxBarrierSpeed", [])] lines [] [] Hl eq_refl).
  vm_compute. reflexivity.
Defined.
